(** * Quantum k-means (qkmeans.py): a shallow embedding and its properties

    The development follows [src/qkmeans.py]: the swap-test circuit builders
    ([distance], [batch_distance]), the batcher ([batch_separate],
    [batch_collect], [batch_distances]), the seeder ([qkmeans_plusplus]) and
    the estimator class ([QuantumKMeans], [fit], [predict]).

    Conventions.
    - A Python float is a rational [Q]; a measured distance is a count divided
      by 1024, which is exact in binary floating point as well.
    - Angles are kept symbolic ([angle]): they involve [pi] and [np.angle].
    - A Python call either returns or raises: [result].  A function that can
      fall off its end returns [option], [None] being Python's [None].
    - The execution backend, scikit-learn's [scale] and [normalize], [np.sqrt]
      and the random generator are collaborators of the program; they are
      parameters here ([Backend], [Library], [RandomState]). *)

From Stdlib Require Import QArith Qabs Qminmax.
From stdpp Require Import gmap strings list sorting.

Set Default Proof Using "Type".

(* ===================================================================== *)
(** * Part I: definitions *)
(* ===================================================================== *)

(** ** Exceptions and results *)

Inductive exn :=
| TypeError | KeyError | IndexError | ValueError | ZeroDivisionError
| OverflowError | NotImplementedError | UnboundLocalError | AttributeError
| QiskitError.

Inductive result (A : Type) :=
| Ok (a : A)
| Raise (e : exn).
Arguments Ok {A} a.
Arguments Raise {A} e.

#[global] Instance result_ret : MRet result := fun A a => Ok a.
#[global] Instance result_bind : MBind result := fun A B k m =>
  match m with Ok a => k a | Raise e => Raise e end.
#[global] Instance result_fmap : FMap result := fun A B f m =>
  match m with Ok a => Ok (f a) | Raise e => Raise e end.

Definition raises {A} (r : result A) : Prop := exists e, r = Raise e.

(** [v[i]] on a sequence. *)
Definition item {A} (v : list A) (i : nat) : result A :=
  match v !! i with Some a => Ok a | None => Raise IndexError end.

(** A Python number as NumPy's shape arguments see it. *)
Inductive pynum :=
| PyInt (n : nat)
| PyFloat (q : Q).

(** [np.zeros(shape)]: NumPy refuses a float shape. *)
Definition np_zeros (shape : pynum) : result (list Q) :=
  match shape with
  | PyInt n => Ok (replicate n 0%Q)
  | PyFloat _ => Raise TypeError
  end.

(** [np.asarray] of a list of equally long rows is a 2-D array; rows of
    different lengths are refused (ValueError, inhomogeneous shape).  NumPy
    releases that still build a 1-D array of objects from them fail later,
    in [batch_collect]. *)
Definition same_length {A} (rows : list (list A)) : bool :=
  match rows with
  | [] => true
  | r :: rest => forallb (fun r' => length r' =? length r) rest
  end.

Definition np_asarray {A} (rows : list (list A)) : result (list (list A)) :=
  if same_length rows then Ok rows else Raise ValueError.

(** [a.shape[1]] of a 2-D array with at least one row. *)
Definition shape1 {A} (a : list (list A)) : nat :=
  match a with [] => 0 | r :: _ => length r end.

(** ** Circuits *)

(** The rotation angles the program computes. *)
Inductive angle :=
| A_pi                        (* math.pi *)
| A_zero                      (* the literal 0 *)
| A_phase (re im : Q)         (* np.angle(re + 1j*im) *)
| A_mul_pi (v : Q)            (* v * np.pi *)
| A_mul_pi_half (v : Q).      (* v * np.pi / 2 *)

Inductive instruction :=
| gate_h (q : nat)
| gate_u3 (theta phi lam : angle) (q : nat)
| gate_cswap (control a b : nat)
| gate_initialize (params : list Q) (qubits : list nat)
| gate_measure (q c : nat)
| gate_reset (qubits : list nat).

(** [QuantumCircuit(qr, cr)] with the instructions appended to it, in order. *)
Record QuantumCircuit := {
  num_qubits : nat;
  num_clbits : nat;
  data : list instruction
}.

(** [qr[i]] on a register of [size] qubits. *)
Definition qr_item (size i : nat) : result nat :=
  if i <? size then Ok i else Raise IndexError.

(** [qc.initialize(params, qubits)].  Qiskit refuses, with QiskitError or its
    subclass CircuitError, a vector that does not hold [2^len(qubits)]
    amplitudes for at least one qubit, or whose squared amplitudes do not sum
    to 1. *)
Definition initialize (params : list Q) (qubits : list nat) : result instruction :=
  if negb (length qubits =? 0) && (length params =? 2 ^ length qubits)
     && Qeq_bool (foldr (fun a s => a * a + s)%Q 0%Q params) 1
  then Ok (gate_initialize params qubits)
  else Raise QiskitError.

(** The backend: the histogram it returns for a circuit run with a number of
    shots, and [backend.configuration().max_experiments].  The result of a
    job holds one histogram per circuit, in the order of the circuits;
    [result.get_counts()] hands out the list of them, and the histogram
    itself when the job held a single circuit. *)
Record Backend := {
  get_counts : QuantumCircuit -> N -> gmap string N;
  max_experiments : nat
}.

Definition shots : N := 1024.

(** The three-qubit swap test of the 'angle' branches with two features. *)
Definition angle_circuit (theta_1 theta_2 : angle) : QuantumCircuit :=
  {| num_qubits := 3; num_clbits := 3;
     data := [gate_h 0; gate_h 1; gate_h 2;
              gate_u3 theta_1 A_pi A_pi 1;
              gate_u3 theta_2 A_pi A_pi 2;
              gate_cswap 0 1 2; gate_h 0;
              gate_measure 0 0; gate_reset [0; 1; 2]] |}.

(** Lines 105-120 of [distance]: three features with [norm_relevance]. *)
Definition distance_norm_circuit (theta_1 ro_1 theta_2 ro_2 : angle) : QuantumCircuit :=
  {| num_qubits := 3; num_clbits := 3;
     data := [gate_h 0; gate_h 1; gate_h 2;
              gate_u3 theta_1 A_pi A_pi 1;
              gate_u3 ro_1 A_zero A_zero 1;
              gate_u3 theta_2 A_pi A_pi 2;
              gate_u3 ro_2 A_zero A_zero 1;
              gate_cswap 0 1 2; gate_h 0;
              gate_measure 0 0; gate_reset [0; 1; 2]] |}.

(** Lines 269-284 of [batch_distance]: three features. *)
Definition batch_norm_circuit (theta_1 ro_1 theta_2 ro_2 : angle) : QuantumCircuit :=
  {| num_qubits := 3; num_clbits := 3;
     data := [gate_h 0; gate_h 1; gate_h 2;
              gate_u3 theta_1 A_pi A_pi 1;
              gate_u3 ro_1 A_zero A_zero 1;
              gate_u3 theta_2 A_pi A_pi 2;
              gate_u3 ro_2 A_zero A_zero 2;
              gate_cswap 0 1 2; gate_h 0;
              gate_measure 0 0; gate_reset [0; 1; 2]] |}.

(** [len(data)==1 -> 0.0, else data['001']/1024]: the decoding of the
    'angle' branches, batched and not. *)
Definition counts_to_distance (counts : gmap string N) : result Q :=
  if decide (size counts = 1) then Ok 0%Q
  else match counts !! "001" with
       | Some c => Ok (Z.of_N c # 1024)%Q
       | None => Raise KeyError
       end.

(** [data[i][key]/1024 if key in data[i] else 0.0]: the decoding of the
    batched 'probability' branches. *)
Definition contained_to_distance (key : string) (counts : gmap string N) : Q :=
  match counts !! key with
  | Some c => (Z.of_N c # 1024)%Q
  | None => 0%Q
  end.

(** ** [distance] (lines 53-149) *)

(** The circuit [distance] builds before it executes anything; [None] when no
    branch applies and the function falls off its end.  In the 'probability'
    branch [qubits = np.ceil(np.log2(x.size))] is a float, so the next
    statement, [np.zeros(2**qubits)], raises; nothing after it is reached. *)
Definition distance_circuit (x y : list Q) (map_type : string) (norm_relevance : bool)
  : result (option QuantumCircuit) :=
  if decide (map_type = "angle") then
    if decide (length x = 2) then
      x0 ← item x 0; x1 ← item x 1;
      y0 ← item y 0; y1 ← item y 1;
      Ok (Some (angle_circuit (A_phase x0 x1) (A_phase y0 y1)))
    else if bool_decide (length x = 3) && norm_relevance then
      x0 ← item x 0; x1 ← item x 1;
      y0 ← item y 0; y1 ← item y 1;
      x2 ← item x 2; y2 ← item y 2;
      Ok (Some (distance_norm_circuit (A_phase x0 x1) (A_mul_pi x2)
                                      (A_phase y0 y1) (A_mul_pi y2)))
    else Ok None
  else if decide (map_type = "probability") then
    (* qubits = np.ceil(np.log2(x.size)) and 2**qubits are floats *)
    let qubits := Z.log2_up (Z.of_nat (length x)) in
    let size := PyFloat (inject_Z (2 ^ qubits)) in
    _ ← np_zeros size;
    Raise TypeError
  else Ok None.

Definition distance (x y : list Q) (backend : Backend) (map_type : string)
    (norm_relevance : bool) : result (option Q) :=
  qc ← distance_circuit x y map_type norm_relevance;
  match qc with
  | None => Ok None
  | Some qc => Some <$> counts_to_distance (get_counts backend qc shots)
  end.

(** ** [batch_separate] (lines 151-183) *)

(** [np.split(X, indices)]: the slices between consecutive indices. *)
Fixpoint np_split_from {A} (start : nat) (X : list A) (indices : list nat) : list (list A) :=
  match indices with
  | [] => [drop start X]
  | i :: rest => take (i - start) (drop start X) :: np_split_from i X rest
  end.

Definition np_split {A} (X : list A) (indices : list nat) : list (list A) :=
  np_split_from 0 X indices.

(** [np.repeat(a, k, axis=0)]. *)
Definition np_repeat {A} (k : nat) (a : list A) : list A :=
  flat_map (replicate k) a.

(** The cluster centres handed to the batcher: a 2-D array, or the 1-D empty
    array [np.empty(0)] an unfitted estimator holds. *)
Inductive ndarray :=
| Empty1D
| Rows (rows : list (list Q)).

Definition shape0 (a : ndarray) : nat :=
  match a with Empty1D => 0 | Rows rows => length rows end.

Definition rows_of (a : ndarray) : list (list Q) :=
  match a with Empty1D => [] | Rows rows => rows end.

Definition batch_separate (X : list (list Q)) (clusters : ndarray) (max_experiments : nat)
  : result (list (list (list Q) * list Q)) :=
  let n := length X in
  let k := shape0 clusters in
  if k <? n then
    if max_experiments =? 0 then Raise ZeroDivisionError else
    let indices :=
      if n mod max_experiments =? 0
      then map (fun i => i * max_experiments) (seq 1 (n / max_experiments - 1))
      else map (fun i => i * max_experiments) (seq 1 (n / max_experiments)) in
    batches_X ← np_asarray (np_split X indices);
    match clusters with
    | Empty1D => Raise IndexError        (* clusters.shape[1] *)
    | Rows rows =>
        let n_chunks :=
          if n mod max_experiments =? 0 then n / max_experiments
          else n / max_experiments + 1 in
        (* batches_clusters[i::k] = clusters[i] for every i *)
        let batches_clusters := concat (replicate n_chunks rows) in
        let batches_X := np_repeat k batches_X in
        Ok (zip batches_X batches_clusters)
    end
  else Raise NotImplementedError.

(** ** [batch_distance] (lines 185-404) *)

(** How the histograms of a batch are decoded. *)
Inductive decoding :=
| by_outcome_count
| by_membership (key : string).

Definition decode (rule : decoding) (counts : gmap string N) : result Q :=
  match rule with
  | by_outcome_count => counts_to_distance counts
  | by_membership key => Ok (contained_to_distance key counts)
  end.

(** ['0'*n]. *)
Fixpoint zeros_string (n : nat) : string :=
  match n with 0 => "" | S n' => "0" +:+ zeros_string n' end.

(** ['0'*qubits*2+'1']. *)
Definition divergent_key (qubits : nat) : string :=
  (zeros_string qubits +:+ zeros_string qubits) +:+ "1".

Definition is_power_of_two (f : nat) : bool :=
  negb (f =? 0) && (2 ^ Nat.log2 f =? f).

(** [x = np.zeros(2**qubits); x[:len(v)] = v]. *)
Definition zero_pad (qubits : nat) (v : list Q) : result (list Q) :=
  if length v <=? 2 ^ qubits
  then Ok (v ++ replicate (2 ^ qubits - length v) 0%Q)
  else Raise ValueError.

(** The 'angle' loop body shared by the branches for 2 features, a power of
    two, and the rest. *)
Definition batch_angle_circuit (x y : list Q) : result QuantumCircuit :=
  x0 ← item x 0; x1 ← item x 1;
  y0 ← item y 0; y1 ← item y 1;
  Ok (angle_circuit (A_phase x0 x1) (A_phase y0 y1)).

(** The 'angle' loop body for 3 features. *)
Definition batch_angle3_circuit (x y : list Q) : result QuantumCircuit :=
  x0 ← item x 0; x1 ← item x 1;
  y0 ← item y 0; y1 ← item y 1;
  x2 ← item x 2; y2 ← item y 2;
  Ok (batch_norm_circuit (A_phase x0 x1) (A_mul_pi_half x2)
                         (A_phase y0 y1) (A_mul_pi_half y2)).

(** The 'probability' loop body for 2 features: one qubit per operand. *)
Definition batch_probability2_circuit (x y : list Q) : result QuantumCircuit :=
  init_x ← initialize x [1];
  init_y ← initialize y [2];
  Ok {| num_qubits := 3; num_clbits := 3;
        data := [init_x; init_y;
                 gate_h 0; gate_cswap 0 1 2; gate_h 0;
                 gate_measure 0 0; gate_reset [0; 1; 2]] |}.

(** The 'probability' loop body on [qubits] qubits per operand; [x] and [y]
    are the amplitude vectors handed to [initialize]. *)
Definition batch_probability_circuit (qubits : nat) (x y : list Q) : result QuantumCircuit :=
  let size := qubits * 2 + 1 in
  init_x ← initialize x (map (fun i => i + 1) (seq 0 qubits));
  init_y ← initialize y (map (fun i => i + 1 + qubits) (seq 0 qubits));
  q0 ← qr_item size 0;
  q1 ← qr_item size 1;
  q2 ← qr_item size (qubits + 1);
  Ok {| num_qubits := size; num_clbits := size;
        data := [init_x; init_y;
                 gate_h q0; gate_cswap q0 q1 q2; gate_h q0;
                 gate_measure q0 0; gate_reset (seq 0 size)] |}.

(** The circuits of a batch and the decoding of their histograms; [None] when
    the branch taken has no case for [map_type]. *)
Definition batch_circuits (B : list (list Q) * list Q) (map_type : string)
  : result (option (list QuantumCircuit * decoding)) :=
  let f := shape1 B.1 in
  if decide (f = 2) then
    if decide (map_type = "angle") then
      qcs ← mapM (fun point => batch_angle_circuit point B.2) B.1;
      Ok (Some (qcs, by_outcome_count))
    else if decide (map_type = "probability") then
      qcs ← mapM (fun point => batch_probability2_circuit point B.2) B.1;
      Ok (Some (qcs, by_membership (divergent_key 1)))
    else Ok None
  else if decide (f = 3) then
    if decide (map_type = "angle") then
      qcs ← mapM (fun point => batch_angle3_circuit point B.2) B.1;
      Ok (Some (qcs, by_outcome_count))
    else Ok None
  else if is_power_of_two f then
    if decide (map_type = "angle") then
      qcs ← mapM (fun point => batch_angle_circuit point B.2) B.1;
      Ok (Some (qcs, by_outcome_count))
    else if decide (map_type = "probability") then
      let qubits := Nat.log2 f in
      qcs ← mapM (fun point => batch_probability_circuit qubits point B.2) B.1;
      Ok (Some (qcs, by_membership (divergent_key qubits)))
    else Ok None
  else
    if decide (map_type = "angle") then
      qcs ← mapM (fun point => batch_angle_circuit point B.2) B.1;
      Ok (Some (qcs, by_outcome_count))
    else if decide (map_type = "probability") then
      (* int(np.log2(0)) is int(-inf) *)
      if (f =? 0) && negb (length B.1 =? 0) then Raise OverflowError else
      let qubits := if is_power_of_two f then Nat.log2 f else Nat.log2 f + 1 in
      qcs ← mapM (fun point =>
                    x ← zero_pad qubits point;
                    y ← zero_pad qubits B.2;
                    batch_probability_circuit qubits x y) B.1;
      Ok (Some (qcs, by_membership (divergent_key qubits)))
    else Ok None.

(** [key in outcome] on strings: [key] occurs in [outcome]. *)
Fixpoint is_substring (key outcome : string) : bool :=
  String.prefix key outcome ||
  match outcome with
  | EmptyString => false
  | String _ rest => is_substring key rest
  end.

(** The same decoding statements on the result of a job of one circuit,
    where [data] is the histogram itself: the loops run over its outcomes,
    which are strings.  An 'angle' branch takes [len] of an outcome and
    indexes it with '001' unless that is 1 (TypeError); a 'probability'
    branch tests whether the key occurs in an outcome and then indexes the
    histogram with a position (KeyError).  What is returned holds one 0.0 per
    outcome. *)
Definition decode_single (rule : decoding) (counts : gmap string N) : result (list Q) :=
  let outcomes := (map_to_list counts).*1 in
  match rule with
  | by_outcome_count =>
      if forallb (fun outcome => String.length outcome =? 1) outcomes
      then Ok (replicate (length outcomes) 0%Q)
      else Raise TypeError
  | by_membership key =>
      if existsb (is_substring key) outcomes
      then Raise KeyError
      else Ok (replicate (length outcomes) 0%Q)
  end.

Definition batch_distance (B : list (list Q) * list Q) (backend : Backend) (map_type : string)
  : result (option (list Q)) :=
  plan ← batch_circuits B map_type;
  match plan with
  | None => Ok None
  | Some ([qc], rule) => Some <$> decode_single rule (get_counts backend qc shots)
  | Some (qcs, rule) =>
      Some <$> mapM (fun qc => decode rule (get_counts backend qc shots)) qcs
  end.

(** ** [batch_collect] (lines 407-430) *)

(** [a[i]] with Python's negative indices. *)
Definition py_item {A} (a : list A) (i : Z) : result A :=
  let len := Z.of_nat (length a) in
  if (0 <=? i)%Z && (i <? len)%Z then item a (Z.to_nat i)
  else if (- len <=? i)%Z && (i <? 0)%Z then item a (Z.to_nat (len + i))
  else Raise IndexError.

(** [a.reshape((r, c))] on the row-major elements of [a]. *)
Fixpoint split_rows {A} (r c : nat) (flat : list A) : list (list A) :=
  match r with
  | 0 => []
  | S r' => take c flat :: split_rows r' c (drop c flat)
  end.

Definition reshape {A} (flat : list A) (shape : nat * nat) : result (list (list A)) :=
  if length flat =? shape.1 * shape.2
  then Ok (split_rows shape.1 shape.2 flat)
  else Raise ValueError.

Definition batch_collect {A} (batch_d : list (list A)) (desired_shape : nat * nat)
  : result (list (list A)) :=
  let rows := length batch_d in
  if desired_shape.1 =? 0 then Raise ZeroDivisionError else
  final_batch_d ←
    mapM (fun i =>
            if i <? rows / desired_shape.1
            then py_item batch_d (Z.of_nat (desired_shape.1 * i))
            else py_item batch_d
                   (Z.of_nat (desired_shape.1 * i) - Z.of_nat rows + 1)%Z)
         (seq 0 rows);
  reshape (concat final_batch_d) desired_shape.

(** ** [batch_distances] (lines 432-456) *)

(** A cell of a distance matrix: a float, or Python's [None] where the
    estimator returned nothing. *)
Abbreviation cell := (option Q).

(** [np.asarray(distance_list)]: lists of floats make a 2-D array; a list of
    [None]s makes a 1-D object array, which indexes and reshapes like rows of
    one cell each; anything else is inhomogeneous. *)
Definition distance_array (distance_list : list (option (list Q))) : result (list (list cell)) :=
  if forallb (fun d => bool_decide (d = None)) distance_list
  then Ok (map (fun _ => [None]) distance_list)
  else
    rows ← mapM (fun d => match d with
                          | Some l => Ok (map Some l)
                          | None => Raise ValueError
                          end) distance_list;
    np_asarray rows.

Definition batch_distances (X : list (list Q)) (cluster_centers : ndarray)
    (backend : Backend) (map_type : string) : result (list (list cell)) :=
  batches ← batch_separate X cluster_centers (max_experiments backend);
  distance_list ← mapM (fun B => batch_distance B backend map_type) batches;
  batch_d ← distance_array distance_list;
  batch_collect batch_d (shape0 cluster_centers, length X).

(** The unbatched estimator, as [fit], [predict] and [qkmeans_plusplus] write
    it: [[distance(point, centroid, backend) for point in X] for centroid in
    centers], with [distance]'s default [map_type='angle'] and
    [norm_relevance=False]. *)
Definition pairwise_distances (X centers : list (list Q)) (backend : Backend)
  : result (list (list cell)) :=
  mapM (fun centroid =>
          mapM (fun point => distance point centroid backend "angle" false) X)
       centers.

(** ** NumPy reductions on distance matrices *)

Definition Qsum (l : list Q) : Q := foldr Qplus 0%Q l.

Definition Qltb (a b : Q) : bool := negb (Qle_bool b a).

(** The floats of an array; arithmetic on a [None] cell raises. *)
Definition floats (cells : list cell) : result (list Q) :=
  mapM (fun c => match c with Some q => Ok q | None => Raise TypeError end) cells.

(** [a.sum()]: a single cell is returned as it is, without an addition. *)
Definition np_sum (cells : list cell) : result cell :=
  match cells with
  | [c] => Ok c
  | _ => qs ← floats cells; Ok (Some (Qsum qs))
  end.

(** [np.argmin]: the first index of the least value. *)
Fixpoint argmin_from (best_i : nat) (best : Q) (i : nat) (l : list Q) : nat :=
  match l with
  | [] => best_i
  | q :: rest =>
      if Qltb q best then argmin_from i q (S i) rest
      else argmin_from best_i best (S i) rest
  end.

Definition argmin_floats (l : list Q) : result nat :=
  match l with
  | [] => Raise ValueError
  | q :: rest => Ok (argmin_from 0 q 1 rest)
  end.

(** [np.argmin] on a column of cells: one cell needs no comparison. *)
Definition np_argmin (col : list cell) : result nat :=
  match col with
  | [] => Raise ValueError
  | [_] => Ok 0
  | _ => qs ← floats col; argmin_floats qs
  end.

(** [np.cumsum]. *)
Fixpoint cumsum_from (acc : Q) (l : list Q) : list Q :=
  match l with
  | [] => []
  | q :: rest => (acc + q)%Q :: cumsum_from (acc + q)%Q rest
  end.

Definition stable_cumsum (cells : list cell) : result (list Q) :=
  qs ← floats cells; Ok (cumsum_from 0%Q qs).

(** [np.searchsorted(a, v)] (side 'left') on an ascending array: the number
    of leading elements below [v]. *)
Fixpoint searchsorted (a : list Q) (v : Q) : nat :=
  match a with
  | [] => 0
  | q :: rest => if Qltb q v then S (searchsorted rest v) else 0
  end.

(** [np.minimum(closest, rows, out=rows)]: [closest] is broadcast over the
    rows, which must be as long as it is. *)
Definition np_minimum (closest : list cell) (rows : list (list cell)) : result (list (list Q)) :=
  match rows with
  | [] => Raise ValueError
  | _ =>
      mapM (fun row =>
              if length row =? length closest then
                a ← floats closest; b ← floats row;
                Ok (zip_with Qmin a b)
              else Raise ValueError) rows
  end.

(** [a[:, i]]. *)
Definition column {A} (a : list (list A)) (i : nat) : list A :=
  omap (fun row => row !! i) a.

(** [[np.argmin(distances[:,i]) for i in range(distances.shape[1])]]. *)
Definition nearest (distances : list (list cell)) : result (list nat) :=
  match distances with
  | [] => Raise IndexError              (* shape (0,): no shape[1] *)
  | row :: _ => mapM (fun i => np_argmin (column distances i)) (seq 0 (length row))
  end.

(** ** The random generator *)

(** [numpy.random.RandomState] over a state [St]: [randint(n)] for a positive
    [n], [random_sample(size)] and [permutation(n)]. *)
Record RandomState (St : Type) := {
  randint : St -> nat -> nat * St;
  random_sample : St -> nat -> list Q * St;
  permutation : St -> nat -> list nat * St
}.
Arguments randint {St} _ _ _.
Arguments random_sample {St} _ _ _.
Arguments permutation {St} _ _ _.

(** [choice(n, size, replace=False)], which [DataFrame.sample] draws its row
    positions with: the first [size] entries of a permutation. *)
Definition choice {St} (rng : RandomState St) (s : St) (n size : nat) : list nat * St :=
  let '(p, s) := permutation rng s n in (take size p, s).

(** [int(np.log(n))] for [0 < n < 59874]: the number of powers of [e] (rounded
    up: 3, 8, 21, ...) that do not exceed [n]; [np.log(0)] is [-inf]. *)
Definition int_log (n : nat) : result nat :=
  if n =? 0 then Raise OverflowError
  else Ok (length (filter (fun t => (t <= N.of_nat n)%N)
                          [3; 8; 21; 55; 149; 404; 1097; 2981; 8104; 22027]%N)).

(** ** [qkmeans_plusplus] (lines 458-555) *)

(** [batch_distances(X, centers, ...)] if [batch], else the unbatched
    comprehension: the four places of the seeder that compute distances. *)
Definition seeding_distances (batch : bool) (X centers : list (list Q))
    (backend : Backend) (map_type : string) : result (list (list cell)) :=
  if batch then batch_distances X (Rows centers) backend map_type
  else pairwise_distances X centers backend.

Record seeding (St : Type) := {
  st_centers : list (list Q);
  st_indices : list Z;
  st_closest_distances : list cell;
  st_current_pot : cell;
  st_random_state : St
}.
Arguments st_centers {St} _.
Arguments st_indices {St} _.
Arguments st_closest_distances {St} _.
Arguments st_current_pot {St} _.
Arguments st_random_state {St} _.

(** Lines 506-521 (and again 533-548): draw the candidates, measure them,
    keep the one with the least potential.  Returns its row index and the
    updated distances, potential and generator state. *)
Definition best_candidate {St} (rng : RandomState St) (X : list (list Q))
    (backend : Backend) (map_type : string) (batch : bool) (n_local_trials : nat)
    (closest : list cell) (pot : cell) (s : St)
  : result (nat * list cell * cell * St) :=
  let '(samples, s) := random_sample rng s n_local_trials in
  pot ← match pot with Some p => Ok p | None => Raise TypeError end;
  let rand_vals := map (fun u => (u * pot)%Q) samples in
  cum ← stable_cumsum closest;
  let candidate_ids :=
    map (fun v => Nat.min (searchsorted cum v) (length closest - 1)) rand_vals in
  candidates ← mapM (item X) candidate_ids;
  distance_to_candidates ← seeding_distances batch X candidates backend map_type;
  distance_to_candidates ← np_minimum closest distance_to_candidates;
  let candidates_pot := map Qsum distance_to_candidates in
  best ← argmin_floats candidates_pot;
  current_pot ← item candidates_pot best;
  closest ← item distance_to_candidates best;
  best ← item candidate_ids best;
  Ok (best, map Some closest, Some current_pot, s).

(** The body of [for c in range(1, n_clusters)]. *)
Definition seeding_step {St} (rng : RandomState St) (X : list (list Q))
    (backend : Backend) (map_type initial_center : string) (batch : bool)
    (n_local_trials : nat) (c : nat) (st : seeding St) : result (seeding St) :=
  '(best, closest, pot, s) ←
     best_candidate rng X backend map_type batch n_local_trials
                    (st_closest_distances st) (st_current_pot st) (st_random_state st);
  row ← item X best;
  let centers := <[c := row]> (st_centers st) in
  let indices := <[c := Z.of_nat best]> (st_indices st) in
  if bool_decide (c = 1) && bool_decide (initial_center = "far") then
    center1 ← item centers 1;
    closest ← seeding_distances batch X [center1] backend map_type;
    let closest := concat closest in
    pot ← np_sum closest;
    '(best, closest, pot, s) ←
       best_candidate rng X backend map_type batch n_local_trials closest pot s;
    row ← item X best;
    Ok {| st_centers := <[0 := row]> centers;
          st_indices := <[0 := Z.of_nat best]> indices;
          st_closest_distances := closest; st_current_pot := pot; st_random_state := s |}
  else
    Ok {| st_centers := centers; st_indices := indices;
          st_closest_distances := closest; st_current_pot := pot; st_random_state := s |}.

Fixpoint seeding_loop {St} (rng : RandomState St) (X : list (list Q))
    (backend : Backend) (map_type initial_center : string) (batch : bool)
    (n_local_trials : nat) (remaining c : nat) (st : seeding St) : result (seeding St) :=
  match remaining with
  | 0 => Ok st
  | S remaining =>
      st ← seeding_step rng X backend map_type initial_center batch n_local_trials c st;
      seeding_loop rng X backend map_type initial_center batch n_local_trials
                   remaining (S c) st
  end.

(** [centers] starts as [np.empty] (modelled as zeros: every row is assigned
    before the function returns) and [indices] as [np.full(n_clusters, -1)]. *)
Definition qkmeans_plusplus {St} (rng : RandomState St) (X : list (list Q))
    (n_clusters : nat) (backend : Backend) (map_type initial_center : string)
    (batch : bool) (n_local_trials : option nat) (s : St)
  : result (list (list Q) * list Z) :=
  let n_samples := length X in
  let n_features := shape1 X in
  let centers := replicate n_clusters (replicate n_features 0%Q) in
  n_local_trials ← match n_local_trials with
                   | Some t => Ok t
                   | None => l ← int_log n_clusters; Ok (2 + l)
                   end;
  if n_samples =? 0 then Raise ValueError else
  let '(center_id, s) := randint rng s n_samples in
  let indices := replicate n_clusters (-1)%Z in
  if n_clusters =? 0 then Raise IndexError else
  let indices := <[0 := Z.of_nat center_id]> indices in
  row ← item X center_id;
  let centers := <[0 := row]> centers in
  closest ← seeding_distances batch X [row] backend map_type;
  let closest := concat closest in
  pot ← np_sum closest;
  st ← seeding_loop rng X backend map_type initial_center batch n_local_trials
                    (n_clusters - 1) 1
                    {| st_centers := centers; st_indices := indices;
                       st_closest_distances := closest; st_current_pot := pot;
                       st_random_state := s |};
  Ok (st_centers st, st_indices st).

(** ** Data frames *)

(** A [pandas.DataFrame] with integer row labels and columns 0, 1, ...: its
    rows in order, each with its label. *)
Abbreviation DataFrame := (list (nat * list Q)).

(** [pd.DataFrame(array)]: a fresh [RangeIndex]. *)
Definition to_frame (rows : list (list Q)) : DataFrame :=
  zip (seq 0 (length rows)) rows.

(** [df.to_numpy()], and the rows [df.iterrows()] yields. *)
Definition to_numpy (df : DataFrame) : list (list Q) := df.*2.

(** The sorted distinct values of [labels]. *)
Definition unique (labels : list nat) : list nat :=
  filter (fun l => l ∈ labels) (seq 0 (S (max_list labels))).

(** The mean of every column of a block of rows. *)
Definition column_means (rows : list (list Q)) : list Q :=
  map (fun j => (Qsum (column rows j) / inject_Z (Z.of_nat (length rows)))%Q)
      (seq 0 (shape1 rows)).

(** [X.groupby(labels).mean()]: one row per distinct label, in ascending
    order of the labels, labelled by them. *)
Definition groupby_mean (X : list (list Q)) (labels : list nat) : result DataFrame :=
  if length labels =? length X then
    Ok (map (fun l => (l, column_means (zip X labels ≫= fun p =>
                                         if decide (p.2 = l) then [p.1] else [])))
            (unique labels))
  else Raise ValueError.

(** [df.loc[l]] for a label that occurs once. *)
Definition loc (df : DataFrame) (l : nat) : option (list Q) :=
  match list_find (fun p => p.1 = l) df with
  | Some (_, p) => Some p.2
  | None => None
  end.

(** [a - b] on frames: rows are aligned on their labels and columns on their
    positions; a cell one of the frames lacks is NaN ([None]). *)
Definition frame_sub (a b : DataFrame) : list (nat * list (option Q)) :=
  let labels := unique (a.*1 ++ b.*1) in
  let width := shape1 (a.*2) `max` shape1 (b.*2) in
  map (fun l =>
         (l, match loc a l, loc b l with
             | Some ra, Some rb =>
                 map (fun j => match ra !! j, rb !! j with
                               | Some x, Some y => Some (x - y)%Q
                               | _, _ => None
                               end) (seq 0 width)
             | _, _ => replicate width None
             end)) labels.

(** [d.sum(axis=0)]: the sum of every column, NaN skipped. *)
Definition sum_axis0 (d : list (nat * list (option Q))) : list Q :=
  map (fun j => Qsum (omap (fun row => mjoin (row.2 !! j)) d))
      (seq 0 (shape1 (d.*2))).

(** Line 627: [abs((new_centroids - self.cluster_centers_).sum(axis=0).sum()) < tol]. *)
Definition centroid_shift (new_centroids cluster_centers : DataFrame) : Q :=
  Qabs (Qsum (sum_axis0 (frame_sub new_centroids cluster_centers))).

(** ** [preprocess] (lines 26-51) *)

(** scikit-learn's [scale] and [normalize] and NumPy's [sqrt]. *)
Record Library := {
  sk_scale : list (list Q) -> result (list (list Q));
  sk_normalize : list (list Q) -> result (list (list Q));
  np_sqrt : Q -> Q
}.

Definition np_max (l : list Q) : result Q :=
  match l with
  | [] => Raise ValueError
  | q :: rest => Ok (foldl Qmax q rest)
  end.

(** The division by [max_norm] is the rationals' (0 for a zero divisor, where
    NumPy gives NaN). *)
Definition preprocess (lib : Library) (points : list (list Q)) (map_type : string)
    (norm_relevance : bool) : result (list (list Q)) :=
  if decide (map_type = "angle") then
    p_points ← sk_scale lib points;
    if norm_relevance then
      norms ← mapM (fun row => a ← item row 0; b ← item row 1;
                               Ok (np_sqrt lib (a * a + b * b)%Q)) p_points;
      max_norm ← np_max norms;
      let new_column := map (fun v => (v / max_norm)%Q) norms in
      Ok (zip_with (fun row v => row ++ [v]) p_points new_column)
    else Ok p_points
  else if decide (map_type = "probability") then sk_normalize lib points
  else Raise UnboundLocalError.

(** The norm of one row of line 45, [np.sqrt(p_points[:,0]**2 + p_points[:,1]**2)]. *)
Definition row_norm (lib : Library) (row : list Q) : result Q :=
  a ← item row 0; b ← item row 1; Ok (np_sqrt lib (a * a + b * b)%Q).

(** ** [QuantumKMeans] (lines 557-679) *)

(** [cluster_centers_]: [np.empty(0)] until a fit stores a frame. *)
Inductive centers_attr :=
| Unfitted
| Frame (df : DataFrame).

Record QuantumKMeans := {
  cluster_centers_ : centers_attr;
  labels_ : list nat;
  n_iter_ : nat;
  n_clusters : nat;
  init : string;
  tol : Q;
  max_iter : nat;
  backend : Backend;
  map_type : string;
  norm_relevance : bool;
  initial_center : string
}.

(** [__init__]. *)
Definition QuantumKMeans_init (backend : Backend) (n_clusters : nat) (init : string)
    (tol : Q) (max_iter : nat) (map_type : string) (norm_relevance : bool)
    (initial_center : string) : QuantumKMeans :=
  {| cluster_centers_ := Unfitted; labels_ := []; n_iter_ := 0;
     n_clusters := n_clusters; init := init; tol := tol; max_iter := max_iter;
     backend := backend; map_type := map_type; norm_relevance := norm_relevance;
     initial_center := initial_center |}.

Definition set_cluster_centers_ (self : QuantumKMeans) (c : centers_attr) : QuantumKMeans :=
  {| cluster_centers_ := c; labels_ := labels_ self; n_iter_ := n_iter_ self;
     n_clusters := n_clusters self; init := init self; tol := tol self;
     max_iter := max_iter self; backend := backend self; map_type := map_type self;
     norm_relevance := norm_relevance self; initial_center := initial_center self |}.

Definition set_labels_ (self : QuantumKMeans) (l : list nat) : QuantumKMeans :=
  {| cluster_centers_ := cluster_centers_ self; labels_ := l; n_iter_ := n_iter_ self;
     n_clusters := n_clusters self; init := init self; tol := tol self;
     max_iter := max_iter self; backend := backend self; map_type := map_type self;
     norm_relevance := norm_relevance self; initial_center := initial_center self |}.

Definition set_n_iter_ (self : QuantumKMeans) (n : nat) : QuantumKMeans :=
  {| cluster_centers_ := cluster_centers_ self; labels_ := labels_ self; n_iter_ := n;
     n_clusters := n_clusters self; init := init self; tol := tol self;
     max_iter := max_iter self; backend := backend self; map_type := map_type self;
     norm_relevance := norm_relevance self; initial_center := initial_center self |}.

(** The distance matrix of [fit] and [predict]: [batch_distances(X,
    self.cluster_centers_, ...)] if [batch], else the unbatched comprehension
    over [self.cluster_centers_.iterrows()], which an array does not have. *)
Definition estimator_distances (self : QuantumKMeans) (X : list (list Q)) (batch : bool)
  : result (list (list cell)) :=
  match cluster_centers_ self with
  | Unfitted =>
      if batch then batch_distances X Empty1D (backend self) (map_type self)
      else Raise AttributeError
  | Frame df =>
      if batch then batch_distances X (Rows (to_numpy df)) (backend self) (map_type self)
      else pairwise_distances X (to_numpy df) (backend self)
  end.

(** Lines 622-623: the centroids of the current labels. *)
Definition new_centroids (lib : Library) (self : QuantumKMeans) (X : list (list Q))
  : result DataFrame :=
  if decide (map_type self = "angle") then groupby_mean X (labels_ self)
  else if decide (map_type self = "probability") then
    means ← groupby_mean X (labels_ self);
    to_frame <$> preprocess lib (to_numpy means) (map_type self) false
  else Raise UnboundLocalError.

(** Lines 627-628, with [self.cluster_centers_] an array or a frame. *)
Definition converged (self : QuantumKMeans) (new : DataFrame) : bool :=
  match cluster_centers_ self with
  | Unfitted => Qltb (centroid_shift new []) (tol self)
  | Frame old => Qltb (centroid_shift new old) (tol self)
  end.

(** One pass of the loop body of [fit] (lines 618-632): the estimator as the
    pass leaves it, and [finished], or the exception that ended it.  An
    exception keeps the assignments made before it. *)
Definition fit_iteration (lib : Library) (self : QuantumKMeans) (X : list (list Q))
    (batch : bool) : QuantumKMeans * result bool :=
  match estimator_distances self X batch ≫= nearest with
  | Raise e => (self, Raise e)
  | Ok labels =>
      let self := set_labels_ self labels in
      match new_centroids lib self X with
      | Raise e => (self, Raise e)
      | Ok new =>
          let finished := converged self new in
          let self := set_cluster_centers_ self (Frame new) in
          let self := set_n_iter_ self (n_iter_ self + 1) in
          (self, Ok finished)
      end
  end.

(** [while not finished and iteration < self.max_iter], entered with
    [remaining = max_iter - iteration].  Returns the estimator, the local
    counter [iteration] and how the loop ended. *)
Fixpoint fit_loop (lib : Library) (remaining : nat) (self : QuantumKMeans)
    (X : list (list Q)) (batch : bool) (iteration : nat)
  : QuantumKMeans * nat * result unit :=
  match remaining with
  | 0 => (self, iteration, Ok ())
  | S remaining =>
      match fit_iteration lib self X batch with
      | (self, Raise e) => (self, iteration, Raise e)
      | (self, Ok finished) =>
          if finished then (self, iteration + 1, Ok ())
          else fit_loop lib remaining self X batch (iteration + 1)
      end
  end.

(** Lines 610-615: the initial centres. *)
Definition fit_init {St} (lib : Library) (rng : RandomState St) (self : QuantumKMeans)
    (X : list (list Q)) (batch : bool) (s : St) : QuantumKMeans * result unit :=
  if decide (init self = "qk-means++") then
    match qkmeans_plusplus rng X (n_clusters self) (backend self) (map_type self)
                           (initial_center self) batch None s with
    | Raise e => (self, Raise e)
    | Ok (centers, _) => (set_cluster_centers_ self (Frame (to_frame centers)), Ok ())
    end
  else if decide (init self = "random") then
    if length X <? n_clusters self then (self, Raise ValueError) else
    match mapM (item X) (choice rng s (length X) (n_clusters self)).1 with
    | Raise e => (self, Raise e)
    | Ok rows => (set_cluster_centers_ self (Frame (to_frame rows)), Ok ())
    end
  else (self, Ok ()).

(** [fit] (lines 599-633) with the value of its local counter [iteration]
    when it ends. *)
Definition fit_trace {St} (lib : Library) (rng : RandomState St) (self : QuantumKMeans)
    (X : list (list Q)) (batch : bool) (s : St) : QuantumKMeans * nat * result unit :=
  match preprocess lib X (map_type self) (norm_relevance self) with
  | Raise e => (self, 0, Raise e)
  | Ok X =>
      match fit_init lib rng self X batch s with
      | (self, Raise e) => (self, 0, Raise e)
      | (self, Ok _) => fit_loop lib (max_iter self) self X batch 0
      end
  end.

Definition fit {St} (lib : Library) (rng : RandomState St) (self : QuantumKMeans)
    (X : list (list Q)) (batch : bool) (s : St) : QuantumKMeans * result unit :=
  let '(self, _, r) := fit_trace lib rng self X batch s in (self, r).

(** [predict] (lines 635-655).  [distances] is a local variable: the branch
    that does not assign it leaves it unbound. *)
Definition predict (lib : Library) (self : QuantumKMeans) (X : list (list Q))
    (sample_weight : option (list Q)) (batch : bool) : result (list nat) :=
  X ← preprocess lib X (map_type self) (norm_relevance self);
  distances ←
    match sample_weight with
    | None => Some <$> estimator_distances self X batch
    | Some w =>
        (* X * sample_weight: one weight per column *)
        weight_X ← mapM (fun row => if length row =? length w
                                     then Ok (zip_with Qmult row w)
                                     else Raise ValueError) X;
        if batch then
          _ ← estimator_distances self weight_X batch; Ok None
        else Some <$> estimator_distances self weight_X batch
    end;
  match distances with
  | None => Raise UnboundLocalError
  | Some distances => nearest distances
  end.

(** A sequence of [fit] calls on one estimator, each with its data, its
    [batch] flag and the state the generator is in when the call is made;
    returns the estimator and the value each call's counter [iteration]
    ended with. *)
Fixpoint fit_calls {St} (lib : Library) (rng : RandomState St) (self : QuantumKMeans)
    (calls : list (list (list Q) * bool * St)) : QuantumKMeans * list nat :=
  match calls with
  | [] => (self, [])
  | (X, batch, s) :: calls =>
      let '(self, iteration, _) := fit_trace lib rng self X batch s in
      let '(self, iterations) := fit_calls lib rng self calls in
      (self, iteration :: iterations)
  end.

(** ** [get_params] and [set_params] (lines 657-679) *)

(** The two methods address the attributes of an instance by name, and
    [setattr] takes any name and any value: here an instance is its attribute
    dictionary, over any type [V] of values. *)
Definition getattr {V} (self : gmap string V) (name : string) : result V :=
  match self !! name with Some v => Ok v | None => Raise AttributeError end.

(** The keys of the dictionary [get_params] returns, in its order. *)
Definition parameter_names : list string :=
  ["n_clusters"; "init"; "tol"; "verbose"; "max_iter"; "backend"; "map_type";
   "norm_relevance"; "initial_center"].

(** [get_params]; its argument [deep] is not used. *)
Definition get_params {V} (self : gmap string V) : result (gmap string V) :=
  items ← mapM (fun name => value ← getattr self name; Ok (name, value)) parameter_names;
  Ok (list_to_map items).

(** [for parameter, value in params.items(): setattr(self, parameter, value)];
    the keyword arguments in the order they were given. *)
Definition set_params {V} (self : gmap string V) (params : list (string * V))
  : gmap string V :=
  foldl (fun self item => <[item.1 := item.2]> self) self params.

(** The attributes [__init__] assigns, in its order; [empty] is [np.empty(0)]
    and [zero] is 0. *)
Definition init_attributes {V} (empty zero backend n_clusters init tol max_iter verbose
    map_type norm_relevance initial_center : V) : gmap string V :=
  set_params ∅
    [("cluster_centers_", empty); ("labels_", empty); ("n_iter_", zero);
     ("n_clusters", n_clusters); ("init", init); ("tol", tol); ("verbose", verbose);
     ("max_iter", max_iter); ("backend", backend); ("map_type", map_type);
     ("norm_relevance", norm_relevance); ("initial_center", initial_center)].

(** The nine parameters are attributes of the instance. *)
Definition has_parameters {V} (self : gmap string V) : Prop :=
  forall name, name ∈ parameter_names -> is_Some (self !! name).

(** ** Notions used in the statements *)

(** The number of centroid rows an estimator holds. *)
Definition n_centers (self : QuantumKMeans) : nat :=
  match cluster_centers_ self with
  | Unfitted => 0
  | Frame df => length df
  end.

(** The bitstring of [n_bits] bits that is all zeros but for a trailing one. *)
Definition divergent_bitstring (n_bits : nat) : string :=
  zeros_string (n_bits - 1) +:+ "1".

(** The elementwise differences [new - old] that are not NaN, row by row. *)
Definition elementwise_differences (new old : DataFrame) : list Q :=
  frame_sub new old ≫= fun row => omap id row.2.

(** scikit-learn's [normalize] returns as many rows as it is given. *)
Definition normalize_keeps_rows (lib : Library) : Prop :=
  forall M M', sk_normalize lib M = Ok M' -> length M' = length M.

(** The value of a cell of a row of a difference frame, NaN counting as 0. *)
Definition cell_value (row : list (option Q)) (j : nat) : Q :=
  default 0%Q (mjoin (row !! j)).

(** The first [c] seeds are rows of [X], each stored with its row index. *)
Definition seeded_upto (X : list (list Q)) (c : nat) (centers : list (list Q))
    (indices : list Z) : Prop :=
  forall j, j < c ->
    exists (i : nat) row,
      indices !! j = Some (Z.of_nat i) /\ centers !! j = Some row /\ X !! i = Some row.

(** [k] is the least number of qubits that hold [f] amplitudes:
    [ceil(log2(f))]. *)
Definition is_ceil_log2 (f k : nat) : Prop :=
  f <= 2 ^ k /\ (k = 0 \/ 2 ^ (k - 1) < f).

(** A vector extended with zeros to [2^k] entries. *)
Definition padded (k : nat) (v : list Q) : list Q :=
  v ++ replicate (2 ^ k - length v) 0%Q.

(** The distance the unbatched estimator measures between a centroid and a
    point (0.0 where it measures none). *)
Definition measured (backend : Backend) (centroid point : list Q) : Q :=
  match distance point centroid backend "angle" false with
  | Ok (Some d) => d
  | _ => 0%Q
  end.

(** What the two decodings make of a histogram. *)
Definition decodes_by_outcome_count (counts : gmap string N) (d : Q) : Prop :=
  (size counts = 1 -> d = 0%Q) /\
  (size counts <> 1 -> exists c, counts !! "001" = Some c /\ d = (Z.of_N c # 1024)%Q).

Definition decodes_by_membership (key : string) (counts : gmap string N) (d : Q) : Prop :=
  (forall c, counts !! key = Some c -> d = (Z.of_N c # 1024)%Q) /\
  (counts !! key = None -> d = 0%Q).

(** A histogram the 'angle' decoding has no value for: it has more than one
    outcome (or none), and '001' is not among them. *)
Definition lacks_outcome (counts : gmap string N) : Prop :=
  size counts <> 1 /\ counts !! "001" = None.

(** Every job of the backend on a circuit with classical bits yields an
    outcome, and its outcomes are bitstrings with one character per classical
    bit of the circuit. *)
Definition bitstring_outcomes (backend : Backend) : Prop :=
  forall qc,
    0 < num_clbits qc ->
    get_counts backend qc shots <> ∅ /\
    forall outcome c,
      get_counts backend qc shots !! outcome = Some c ->
      String.length outcome = num_clbits qc.



(** The points of [X] that carry the label [l]. *)
Definition assigned (X : list (list Q)) (labels : list nat) (l : nat) : list (list Q) :=
  (filter (fun p => p.2 = l) (zip X labels)).*1.

(** [m] is the mean of coordinate [j] of the points. *)
Definition mean_of (points : list (list Q)) (j : nat) (m : Q) : Prop :=
  (m * inject_Z (Z.of_nat (length points))
   == Qsum (map (fun p => default 0 (p !! j)) points))%Q.

(** A frame of per-label means of points with [w] coordinates: one row per
    distinct label, in ascending order of the labels, each row the mean,
    coordinate by coordinate, of the points that carry its label. *)
Definition per_label_means (X : list (list Q)) (labels : list nat) (w : nat)
    (df : DataFrame) : Prop :=
  StronglySorted lt (df.*1) /\
  (forall l, l ∈ df.*1 <-> l ∈ labels) /\
  forall l row, (l, row) ∈ df ->
    assigned X labels l <> [] /\ length row = w /\
    forall j m, row !! j = Some m -> mean_of (assigned X labels l) j m.

(** [distances[j][i]], if there is such a cell. *)
Definition cell_at (distances : list (list cell)) (j i : nat) : option cell :=
  distances !! j ≫= fun row => row !! i.

(** [permutation(n)] returns the numbers below [n] in some order. *)
Definition permutes {St} (rng : RandomState St) : Prop :=
  forall s n, (permutation rng s n).1 ≡ₚ seq 0 n.

(** The number of shots a histogram accounts for. *)
Definition total_counts (counts : gmap string N) : N :=
  foldr N.add 0%N (map_to_list counts).*2.

(** Every histogram of the backend accounts for the 1024 shots of the job. *)
Definition conserves_shots (backend : Backend) : Prop :=
  forall qc, total_counts (get_counts backend qc shots) = shots.

Definition unit_interval (d : Q) : Prop := (0 <= d)%Q /\ (d <= 1)%Q.

(** A cell that holds a float holds one between 0 and 1. *)
Definition unit_cell (c : cell) : Prop := forall d, c = Some d -> unit_interval d.

(** Two frames with the same row labels and equal numbers in every cell. *)
Definition same_frame (a b : DataFrame) : Prop :=
  Forall2 (fun r1 r2 => r1.1 = r2.1 /\ Forall2 Qeq r1.2 r2.2) a b.

(** ** Sample collaborators and data for the examples *)

(** The first two amplitudes or the phase operands of the two encoded vectors. *)
Definition encoded_operands (qc : QuantumCircuit) : list (Q * Q) :=
  omap (fun i => match i with
                 | gate_u3 (A_phase re im) _ _ _ => Some (re, im)
                 | gate_initialize (a :: b :: _) _ => Some (a, b)
                 | _ => None
                 end) (data qc).

(** A simulated backend: the control qubit reads 1 in a number of shots that
    grows with the cross product of the two operands (never for parallel
    operands, never in more than half of 1024 shots). *)
Definition simulated_counts (qc : QuantumCircuit) (shots : N) : gmap string N :=
  let ones := match encoded_operands qc with
              | [(a, b); (c, d)] =>
                  Z.to_N (Z.abs (Qnum (Qred (a * d - b * c))) mod 513)
              | _ => 0%N
              end in
  if (ones =? 0)%N then {[ zeros_string (num_clbits qc) := shots ]}
  else <[ divergent_bitstring (num_clbits qc) := ones ]>
         {[ zeros_string (num_clbits qc) := (shots - ones)%N ]}.

Definition simulator (max_experiments : nat) : Backend :=
  {| get_counts := simulated_counts; max_experiments := max_experiments |}.

(** A device whose control qubit reads 1 in every shot. *)
Definition stuck_device (max_experiments : nat) : Backend :=
  {| get_counts := fun qc shots => {[ divergent_bitstring (num_clbits qc) := shots ]};
     max_experiments := max_experiments |}.

(** A device whose histograms lack the outcome '001': the data bits read 1
    in every shot. *)
Definition wide_device (max_experiments : nat) : Backend :=
  {| get_counts := fun qc shots => {[ "110" := 512%N; "111" := 512%N ]};
     max_experiments := max_experiments |}.

(** A linear congruential generator standing for a seeded [RandomState]. *)
Definition lcg_next (s : N) : N := ((1103515245 * s + 12345) mod 2147483648)%N.

Fixpoint lcg_samples (s : N) (size : nat) : list Q * N :=
  match size with
  | 0 => ([], s)
  | S size =>
      let s := lcg_next s in
      let '(rest, s') := lcg_samples s size in
      ((Z.of_N (s / 2097152) # 1024)%Q :: rest, s')
  end.

Definition lcg : RandomState N :=
  {| randint := fun s n => let s := lcg_next s in
                           (N.to_nat ((s / 65536) mod N.of_nat n), s);
     random_sample := lcg_samples;
     permutation := fun s n =>
                      let s := lcg_next s in
                      let k := N.to_nat ((s / 65536) mod N.of_nat n) in
                      (drop k (seq 0 n) ++ take k (seq 0 n), s) |}.

(** A rational square root: the integer square roots of the numerator and the
    denominator, exact on squares of rationals and rounded down elsewhere. *)
Definition q_sqrt (q : Q) : Q := (Z.sqrt (Qnum q) # Pos.sqrt (Qden q))%Q.

Definition unit_or (q : Q) : Q := if Qeq_bool q 0 then 1%Q else q.

(** [normalize] and [scale] over the rationals, with [q_sqrt] for the norms
    and deviations; like scikit-learn they refuse an empty array and leave a
    zero norm or deviation alone.  Their values are scikit-learn's where the
    norms and deviations are rational; they serve the examples only, the
    theorems hold of every [Library]. *)
Definition q_normalize (X : list (list Q)) : result (list (list Q)) :=
  if length X =? 0 then Raise ValueError else
  Ok (map (fun row =>
             let norm := unit_or (q_sqrt (Qred (Qsum (map (fun v => v * v)%Q row)))) in
             map (fun v => Qred (v / norm)) row) X).

Definition q_scale (X : list (list Q)) : result (list (list Q)) :=
  if length X =? 0 then Raise ValueError else
  let n := inject_Z (Z.of_nat (length X)) in
  let stats := map (fun j =>
                      let col := column X j in
                      let mean := Qred (Qsum col / n) in
                      let var := Qred (Qsum (map (fun v => (v - mean) * (v - mean))%Q col) / n) in
                      (mean, unit_or (q_sqrt var)))
                   (seq 0 (shape1 X)) in
  Ok (map (fun row => zip_with (fun v st => Qred ((v - st.1) / st.2)) row stats) X).

Definition rational_library : Library :=
  {| sk_scale := q_scale; sk_normalize := q_normalize; np_sqrt := q_sqrt |}.

(** Four points in two features, and two and three of them as centres. *)
Definition four_points : list (list Q) := [[1; 2]; [3; 4]; [5; 6]; [7; 8]]%Q.
Definition two_centers : list (list Q) := [[1; 2]; [5; 6]]%Q.
Definition three_centers : list (list Q) := [[1; 2]; [5; 6]; [7; 8]]%Q.

(** Three points at the origin. *)
Definition coinciding_points : list (list Q) := [[0; 0]; [0; 0]; [0; 0]]%Q.

(** Points with three and four features. *)
Definition points3 : list (list Q) := [[3; 4; 1 # 2]; [4; 3; 1]]%Q.
Definition center3 : list Q := [1; 0; 1 # 4]%Q.
Definition points4 : list (list Q) := [[1; 2; 3; 4]; [4; 3; 2; 1]]%Q.
Definition center4 : list Q := [1; 1; 1; 1]%Q.

(** Unit vectors with five features. *)
Definition points5 : list (list Q) :=
  [[3 # 5; 4 # 5; 0; 0; 0]; [0; 0; 5 # 13; 0; 12 # 13]]%Q.
Definition center5 : list Q := [0; 0; 0; 0; 1]%Q.

(** [four_points] as [q_scale] leaves them, and an estimator whose two
    centres are the outermost of them. *)
Definition scaled_points : list (list Q) :=
  [[-3 # 2; -3 # 2]; [-1 # 2; -1 # 2]; [1 # 2; 1 # 2]; [3 # 2; 3 # 2]]%Q.

(** The centroids of [four_points] split in halves. *)
Definition half_means : DataFrame := [(0, [2; 3]%Q); (1, [6; 7]%Q)].

(** Unit vectors in two features. *)
Definition unit_points : list (list Q) :=
  [[3 # 5; 4 # 5]; [4 # 5; 3 # 5]; [1; 0]; [0; 1]]%Q.

(** Estimators on the simulator. *)
Definition angle_estimator : QuantumKMeans :=
  QuantumKMeans_init (simulator 2) 2 "qk-means++" (1 # 10000) 300 "angle" false "random".

Definition probability_estimator : QuantumKMeans :=
  QuantumKMeans_init (simulator 2) 2 "qk-means++" (1 # 10000) 300 "probability" false "random".

(** Estimators holding two centres. *)
Definition fitted_estimator : QuantumKMeans :=
  set_cluster_centers_ angle_estimator (Frame (to_frame two_centers)).

Definition scaled_estimator : QuantumKMeans :=
  set_cluster_centers_ angle_estimator
    (Frame (to_frame [[-3 # 2; -3 # 2]; [3 # 2; 3 # 2]]%Q)).

(** An estimator whose two centres have merged into the centre of
    [scaled_points]. *)
Definition merged_estimator : QuantumKMeans :=
  set_cluster_centers_ angle_estimator (Frame [(0, [0; 0]%Q)]).



(** Estimators with an [init] and a [map_type] the code has no case for, and
    with three clusters. *)
Definition unseeded_estimator : QuantumKMeans :=
  QuantumKMeans_init (simulator 2) 2 "k-means++" (1 # 10000) 300 "angle" false "random".

Definition amplitude_estimator : QuantumKMeans :=
  QuantumKMeans_init (simulator 2) 2 "qk-means++" (1 # 10000) 300 "amplitude" false "random".

Definition three_cluster_estimator : QuantumKMeans :=
  QuantumKMeans_init (simulator 2) 3 "qk-means++" (1 # 10000) 300 "angle" false "random".

(** An estimator with [norm_relevance] that holds two centres of three
    features. *)
Definition norm_estimator : QuantumKMeans :=
  set_cluster_centers_
    (QuantumKMeans_init (simulator 2) 2 "qk-means++" (1 # 10000) 300 "angle" true "random")
    (Frame (to_frame [[1; 2; 1]; [5; 6; 1]]%Q)).

(** The seeder on [four_points] after its first centre, row 0. *)
Definition seeded_first : seeding N :=
  {| st_centers := [[1; 2]; [0; 0]]%Q;
     st_indices := [0; -1]%Z;
     st_closest_distances := [Some 0; Some (2 # 1024); Some (4 # 1024); Some (6 # 1024)]%Q;
     st_current_pot := Some (12 # 1024)%Q;
     st_random_state := 42%N |}.

(* ===================================================================== *)
(** * Part II: properties *)
(* ===================================================================== *)

(** ** Results *)

(** Decides [decodes_by_outcome_count] on a histogram that computes. *)
Ltac by_count :=
  split;
  [ first [ intros _; reflexivity | intros Hs; vm_compute in Hs; discriminate ]
  | first [ intros _; eexists; split; reflexivity
          | intros Hs; exfalso; apply Hs; vm_compute; reflexivity ] ].

Lemma bind_Ok {A B} (m : result A) (k : A -> result B) (b : B) :
  m ≫= k = Ok b <-> exists a, m = Ok a /\ k a = Ok b.
Proof.
  destruct m as [a|e]; simpl; split.
  - eauto.
  - by intros (a' & [= <-] & Hk).
  - done.
  - by intros (a' & [=] & _).
Qed.

Lemma fmap_Ok {A B} (f : A -> B) (m : result A) (b : B) :
  f <$> m = Ok b <-> exists a, m = Ok a /\ b = f a.
Proof.
  destruct m as [a|e]; simpl; split.
  - intros [= <-]. eauto.
  - by intros (a' & [= <-] & ->).
  - done.
  - by intros (a' & [=] & _).
Qed.

Lemma bind_raises {A B} (m : result A) (k : A -> result B) :
  raises m -> raises (m ≫= k).
Proof. intros [e ->]. by exists e. Qed.

Lemma bind_raises_all {A B} (m : result A) (k : A -> result B) :
  (forall a, raises (k a)) -> raises (m ≫= k).
Proof. intros Hk. destruct m as [a|e]; simpl; [apply Hk | by exists e]. Qed.

Lemma raises_not_Ok {A} (m : result A) (a : A) : raises m -> m <> Ok a.
Proof. by intros [e ->]. Qed.

Lemma mapM_Ok_Forall2 {A B} (f : A -> result B) (l : list A) (l' : list B) :
  mapM f l = Ok l' <-> Forall2 (fun x y => f x = Ok y) l l'.
Proof.
  revert l'. induction l as [|x l IH]; intros l'; simpl.
  - split; [intros [= <-]; constructor | by inversion 1].
  - split.
    + intros (y & Hy & (k & Hk & [= <-])%bind_Ok)%bind_Ok.
      constructor; [done | by apply IH].
    + inversion 1 as [|? y ? k Hy Hk]; subst.
      rewrite Hy. simpl. apply IH in Hk. by rewrite Hk.
Qed.

Lemma bind_Ok_l {A B} (a : A) (k : A -> result B) : Ok a ≫= k = k a.
Proof. done. Qed.

Lemma mapM_cons {A B} (f : A -> result B) (x : A) (l : list A) :
  mapM f (x :: l) = f x ≫= fun y => mapM f l ≫= fun k => mret (y :: k).
Proof. done. Qed.

Lemma mapM_Ok_length {A B} (f : A -> result B) (l : list A) (l' : list B) :
  mapM f l = Ok l' -> length l' = length l.
Proof. intros H%mapM_Ok_Forall2. symmetry. by eapply Forall2_length. Qed.

Lemma mapM_total {A B} (f : A -> result B) (g : A -> B) (l : list A) :
  (forall x, x ∈ l -> f x = Ok (g x)) -> mapM f l = Ok (map g l).
Proof.
  intros H. apply mapM_Ok_Forall2. induction l as [|x l IH]; simpl; constructor.
  - apply H. by left.
  - apply IH. intros y Hy. apply H. by right.
Qed.

Lemma mapM_raises {A B} (f : A -> result B) (l : list A) (x : A) :
  x ∈ l -> raises (f x) -> raises (mapM f l).
Proof.
  induction l as [|y l IH]; [by intros ?%elem_of_nil|].
  intros [->|Hx]%elem_of_cons Hf; simpl.
  - by apply bind_raises.
  - destruct (f y); simpl; [|by eexists].
    apply bind_raises. by apply IH.
Qed.

Lemma mapM_map {A B C} (f : B -> result C) (g : A -> B) (l : list A) :
  mapM f (map g l) = mapM (fun x => f (g x)) l.
Proof. induction l as [|x l IH]; simpl; [done | by rewrite IH]. Qed.

Lemma mapM_ext_in {A B} (f g : A -> result B) (l : list A) :
  (forall x, x ∈ l -> f x = g x) -> mapM f l = mapM g l.
Proof.
  induction l as [|x l IH]; simpl; intros H; [done|].
  rewrite H by (by left). rewrite IH; [done|].
  intros y Hy. apply H. by right.
Qed.

Lemma mapM_Ok_Forall {A B} (f : A -> result B) (P : B -> Prop) (l : list A) (l' : list B) :
  mapM f l = Ok l' -> (forall x y, f x = Ok y -> P y) -> Forall P l'.
Proof.
  intros H%mapM_Ok_Forall2 HP.
  induction H as [|x y l l' Hxy _ IH]; constructor; eauto.
Qed.

Lemma item_Ok {A} (v : list A) (i : nat) (a : A) : item v i = Ok a <-> v !! i = Some a.
Proof. unfold item. destruct (v !! i); split; congruence. Qed.

Lemma item_take {A} (v : list A) (n i : nat) : i < n -> item (take n v) i = item v i.
Proof. intros Hi. unfold item. by rewrite lookup_take_lt. Qed.

(** ** The circuits of the encoder *)

Lemma batch_angle_circuit_take (x y : list Q) :
  batch_angle_circuit (take 2 x) (take 2 y) = batch_angle_circuit x y.
Proof. unfold batch_angle_circuit. by rewrite !item_take by lia. Qed.

Lemma shape1_take2 (chunk : list (list Q)) :
  2 <= shape1 chunk -> shape1 (map (take 2) chunk) = 2.
Proof.
  destruct chunk as [|row chunk]; simpl; [lia|].
  intros H. rewrite length_take. lia.
Qed.

(** C3: under 'probability', [distance] raises before it builds a circuit,
    and [batch_distance] has no case for three features: it builds nothing,
    executes nothing and returns [None]. *)
Theorem probability_three_features_unhandled :
  (forall x y backend norm_relevance,
     distance x y backend "probability" norm_relevance = Raise TypeError) /\
  (forall a b c chunk y backend,
     batch_circuits ([a; b; c] :: chunk, y) "probability" = Ok None /\
     batch_distance ([a; b; c] :: chunk, y) backend "probability" = Ok None) /\
  batch_distance (points3, center3) (simulator 2) "probability" = Ok None.
Proof. by repeat split. Qed.

(** C4: with three features and [norm_relevance], [distance] applies both
    magnitude rotations (angles [x[2]*pi] and [y[2]*pi]) to qubit 1 and none
    to qubit 2; [batch_distance] applies them (with [pi/2]) to qubits 1 and 2. *)
Theorem norm_relevance_rotations (x0 x1 x2 y0 y1 y2 : Q) :
  (exists qc,
     distance_circuit [x0; x1; x2] [y0; y1; y2] "angle" true = Ok (Some qc) /\
     gate_u3 (A_mul_pi x2) A_zero A_zero 1 ∈ data qc /\
     gate_u3 (A_mul_pi y2) A_zero A_zero 1 ∈ data qc /\
     forall ro, gate_u3 ro A_zero A_zero 2 ∉ data qc) /\
  (exists qc,
     batch_circuits ([[x0; x1; x2]], [y0; y1; y2]) "angle"
       = Ok (Some ([qc], by_outcome_count)) /\
     gate_u3 (A_mul_pi_half x2) A_zero A_zero 1 ∈ data qc /\
     gate_u3 (A_mul_pi_half y2) A_zero A_zero 2 ∈ data qc).
Proof.
  split; eexists; (split; [reflexivity|]); simpl.
  - repeat split; [set_solver.. |].
    intros ro H.
    repeat (apply elem_of_cons in H as [H|H]; [discriminate H|]).
    by apply elem_of_nil in H.
  - split; set_solver.
Qed.

Lemma Forall2_Forall_impl {A B} (P : A -> Prop) (R R' : A -> B -> Prop)
    (l : list A) (l' : list B) :
  Forall P l -> Forall2 R l l' -> (forall x y, P x -> R x y -> R' x y) ->
  Forall2 R' l l'.
Proof.
  intros HP HR Himpl. induction HR as [|x y l l' Hxy _ IH]; [constructor|].
  apply Forall_cons in HP as [Hx HP]. constructor; eauto.
Qed.

Lemma Forall2_map_Forall {A B} (P : A -> Prop) (R : A -> B -> Prop) (g : A -> B)
    (l : list A) :
  Forall P l -> (forall x, P x -> R x (g x)) -> Forall2 R l (map g l).
Proof. induction 1; simpl; constructor; eauto. Qed.

Lemma seq_shift_by (k start : nat) :
  map (fun i => i + start) (seq 0 k) = seq start k.
Proof.
  trans (Nat.add start <$> seq 0 k).
  - apply map_ext. intros i. lia.
  - rewrite fmap_add_seq. f_equal. lia.
Qed.

Lemma initialize_Ok (params : list Q) (qubits : list nat) (i : instruction) :
  initialize params qubits = Ok i -> i = gate_initialize params qubits.
Proof. unfold initialize. case_match; [|done]. by intros [= <-]. Qed.

Lemma batch_probability2_circuit_Ok (x y : list Q) (qc : QuantumCircuit) :
  batch_probability2_circuit x y = Ok qc ->
  qc = {| num_qubits := 3; num_clbits := 3;
          data := [gate_initialize x [1]; gate_initialize y [2];
                   gate_h 0; gate_cswap 0 1 2; gate_h 0;
                   gate_measure 0 0; gate_reset [0; 1; 2]] |}.
Proof.
  unfold batch_probability2_circuit.
  by intros (ix & ->%initialize_Ok & (iy & ->%initialize_Ok & [= <-])%bind_Ok)%bind_Ok.
Qed.

Lemma batch_probability_circuit_Ok (qubits : nat) (x y : list Q) (qc : QuantumCircuit) :
  batch_probability_circuit qubits x y = Ok qc ->
  qc = {| num_qubits := qubits * 2 + 1; num_clbits := qubits * 2 + 1;
          data := [gate_initialize x (seq 1 qubits);
                   gate_initialize y (seq (qubits + 1) qubits);
                   gate_h 0; gate_cswap 0 1 (qubits + 1); gate_h 0;
                   gate_measure 0 0; gate_reset (seq 0 (qubits * 2 + 1))] |}.
Proof.
  unfold batch_probability_circuit, qr_item.
  intros (ix & ->%initialize_Ok & (iy & ->%initialize_Ok & H)%bind_Ok)%bind_Ok.
  apply bind_Ok in H as (q0 & Hq0 & (q1 & Hq1 & (q2 & Hq2 & [= <-])%bind_Ok)%bind_Ok).
  repeat case_match; simplify_eq.
  rewrite <-(seq_shift_by qubits 1).
  rewrite <-(seq_shift_by qubits (qubits + 1)).
  do 3 f_equal. f_equal. apply map_ext. intros i. lia.
Qed.

Lemma ceil_log2_power (f : nat) :
  2 <= f -> is_power_of_two f = true -> is_ceil_log2 f (Nat.log2 f).
Proof.
  unfold is_power_of_two, is_ceil_log2. intros Hf [_ Hp%Nat.eqb_eq]%andb_true_iff.
  split; [lia|]. right.
  destruct (Nat.log2 f) as [|k] eqn:Hk; [simpl in Hp; lia|].
  rewrite <-Hp. simpl. rewrite Nat.sub_0_r.
  pose proof (Nat.pow_nonzero 2 k). lia.
Qed.

Lemma ceil_log2_other (f : nat) :
  2 <= f -> is_power_of_two f = false -> is_ceil_log2 f (Nat.log2 f + 1).
Proof.
  unfold is_power_of_two, is_ceil_log2. intros Hf Hp.
  pose proof (Nat.log2_spec f) as [Hlo Hhi]; [lia|].
  replace (Nat.log2 f + 1) with (S (Nat.log2 f)) by lia.
  split; [lia|]. right. simpl. rewrite Nat.sub_0_r.
  apply andb_false_iff in Hp as [Hp|Hp%Nat.eqb_neq].
  - apply negb_false_iff, Nat.eqb_eq in Hp. lia.
  - lia.
Qed.

(** The 'probability' circuits [batch_distance] does build: for a feature
    count [f >= 2] that it has a case for (any but 3), every circuit has [k]
    qubits per operand and one control qubit, [k = ceil(log2(f))], and
    initializes the two blocks of [k] qubits to the point and the centre,
    each extended with zeros to [2^k] amplitudes. *)
Theorem probability_circuit_shape chunk y qcs rule :
  2 <= shape1 chunk ->
  Forall (fun point => length point = shape1 chunk) chunk ->
  length y = shape1 chunk ->
  batch_circuits (chunk, y) "probability" = Ok (Some (qcs, rule)) ->
  exists k,
    is_ceil_log2 (shape1 chunk) k /\
    Forall2 (fun point qc =>
               num_qubits qc = 2 * k + 1 /\
               gate_initialize (padded k point) (seq 1 k) ∈ data qc /\
               gate_initialize (padded k y) (seq (k + 1) k) ∈ data qc /\
               gate_cswap 0 1 (k + 1) ∈ data qc /\
               gate_measure 0 0 ∈ data qc)
            chunk qcs.
Proof.
  intros Hf Hchunk Hy. unfold batch_circuits. simpl.
  destruct (decide (shape1 chunk = 2)) as [H2|H2].
  { intros (l & Hl%mapM_Ok_Forall2 & [= <- _])%bind_Ok.
    exists 1. split; [unfold is_ceil_log2; simpl; lia|].
    eapply Forall2_Forall_impl; [exact Hchunk | exact Hl|].
    intros point qc Hp ->%batch_probability2_circuit_Ok.
    unfold padded. rewrite Hp, Hy, H2. simpl.
    rewrite !app_nil_r. repeat split; set_solver. }
  destruct (decide (shape1 chunk = 3)); [done|].
  destruct (is_power_of_two (shape1 chunk)) eqn:Hpow.
  - intros (l & Hl%mapM_Ok_Forall2 & [= <- _])%bind_Ok.
    exists (Nat.log2 (shape1 chunk)). split; [by apply ceil_log2_power|].
    eapply Forall2_Forall_impl; [exact Hchunk | exact Hl|].
    intros point qc Hp ->%batch_probability_circuit_Ok. simpl.
    assert (2 ^ Nat.log2 (shape1 chunk) = shape1 chunk) as Hpw.
    { by apply andb_true_iff in Hpow as [_ ?%Nat.eqb_eq]. }
    unfold padded. rewrite Hp, Hy, Hpw, Nat.sub_diag. simpl. rewrite !app_nil_r.
    repeat split; [lia | set_solver..].
  - replace (shape1 chunk =? 0) with false by (symmetry; apply Nat.eqb_neq; lia).
    simpl.
    intros (l & Hl%mapM_Ok_Forall2 & [= <- _])%bind_Ok.
    exists (Nat.log2 (shape1 chunk) + 1). split; [by apply ceil_log2_other|].
    eapply Forall2_Forall_impl; [exact Hchunk | exact Hl|].
    intros point qc Hp Hqc. simpl in Hqc.
    apply bind_Ok in Hqc as (x' & Hx & (y' & Hy' & ->%batch_probability_circuit_Ok)%bind_Ok).
    unfold zero_pad in Hx, Hy'. repeat case_match; simplify_eq. simpl.
    repeat split; [lia | set_solver..].
Qed.

Lemma probability_circuit_shape_witness :
  exists k,
    is_ceil_log2 (shape1 points5) k /\
    Forall2 (fun point qc =>
               num_qubits qc = 2 * k + 1 /\
               gate_initialize (padded k point) (seq 1 k) ∈ data qc /\
               gate_initialize (padded k center5) (seq (k + 1) k) ∈ data qc /\
               gate_cswap 0 1 (k + 1) ∈ data qc /\
               gate_measure 0 0 ∈ data qc)
            points5
            (match batch_circuits (points5, center5) "probability" with
             | Ok (Some (qcs, _)) => qcs
             | _ => []
             end).
Proof.
  apply (probability_circuit_shape points5 center5 _
           (by_membership (divergent_key 3))).
  - simpl. lia.
  - repeat constructor.
  - reflexivity.
  - reflexivity.
Defined.

(** ** Unsupported encodings *)

Lemma batch_distance_angle_first_two (chunk : list (list Q)) (y : list Q) (backend : Backend) :
  3 < shape1 chunk ->
  batch_distance (chunk, y) backend "angle"
  = batch_distance (map (take 2) chunk, take 2 y) backend "angle".
Proof.
  intros Hf. unfold batch_distance, batch_circuits. simpl fst; simpl snd.
  rewrite shape1_take2 by lia.
  assert (mapM (fun point => batch_angle_circuit point (take 2 y)) (map (take 2) chunk)
          = mapM (fun point => batch_angle_circuit point y) chunk) as ->.
  { rewrite mapM_map. apply mapM_ext_in. intros x _. apply batch_angle_circuit_take. }
  destruct (decide (shape1 chunk = 2)); [lia|].
  destruct (decide (shape1 chunk = 3)); [lia|].
  by destruct (is_power_of_two (shape1 chunk)).
Qed.

(** C8, as the code has it: for 'angle' with a feature count other than 2
    (and other than 3 with [norm_relevance]) [distance] builds no circuit and
    returns [None] without raising; [batch_distance] on more than three
    features computes its distances from the first two features alone. *)
Theorem unsupported_angle_returns_none :
  (forall x y backend norm_relevance,
     length x <> 2 -> (length x = 3 -> norm_relevance = false) ->
     distance_circuit x y "angle" norm_relevance = Ok None /\
     distance x y backend "angle" norm_relevance = Ok None) /\
  (forall chunk y backend,
     3 < shape1 chunk ->
     batch_distance (chunk, y) backend "angle"
     = batch_distance (map (take 2) chunk, take 2 y) backend "angle").
Proof.
  split; [|apply batch_distance_angle_first_two].
  intros x y backend norm_relevance H2 H3.
  assert (distance_circuit x y "angle" norm_relevance = Ok None) as Hqc.
  { unfold distance_circuit. simpl.
    destruct (decide (length x = 2)); [done|].
    case_bool_decide as Hl; simpl; [|done].
    by rewrite (H3 Hl). }
  split; [done|]. unfold distance. by rewrite Hqc.
Qed.

Lemma unsupported_angle_returns_none_witness :
  distance [1; 2; 3; 4]%Q center4 (simulator 2) "angle" false = Ok None /\
  batch_distance (points4, center4) (simulator 2) "angle"
  = batch_distance (map (take 2) points4, take 2 center4) (simulator 2) "angle".
Proof.
  split.
  - apply (proj1 unsupported_angle_returns_none); simpl; [lia | done].
  - apply (proj2 unsupported_angle_returns_none). simpl. lia.
Defined.

(** C8, as the specification words it, fails: on four features under 'angle' nothing
    is raised; [distance] returns [None] and [batch_distance] returns values. *)
Lemma four_features_no_error :
  distance [1; 2; 3; 4]%Q center4 (simulator 2) "angle" false = Ok None /\
  ~ raises (distance [1; 2; 3; 4]%Q center4 (simulator 2) "angle" false) /\
  batch_distance (points4, center4) (simulator 2) "angle"
  = Ok (Some [(1 # 1024)%Q; (1 # 1024)%Q]).
Proof. repeat split. by intros [e [=]]. Qed.

(** ** Decoding the histograms *)

Lemma counts_to_distance_spec (counts : gmap string N) (d : Q) :
  counts_to_distance counts = Ok d <-> decodes_by_outcome_count counts d.
Proof.
  unfold counts_to_distance, decodes_by_outcome_count.
  destruct (decide (size counts = 1)) as [Hs|Hs]; split.
  - intros [= <-]. by split.
  - intros [H1 _]. by rewrite (H1 Hs).
  - destruct (counts !! "001") as [c|] eqn:Hc; [|done].
    intros [= <-]. split; [done|]. eauto.
  - intros [_ H2]. by destruct (H2 Hs) as (c & -> & ->).
Qed.

Lemma counts_to_distance_raises (counts : gmap string N) (e : exn) :
  counts_to_distance counts = Raise e -> e = KeyError /\ lacks_outcome counts.
Proof.
  unfold counts_to_distance, lacks_outcome. case_decide; [done|].
  destruct (counts !! "001"); [done|]. by intros [= <-].
Qed.

Lemma counts_to_distance_missing (counts : gmap string N) :
  lacks_outcome counts -> counts_to_distance counts = Raise KeyError.
Proof.
  intros [Hs Hk]. unfold counts_to_distance. rewrite decide_False by done.
  by rewrite Hk.
Qed.

Lemma contained_to_distance_spec (key : string) (counts : gmap string N) (d : Q) :
  contained_to_distance key counts = d <-> decodes_by_membership key counts d.
Proof.
  unfold decodes_by_membership, contained_to_distance.
  destruct (counts !! key) as [c|]; split.
  - intros <-. split; congruence.
  - intros [H1 _]. by rewrite (H1 c).
  - intros <-. split; congruence.
  - intros [_ H2]. by rewrite H2.
Qed.

Lemma zeros_string_add (a b : nat) :
  zeros_string (a + b) = zeros_string a +:+ zeros_string b.
Proof. induction a as [|a IH]; simpl; [done | by rewrite IH]. Qed.

Lemma divergent_key_bitstring (qubits : nat) :
  divergent_key qubits = divergent_bitstring (qubits * 2 + 1).
Proof.
  unfold divergent_key, divergent_bitstring.
  replace (qubits * 2 + 1 - 1) with (qubits + qubits) by lia.
  by rewrite zeros_string_add.
Qed.

Lemma batch_probability_circuit_clbits (qubits : nat) (x y : list Q) (qc : QuantumCircuit) :
  batch_probability_circuit qubits x y = Ok qc ->
  num_qubits qc = qubits * 2 + 1 /\ num_clbits qc = qubits * 2 + 1.
Proof.
  unfold batch_probability_circuit.
  intros (ix & _ & (iy & _ & H)%bind_Ok)%bind_Ok.
  apply bind_Ok in H as (q0 & _ & (q1 & _ & (q2 & _ & [= <-])%bind_Ok)%bind_Ok).
  done.
Qed.

Lemma batch_circuits_angle_rule B qcs rule :
  batch_circuits B "angle" = Ok (Some (qcs, rule)) -> rule = by_outcome_count.
Proof.
  unfold batch_circuits. simpl.
  repeat (case_decide || case_match);
    by intros (? & _ & [= _ <-])%bind_Ok.
Qed.

Lemma batch_circuits_probability_rule B qcs rule :
  batch_circuits B "probability" = Ok (Some (qcs, rule)) ->
  exists qubits, rule = by_membership (divergent_key qubits) /\
                 Forall (fun qc => num_clbits qc = qubits * 2 + 1) qcs.
Proof.
  unfold batch_circuits. simpl.
  destruct (decide (shape1 B.1 = 2)).
  { intros (l & Hl & [= <- <-])%bind_Ok. exists 1. split; [done|].
    eapply mapM_Ok_Forall; [done|]. intros x qc Hqc. simpl in Hqc.
    by apply batch_probability2_circuit_Ok in Hqc as ->. }
  destruct (decide (shape1 B.1 = 3)); [done|].
  destruct (is_power_of_two (shape1 B.1)) eqn:Hp.
  - intros (l & Hl & [= <- <-])%bind_Ok.
    eexists. split; [done|].
    eapply mapM_Ok_Forall; [done|]. intros x qc Hqc.
    by apply batch_probability_circuit_clbits in Hqc as [_ ?].
  - destruct (_ && _); [done|].
    intros (l & Hl & [= <- <-])%bind_Ok.
    eexists. split; [done|].
    eapply mapM_Ok_Forall; [done|]. intros x qc Hqc. simpl in Hqc.
    apply bind_Ok in Hqc as (x' & _ & (y' & _ & Hqc)%bind_Ok).
    by apply batch_probability_circuit_clbits in Hqc as [_ ?].
Qed.

Lemma batch_circuits_length B map_type qcs rule :
  batch_circuits B map_type = Ok (Some (qcs, rule)) -> length qcs = length B.1.
Proof.
  unfold batch_circuits.
  repeat (case_decide || case_match); try done.
  all: intros (l & Hl%mapM_Ok_length & [= <- _])%bind_Ok; exact Hl.
Qed.

(** A job of two or more circuits yields the list of their histograms, a job
    of one circuit the histogram itself. *)
Lemma batch_distance_several B backend map_type qcs rule :
  batch_circuits B map_type = Ok (Some (qcs, rule)) -> 2 <= length qcs ->
  batch_distance B backend map_type
  = Some <$> mapM (fun qc => decode rule (get_counts backend qc shots)) qcs.
Proof.
  intros Hqcs Hl. unfold batch_distance. rewrite Hqcs, bind_Ok_l.
  destruct qcs as [|qc [|qc' qcs]]; simpl in Hl; [lia..|done].
Qed.

Lemma batch_distance_single B backend map_type qc rule :
  batch_circuits B map_type = Ok (Some ([qc], rule)) ->
  batch_distance B backend map_type
  = Some <$> decode_single rule (get_counts backend qc shots).
Proof. intros Hqcs. unfold batch_distance. by rewrite Hqcs, bind_Ok_l. Qed.

Lemma mapM_raises_with {A B} (f : A -> result B) (l : list A) (e : exn) :
  Forall (fun x => forall e', f x = Raise e' -> e' = e) l ->
  Exists (fun x => raises (f x)) l ->
  mapM f l = Raise e.
Proof.
  intros Hall Hex. induction l as [|x l IH]; [by apply Exists_nil in Hex|].
  apply Forall_cons in Hall as [Hx Hall]. rewrite mapM_cons.
  destruct (f x) as [b|e'] eqn:Hfx.
  - apply Exists_cons in Hex as [[e' He']|Hex]; [congruence|].
    rewrite bind_Ok_l, (IH Hall Hex). done.
  - by rewrite (Hx e' eq_refl).
Qed.

Lemma mapM_Raise_Exists {A B} (f : A -> result B) (l : list A) (e : exn) :
  mapM f l = Raise e -> Exists (fun x => f x = Raise e) l.
Proof.
  induction l as [|x l IH]; [done|]. rewrite mapM_cons.
  destruct (f x) as [b|e'] eqn:Hfx.
  - rewrite bind_Ok_l. intros H. right. apply IH.
    by destruct (mapM f l).
  - intros [= ->]. by left.
Qed.

Lemma fmap_Some_Ok {A} (m : result A) (a : A) : Some <$> m = Ok (Some a) <-> m = Ok a.
Proof. destruct m; simpl; split; congruence. Qed.

Lemma fmap_Raise {A B} (f : A -> B) (m : result A) (e : exn) :
  f <$> m = Raise e <-> m = Raise e.
Proof. destruct m; simpl; split; congruence. Qed.

(** C2, as the code has it.  Under 'angle', unbatched and in a job of two or
    more circuits, a histogram with exactly one outcome decodes to 0.0, any
    other that holds the outcome '001' to the count of '001' over 1024, and
    one with several outcomes but not '001' raises KeyError.  Under
    'probability', in a job of two or more circuits, a histogram decodes to
    the count of the divergent bitstring over 1024 whenever that bitstring
    occurs in it, also as its only outcome, and to 0.0 otherwise; a distance
    is returned for every circuit. *)
Theorem histogram_decoding (backend : Backend) :
  (forall x y norm_relevance qc,
     distance_circuit x y "angle" norm_relevance = Ok (Some qc) ->
     (forall d,
        distance x y backend "angle" norm_relevance = Ok (Some d) <->
        decodes_by_outcome_count (get_counts backend qc shots) d) /\
     (distance x y backend "angle" norm_relevance = Raise KeyError <->
      lacks_outcome (get_counts backend qc shots))) /\
  (forall B qcs rule,
     batch_circuits B "angle" = Ok (Some (qcs, rule)) -> 2 <= length qcs ->
     (forall ds,
        batch_distance B backend "angle" = Ok (Some ds) <->
        Forall2 (fun qc d => decodes_by_outcome_count (get_counts backend qc shots) d)
                qcs ds) /\
     (batch_distance B backend "angle" = Raise KeyError <->
      Exists (fun qc => lacks_outcome (get_counts backend qc shots)) qcs)) /\
  (forall B qcs rule,
     batch_circuits B "probability" = Ok (Some (qcs, rule)) -> 2 <= length qcs ->
     (exists ds, batch_distance B backend "probability" = Ok (Some ds)) /\
     (forall ds,
        batch_distance B backend "probability" = Ok (Some ds) <->
        Forall2 (fun qc d =>
                   decodes_by_membership (divergent_bitstring (num_clbits qc))
                                         (get_counts backend qc shots) d)
                qcs ds)).
Proof.
  split; [|split].
  - intros x y norm_relevance qc Hqc. unfold distance. rewrite Hqc, bind_Ok_l.
    split.
    + intros d. rewrite fmap_Some_Ok. apply counts_to_distance_spec.
    + rewrite fmap_Raise. split.
      * by intros [_ ?]%counts_to_distance_raises.
      * apply counts_to_distance_missing.
  - intros B qcs rule Hqcs Hl.
    rewrite (batch_distance_several _ _ _ _ _ Hqcs Hl).
    apply batch_circuits_angle_rule in Hqcs as ->. split.
    + intros ds. rewrite fmap_Some_Ok, mapM_Ok_Forall2.
      split; intros H; (eapply Forall2_impl; [exact H|]); intros qc d;
        apply counts_to_distance_spec.
    + rewrite fmap_Raise. split.
      * intros Hex%mapM_Raise_Exists.
        eapply Exists_impl; [exact Hex|]. intros qc.
        by intros [_ ?]%counts_to_distance_raises.
      * intros Hex. apply mapM_raises_with.
        -- apply Forall_true. intros qc e He.
           by apply counts_to_distance_raises in He as [-> _].
        -- eapply Exists_impl; [exact Hex|]. intros qc Hqc. simpl.
           rewrite counts_to_distance_missing by done. by eexists.
  - intros B qcs rule Hqcs Hl.
    rewrite (batch_distance_several _ _ _ _ _ Hqcs Hl).
    apply batch_circuits_probability_rule in Hqcs as (qubits & -> & Hbits).
    assert (forall ds,
              mapM (fun qc => decode (by_membership (divergent_key qubits))
                                     (get_counts backend qc shots)) qcs = Ok ds <->
              Forall2 (fun qc d =>
                         decodes_by_membership (divergent_bitstring (num_clbits qc))
                                               (get_counts backend qc shots) d)
                      qcs ds) as Hds.
    { intros ds. rewrite mapM_Ok_Forall2.
      split; intros H; (eapply Forall2_Forall_impl; [exact Hbits|exact H|]);
        intros qc d Hb; simpl; rewrite Hb, <-divergent_key_bitstring.
      - intros [= <-]. by apply contained_to_distance_spec.
      - by intros <-%contained_to_distance_spec. }
    split.
    + rewrite (mapM_total _ (fun qc => contained_to_distance (divergent_key qubits)
                                         (get_counts backend qc shots))) by done.
      by eexists.
    + intros ds. rewrite fmap_Some_Ok. apply Hds.
Qed.

Lemma histogram_decoding_witness :
  distance [1; 2]%Q [3; 4]%Q (simulator 2) "angle" false = Ok (Some (2 # 1024)%Q) /\
  distance [1; 2]%Q [1; 2]%Q (simulator 2) "angle" false = Ok (Some 0%Q) /\
  distance [1; 2]%Q [3; 4]%Q (wide_device 2) "angle" false = Raise KeyError /\
  batch_distance (four_points, [1; 2]%Q) (simulator 2) "angle"
  = Ok (Some [0; 2 # 1024; 4 # 1024; 6 # 1024]%Q) /\
  batch_distance (four_points, [1; 2]%Q) (wide_device 2) "angle" = Raise KeyError /\
  batch_distance (unit_points, [1; 0]%Q) (simulator 2) "probability"
  = Ok (Some [4 # 1024; 3 # 1024; 0; 1 # 1024]%Q).
Proof.
  refine (conj _ (conj _ (conj _ (conj _ (conj _ _))))).
  - eapply (proj1 (histogram_decoding (simulator 2))); [reflexivity|]. by_count.
  - eapply (proj1 (histogram_decoding (simulator 2))); [reflexivity|]. by_count.
  - eapply (proj1 (histogram_decoding (wide_device 2))); [reflexivity|].
    split; [|reflexivity]. intros Hs. vm_compute in Hs. discriminate.
  - eapply (proj1 (proj2 (histogram_decoding (simulator 2))));
      [reflexivity | simpl; lia |].
    repeat (constructor; [by_count|]). constructor.
  - eapply (proj1 (proj2 (histogram_decoding (wide_device 2))));
      [reflexivity | simpl; lia |].
    left. split; [|reflexivity]. intros Hs. vm_compute in Hs. discriminate.
  - eapply (proj2 (proj2 (histogram_decoding (simulator 2))));
      [reflexivity | simpl; lia |].
    repeat (constructor; [split; [intros c [= <-]; reflexivity | try discriminate; reflexivity]|]).
    constructor.
Defined.

(** C2, as the specification words it, fails: a histogram whose single outcome is the
    divergent bitstring decodes to 1024/1024 in the batched 'probability'
    path, not to 0.0. *)
Lemma single_outcome_decodes_to_one :
  (forall qc, size (get_counts (stuck_device 2) qc shots) = 1) /\
  batch_distance (unit_points, [1; 0]%Q) (stuck_device 2) "probability"
  = Ok (Some [1024 # 1024; 1024 # 1024; 1024 # 1024; 1024 # 1024]%Q) /\
  ~ (1024 # 1024 == 0)%Q.
Proof.
  split; [|split].
  - intros qc. apply map_size_singleton.
  - reflexivity.
  - done.
Qed.

(** ** The batcher on three centres *)

(** C1 at a failing input: four points, three centres, two experiments per
    job.  The unbatched estimator returns its 3 x 4 matrix; the batched
    pipeline raises IndexError in [batch_collect]. *)
Theorem batch_distances_three_centers :
  batch_distances four_points (Rows three_centers) (simulator 2) "angle"
  = Raise IndexError /\
  pairwise_distances four_points three_centers (simulator 2)
  = Ok [[Some 0; Some (2 # 1024); Some (4 # 1024); Some (6 # 1024)];
        [Some (4 # 1024); Some (2 # 1024); Some 0; Some (2 # 1024)];
        [Some (6 # 1024); Some (4 # 1024); Some (2 # 1024); Some 0]]%Q.
Proof. split; by vm_compute. Qed.

Lemma length_np_repeat {A} (k : nat) (a : list A) :
  length (np_repeat k a) = length a * k.
Proof.
  unfold np_repeat. induction a as [|x a IH]; simpl; [done|].
  rewrite length_app, length_replicate, IH. lia.
Qed.

Lemma length_concat_replicate {A} (n : nat) (l : list A) :
  length (concat (replicate n l)) = n * length l.
Proof.
  induction n as [|n IH]; simpl; [done|]. rewrite length_app, IH. lia.
Qed.

Lemma length_np_split_from {A} (start : nat) (X : list A) (indices : list nat) :
  length (np_split_from start X indices) = S (length indices).
Proof.
  revert start. induction indices as [|i indices IH]; intros start; simpl; [done|].
  by rewrite IH.
Qed.

(** The batches come in whole rounds of the centres. *)
Lemma batch_separate_length X rows max_experiments batches :
  batch_separate X (Rows rows) max_experiments = Ok batches ->
  exists n_chunks, 1 <= n_chunks /\ length batches = n_chunks * length rows.
Proof.
  unfold batch_separate. simpl.
  destruct (length rows <? length X) eqn:Hlt; [|done]. apply Nat.ltb_lt in Hlt.
  destruct (max_experiments =? 0); [done|].
  intros (chunks & Hchunks & [= <-])%bind_Ok.
  unfold np_asarray in Hchunks. destruct (same_length _); [|done].
  injection Hchunks as <-.
  rewrite length_zip, length_np_repeat, length_concat_replicate.
  unfold np_split. rewrite length_np_split_from.
  destruct (length X `mod` max_experiments =? 0) eqn:Hmod.
  - apply Nat.eqb_eq in Hmod.
    pose proof (Nat.div_mod_eq (length X) max_experiments) as Hdm.
    rewrite Hmod in Hdm. rewrite length_map, length_seq.
    exists (length X `div` max_experiments).
    destruct (length X `div` max_experiments); [lia|]. split; [lia|]. nia.
  - rewrite length_map, length_seq.
    exists (length X `div` max_experiments + 1). split; [lia|]. nia.
Qed.

Lemma length_distance_array distance_list batch_d :
  distance_array distance_list = Ok batch_d -> length batch_d = length distance_list.
Proof.
  unfold distance_array. destruct (forallb _ _).
  - intros [= <-]. by rewrite length_map.
  - intros (rows & Hrows%mapM_Ok_length & Hbd)%bind_Ok.
    unfold np_asarray in Hbd. destruct (same_length rows); [|done].
    by injection Hbd as <-.
Qed.

Lemma mapM_first_raise {A B} (f : A -> result B) (l1 l2 : list A) (x : A) (e : exn) :
  Forall (fun y => exists b, f y = Ok b) l1 -> f x = Raise e ->
  mapM f (l1 ++ x :: l2) = Raise e.
Proof.
  intros Hl1 Hx. induction Hl1 as [|y l1 [b Hy] _ IH]; simpl.
  - by rewrite Hx.
  - by rewrite Hy, IH.
Qed.

Lemma py_item_Ok {A} (a : list A) (i : nat) :
  i < length a -> exists x, py_item a (Z.of_nat i) = Ok x.
Proof.
  intros Hi. unfold py_item.
  destruct (_ && _) eqn:H1.
  - rewrite Nat2Z.id. destruct (lookup_lt_is_Some_2 a i Hi) as [x Hx].
    exists x. by apply item_Ok.
  - apply andb_false_iff in H1 as [H1%Z.leb_gt|H1%Z.ltb_ge]; lia.
Qed.

(** [batch_collect] walks off its input as soon as there is a third centre:
    the rows of the first two centres are found, the first row of the third
    is looked up past the end. *)
Lemma batch_collect_raises {A} (batch_d : list (list A)) (k n n_chunks : nat) :
  3 <= k -> 1 <= n_chunks -> length batch_d = n_chunks * k ->
  batch_collect batch_d (k, n) = Raise IndexError.
Proof.
  intros Hk Hn Hlen. unfold batch_collect. simpl.
  destruct (k =? 0) eqn:Hk0; [apply Nat.eqb_eq in Hk0; lia|].
  rewrite Hlen, Nat.div_mul by lia.
  assert (seq 0 (n_chunks * k)
          = seq 0 (2 * n_chunks)
              ++ (2 * n_chunks) :: seq (S (2 * n_chunks)) (n_chunks * k - 2 * n_chunks - 1))
    as ->.
  { replace (n_chunks * k)
      with (2 * n_chunks + S (n_chunks * k - 2 * n_chunks - 1)) at 1 by nia.
    by rewrite seq_app. }
  rewrite (mapM_first_raise _ _ _ _ IndexError); [done| |].
  - apply Forall_forall. intros i Hi%elem_of_seq.
    destruct (i <? n_chunks) eqn:Hlt.
    + apply Nat.ltb_lt in Hlt. apply py_item_Ok. rewrite Hlen. nia.
    + apply Nat.ltb_ge in Hlt.
      assert (n_chunks * k <= k * i) as Hle by nia.
      replace (Z.of_nat (k * i) - Z.of_nat (n_chunks * k) + 1)%Z
        with (Z.of_nat (k * i - n_chunks * k + 1)) by lia.
      apply py_item_Ok. rewrite Hlen. nia.
  - destruct (2 * n_chunks <? n_chunks) eqn:Hlt; [apply Nat.ltb_lt in Hlt; lia|].
    unfold py_item. rewrite Hlen.
    replace (k * (2 * n_chunks)) with (2 * (n_chunks * k)) by lia.
    destruct (_ && _) eqn:H1;
      [apply andb_true_iff in H1 as [_ H1%Z.ltb_lt]; lia|].
    destruct ((- _ <=? _)%Z && _) eqn:H2;
      [apply andb_true_iff in H2 as [_ H2%Z.ltb_lt]; lia|].
    done.
Qed.

(** With three or more centres the batched pipeline never returns a matrix:
    whatever the data, the backend and the batch size, it raises. *)
Theorem batch_distances_raises_from_three_centers X centers backend map_type :
  3 <= length centers ->
  raises (batch_distances X (Rows centers) backend map_type).
Proof.
  intros Hk. unfold batch_distances.
  destruct (batch_separate _ _ _) as [batches|e] eqn:Hb; simpl; [|by eexists].
  apply batch_separate_length in Hb as (n_chunks & Hn & Hlen).
  destruct (mapM _ batches) as [distance_list|e] eqn:Hd; simpl; [|by eexists].
  apply mapM_Ok_length in Hd.
  destruct (distance_array _) as [batch_d|e] eqn:Ha; simpl; [|by eexists].
  apply length_distance_array in Ha.
  rewrite (batch_collect_raises batch_d (length centers) (length X) n_chunks);
    [by eexists | done | done | congruence].
Qed.

Lemma batch_distances_raises_from_three_centers_witness :
  raises (batch_distances four_points (Rows three_centers) (simulator 2) "angle").
Proof.
  apply batch_distances_raises_from_three_centers. simpl. lia.
Defined.

(** ** The batcher on one and two centres *)

Lemma np_split_from_even {A} (X : list A) (m j r : nat) :
  length X = (j + r + 1) * m ->
  Forall (fun chunk => length chunk = m)
         (np_split_from (j * m) X (map (fun i => i * m) (seq (S j) r))) /\
  concat (np_split_from (j * m) X (map (fun i => i * m) (seq (S j) r)))
  = drop (j * m) X.
Proof.
  revert j. induction r as [|r IH]; intros j Hlen; simpl.
  - split; [|by rewrite app_nil_r].
    repeat constructor. rewrite length_drop. nia.
  - destruct (IH (S j)) as [Hall Hcat]; [lia|].
    replace (m + j * m - j * m) with m by lia.
    split.
    + constructor; [|exact Hall]. rewrite length_take, length_drop. nia.
    + simpl in Hcat. rewrite Hcat.
      replace (m + j * m) with (j * m + m) by lia.
      rewrite <-drop_drop. apply take_drop.
Qed.

Lemma same_length_Forall {A} (rows : list (list A)) (c : nat) :
  Forall (fun row => length row = c) rows -> same_length rows = true.
Proof.
  destruct 1 as [|row rows Hrow Hrows]; simpl; [done|].
  induction Hrows as [|r rows Hr _ IH]; simpl; [done|].
  rewrite IH, andb_true_r. apply Nat.eqb_eq. congruence.
Qed.

Lemma zip_replicate_l {A B} (x : A) (l : list B) :
  zip (replicate (length l) x) l = (fun y => (x, y)) <$> l.
Proof. induction l as [|y l IH]; simpl; [done | by rewrite IH]. Qed.

(** The batches pair every chunk with every centre, chunk by chunk. *)
Lemma zip_repeat_tile {A B} (chunks : list A) (centers : list B) :
  zip (np_repeat (length centers) chunks)
      (concat (replicate (length chunks) centers))
  = chunks ≫= fun chunk => (fun c => (chunk, c)) <$> centers.
Proof.
  unfold np_repeat. induction chunks as [|chunk chunks IH]; simpl; [done|].
  rewrite zip_with_app by (by rewrite length_replicate).
  by rewrite IH, zip_replicate_l.
Qed.

(** The chunks of a dataset whose length the batch size divides or exceeds. *)
Lemma batch_separate_even X centers m :
  length centers < length X ->
  m <> 0 -> ((length X `mod` m) = 0 \/ length X < m) ->
  exists chunks c,
    batch_separate X (Rows centers) m
    = Ok (chunks ≫= fun chunk => (fun y => (chunk, y)) <$> centers) /\
    concat chunks = X /\ c = m `min` length X /\
    Forall (fun chunk => length chunk = c) chunks.
Proof.
  intros Hk Hm Hdiv. unfold batch_separate. simpl.
  assert ((length centers <? length X) = true) as -> by (apply Nat.ltb_lt; lia).
  assert ((m =? 0) = false) as -> by (by apply Nat.eqb_neq).
  destruct (length X `mod` m =? 0) eqn:Hmod.
  - apply Nat.eqb_eq in Hmod.
    pose proof (Nat.div_mod_eq (length X) m) as Hdm. rewrite Hmod in Hdm.
    destruct (length X `div` m) as [|q] eqn:Hq; [lia|]. simpl.
    rewrite Nat.sub_0_r.
    destruct (np_split_from_even X m 0 q) as [Hall Hcat]; [lia|].
    simpl in Hall, Hcat. unfold np_split.
    exists (np_split_from 0 X (map (fun i => i * m) (seq 1 q))), m.
    unfold np_asarray. rewrite (same_length_Forall _ m Hall). simpl.
    repeat split; [|done|lia|done].
    f_equal. rewrite <-zip_repeat_tile. do 2 f_equal.
    by rewrite length_np_split_from, length_map, length_seq.
  - apply Nat.eqb_neq in Hmod. destruct Hdiv as [Hdiv|Hlt]; [done|].
    rewrite Nat.div_small by done. simpl.
    exists [X], (length X). simpl. rewrite !app_nil_r.
    repeat split; [|lia|by repeat constructor].
    f_equal. apply (zip_replicate_l X centers).
Qed.

Lemma distance_two_features x y backend norm_relevance :
  length x = 2 ->
  distance x y backend "angle" norm_relevance
  = batch_angle_circuit x y ≫= fun qc =>
      Some <$> counts_to_distance (get_counts backend qc shots).
Proof.
  intros Hx. unfold distance, distance_circuit, batch_angle_circuit. simpl.
  destruct (decide (length x = 2)); [|done].
  by destruct (item x 0), (item x 1), (item y 0), (item y 1).
Qed.

Lemma measured_spec backend centroid x cell :
  length x = 2 ->
  distance x centroid backend "angle" false = Ok cell ->
  cell = Some (measured backend centroid x) /\
  exists qc, batch_angle_circuit x centroid = Ok qc /\
             counts_to_distance (get_counts backend qc shots)
             = Ok (measured backend centroid x).
Proof.
  intros Hx Hd. unfold measured. rewrite Hd.
  rewrite distance_two_features in Hd by done.
  apply bind_Ok in Hd as (qc & Hqc & (d & Hd & ->)%fmap_Ok).
  split; [done|]. by exists qc.
Qed.

(** On a batch of two-feature points [batch_distance] measures what the
    unbatched estimator measures, point by point. *)
Lemma batch_distance_measured chunk centroid backend :
  2 <= length chunk ->
  Forall (fun x => length x = 2 /\
                   exists cell, distance x centroid backend "angle" false = Ok cell)
         chunk ->
  batch_distance (chunk, centroid) backend "angle"
  = Ok (Some (map (measured backend centroid) chunk)).
Proof.
  intros Hne Hall.
  assert (exists qcs,
            mapM (fun point => batch_angle_circuit point centroid) chunk = Ok qcs /\
            mapM (fun qc => decode by_outcome_count (get_counts backend qc shots)) qcs
            = Ok (map (measured backend centroid) chunk)) as (qcs & Hqcs & Hd).
  { clear Hne. setoid_rewrite mapM_Ok_Forall2.
    induction Hall as [|x chunk [Hx [cell Hcell]] _ (qcs & Hqcs & Hds)].
    - exists []. split; constructor.
    - apply measured_spec in Hcell as (_ & qc & Hqc & Hd); [|done].
      exists (qc :: qcs). split; by constructor. }
  rewrite (batch_distance_several _ _ _ qcs by_outcome_count).
  - by rewrite Hd.
  - unfold batch_circuits. simpl.
    assert (shape1 chunk = 2) as ->.
    { destruct Hall as [|x chunk [Hx _] _]; [simpl in Hne; lia | exact Hx]. }
    simpl. by rewrite Hqcs.
  - by rewrite (mapM_Ok_length _ _ _ Hqcs).
Qed.

Lemma pairwise_row_measured X centroid backend row :
  Forall (fun x => length x = 2) X ->
  mapM (fun point => distance point centroid backend "angle" false) X = Ok row ->
  row = map (fun x => Some (measured backend centroid x)) X /\
  Forall (fun x => length x = 2 /\
                   exists cell, distance x centroid backend "angle" false = Ok cell) X.
Proof.
  intros HX Hrow%mapM_Ok_Forall2.
  induction Hrow as [|x cell X row Hcell _ IH]; [done|].
  apply Forall_cons in HX as [Hx HX]. destruct (IH HX) as [-> Hall].
  pose proof (measured_spec _ _ _ _ Hx Hcell) as [-> _].
  split; [done|]. constructor; eauto.
Qed.

Lemma pairwise_measured X centers backend distances :
  Forall (fun x => length x = 2) X ->
  pairwise_distances X centers backend = Ok distances ->
  distances = map (fun c => map (fun x => Some (measured backend c x)) X) centers /\
  Forall (fun c => Forall (fun x => length x = 2 /\
                     exists cell, distance x c backend "angle" false = Ok cell) X)
         centers.
Proof.
  intros HX Hd%mapM_Ok_Forall2.
  induction Hd as [|c row centers distances Hrow _ [-> Hall]]; [done|].
  apply pairwise_row_measured in Hrow as [-> Hc]; [|done].
  split; [done | by constructor].
Qed.

Lemma mapM_seq_Ok {B} (f : nat -> result B) (start : nat) (l : list B) :
  (forall i x, l !! i = Some x -> f (start + i) = Ok x) ->
  mapM f (seq start (length l)) = Ok l.
Proof.
  revert start. induction l as [|x l IH]; intros start Hf; [done|].
  simpl length. simpl seq. rewrite mapM_cons.
  rewrite <-(Nat.add_0_r start) at 1. rewrite (Hf 0 x) by done.
  rewrite bind_Ok_l, IH; [done|].
  intros i y Hy. replace (S start + i) with (start + S i) by lia. by apply Hf.
Qed.

Lemma mapM_app_Ok {A B} (f : A -> result B) (l1 l2 : list A) (r1 r2 : list B) :
  mapM f l1 = Ok r1 -> mapM f l2 = Ok r2 -> mapM f (l1 ++ l2) = Ok (r1 ++ r2).
Proof. rewrite !mapM_Ok_Forall2. apply Forall2_app. Qed.

Lemma py_item_nat {A} (a : list A) (i : nat) : py_item a (Z.of_nat i) = item a i.
Proof.
  unfold py_item.
  destruct (_ && _) eqn:H1; [by rewrite Nat2Z.id|].
  destruct ((- _ <=? _)%Z && _) eqn:H2;
    [apply andb_true_iff in H2 as [_ H2%Z.ltb_lt]; lia|].
  apply andb_false_iff in H1 as [H1%Z.leb_gt|H1%Z.ltb_ge]; [lia|].
  unfold item. rewrite lookup_ge_None_2; [done | lia].
Qed.

Lemma bind_singleton_fmap {A B} (f : A -> B) (l : list A) :
  l ≫= (fun x => [f x]) = f <$> l.
Proof. induction l as [|x l IH]; [done|]. cbn. by rewrite <-IH. Qed.

Lemma lookup_bind_pair {A B} (G0 G1 : A -> B) (l : list A) (a : nat) :
  (l ≫= fun x => [G0 x; G1 x]) !! (2 * a) = G0 <$> l !! a /\
  (l ≫= fun x => [G0 x; G1 x]) !! (2 * a + 1) = G1 <$> l !! a.
Proof.
  revert a. induction l as [|x l IH]; intros a; [done|].
  destruct a as [|a]; [done|].
  replace (2 * S a) with (S (S (2 * a))) by lia.
  replace (S (S (2 * a)) + 1) with (S (S (2 * a + 1))) by lia.
  apply IH.
Qed.

Lemma length_bind_pair {A B} (G0 G1 : A -> B) (l : list A) :
  length (l ≫= fun x => [G0 x; G1 x]) = 2 * length l.
Proof. induction l as [|x l IH]; [done|]. cbn. cbn in IH. rewrite IH. lia. Qed.

Lemma concat_map_map {A B} (g : A -> B) (chunks : list (list A)) :
  concat (map (map g) chunks) = map g (concat chunks).
Proof.
  induction chunks as [|chunk chunks IH]; simpl; [done|].
  by rewrite IH, map_app.
Qed.

(** [batch_collect] on the rows of one centre: they are kept in order. *)
Lemma batch_collect_one {A} (rows : list (list A)) (n : nat) :
  length (concat rows) = n ->
  batch_collect rows (1, n) = Ok [concat rows].
Proof.
  intros Hn. unfold batch_collect. cbn [fst snd].
  change (1 =? 0) with false. cbv iota. rewrite Nat.div_1_r.
  rewrite (mapM_seq_Ok _ 0 rows).
  - rewrite bind_Ok_l. unfold reshape. cbn [fst snd].
    rewrite Nat.mul_1_l, Hn, Nat.eqb_refl. simpl.
    by rewrite take_ge by lia.
  - intros i x Hx. rewrite Nat.add_0_l, Nat.mul_1_l.
    assert (i < length rows) as Hi by (by eapply lookup_lt_Some).
    apply Nat.ltb_lt in Hi. rewrite Hi, py_item_nat. by apply item_Ok.
Qed.

(** [batch_collect] on the rows of two centres, interleaved chunk by chunk:
    the rows of the first centre come first, those of the second next. *)
Lemma batch_collect_two {A B} (G0 G1 : A -> list B) (chunks : list A) (n : nat) :
  length (concat (map G0 chunks)) = n ->
  length (concat (map G1 chunks)) = n ->
  batch_collect (chunks ≫= fun chunk => [G0 chunk; G1 chunk]) (2, n)
  = Ok [concat (map G0 chunks); concat (map G1 chunks)].
Proof.
  intros H0 H1. unfold batch_collect. cbn [fst snd].
  change (2 =? 0) with false. cbv iota.
  rewrite length_bind_pair.
  replace ((2 * length chunks) `div` 2) with (length chunks)
    by (symmetry; rewrite Nat.mul_comm; apply Nat.div_mul; lia).
  replace (seq 0 (2 * length chunks))
    with (seq 0 (length chunks) ++ seq (0 + length chunks) (length chunks))
    by (rewrite <-seq_app; f_equal; lia).
  rewrite (mapM_app_Ok _ _ _ (map G0 chunks) (map G1 chunks)).
  - rewrite bind_Ok_l, concat_app. unfold reshape. cbn [fst snd].
    rewrite length_app, H0, H1.
    replace (n + n =? 2 * n) with true by (symmetry; apply Nat.eqb_eq; lia).
    simpl.
    rewrite take_app_length' by done. rewrite drop_app_length' by done.
    by rewrite take_ge by lia.
  - replace (seq 0 (length chunks)) with (seq 0 (length (map G0 chunks)))
      by (by rewrite length_map).
    apply mapM_seq_Ok.
    intros i x Hx. rewrite Nat.add_0_l.
    rewrite list_lookup_fmap in Hx.
    destruct (chunks !! i) as [chunk|] eqn:Hi; [|done]. injection Hx as <-.
    apply lookup_lt_Some in Hi as Hlt. apply Nat.ltb_lt in Hlt. rewrite Hlt.
    rewrite py_item_nat. apply item_Ok.
    destruct (lookup_bind_pair G0 G1 chunks i) as [-> _]. by rewrite Hi.
  - replace (seq (0 + length chunks) (length chunks))
      with (seq (0 + length chunks) (length (map G1 chunks)))
      by (by rewrite length_map).
    apply mapM_seq_Ok.
    intros i x Hx.
    rewrite list_lookup_fmap in Hx.
    destruct (chunks !! i) as [chunk|] eqn:Hi; [|done]. injection Hx as <-.
    replace (0 + length chunks + i <? length chunks) with false
      by (symmetry; apply Nat.ltb_ge; lia).
    replace (Z.of_nat (2 * (0 + length chunks + i))
             - Z.of_nat (2 * length chunks) + 1)%Z
      with (Z.of_nat (2 * i + 1)) by lia.
    rewrite py_item_nat. apply item_Ok.
    destruct (lookup_bind_pair G0 G1 chunks i) as [_ ->]. by rewrite Hi.
Qed.

Lemma map_bind_list {A B C} (f : B -> C) (g : A -> list B) (l : list A) :
  map f (l ≫= g) = l ≫= fun x => map f (g x).
Proof.
  induction l as [|x l IH]; [done|]. cbn. cbn in IH. by rewrite map_app, IH.
Qed.

Lemma distance_array_Some (ds : list (list Q)) (c : nat) :
  ds <> [] -> Forall (fun d => length d = c) ds ->
  distance_array (map Some ds) = Ok (map (map Some) ds).
Proof.
  intros Hne Hall. unfold distance_array.
  destruct ds as [|d ds]; [done|]. cbn [map forallb]. rewrite bool_decide_false by done.
  cbn [andb]. change (Some d :: map Some ds) with (map Some (d :: ds)).
  rewrite mapM_map, (mapM_total _ (map Some)) by done.
  rewrite bind_Ok_l. unfold np_asarray.
  rewrite (same_length_Forall _ c); [done|].
  apply Forall_fmap, Forall_impl with (1 := Hall).
  intros row Hrow. simpl. by rewrite length_map.
Qed.

(** The distances of the batches, as arranged before [batch_collect]. *)
Lemma batch_distance_list X centers chunks backend c :
  Forall (fun x => length x = 2) X ->
  concat chunks = X -> 2 <= c -> Forall (fun chunk => length chunk = c) chunks ->
  chunks <> [] -> centers <> [] ->
  Forall (fun y => Forall (fun x => length x = 2 /\
                     exists cell, distance x y backend "angle" false = Ok cell) X)
         centers ->
  mapM (fun B => batch_distance B backend "angle")
       (chunks ≫= fun chunk => (fun y => (chunk, y)) <$> centers)
    ≫= distance_array
  = Ok (chunks ≫= fun chunk =>
          (fun y => map (fun x => Some (measured backend y x)) chunk) <$> centers).
Proof.
  intros HX Hcat Hc Hchunks Hne Hcne Hmeas.
  set (batches := chunks ≫= _).
  rewrite (mapM_total _ (fun B => Some (map (measured backend B.2) B.1))).
  - rewrite bind_Ok_l.
    rewrite <-(map_map (fun B => map (measured backend B.2) B.1) Some).
    rewrite (distance_array_Some _ c).
    + f_equal. rewrite map_map. subst batches.
      rewrite map_bind_list. apply list_bind_ext; [|done].
      intros chunk. rewrite map_map. apply map_ext. intros y. simpl.
      by rewrite map_map.
    + subst batches. destruct chunks as [|chunk chunks]; [done|].
      destruct centers as [|y centers]; [done|]. done.
    + apply Forall_fmap, Forall_forall. intros [chunk y] HB. simpl.
      rewrite length_map. subst batches.
      apply list_elem_of_bind in HB as (chunk' & HB & Hchunk).
      apply list_elem_of_fmap in HB as (y' & [= -> ->] & _).
      rewrite Forall_forall in Hchunks. by apply Hchunks.
  - intros [chunk y] HB. subst batches.
    apply list_elem_of_bind in HB as (chunk' & HB & Hchunk).
    apply list_elem_of_fmap in HB as (y' & [= -> ->] & Hy).
    apply batch_distance_measured.
    + rewrite Forall_forall in Hchunks. specialize (Hchunks _ Hchunk).
      simpl in Hchunks |- *. lia.
    + rewrite Forall_forall in Hmeas. specialize (Hmeas _ Hy).
      rewrite Forall_forall in Hmeas. apply Forall_forall. intros x Hx.
      apply Hmeas. rewrite <-Hcat. apply list_elem_of_In, in_concat.
      exists chunk'. split; by apply list_elem_of_In.
Qed.

(** The batcher's round trip, where it holds: on two-feature data with one
    or two centres and a batch size of two or more that divides the number of
    points or exceeds it, so that every job holds two or more circuits,
    whenever the unbatched estimator returns a matrix the batched pipeline
    returns the same matrix. *)
Theorem batch_distances_round_trip X centers backend distances :
  Forall (fun x => length x = 2) X ->
  1 <= length centers <= 2 ->
  length centers < length X ->
  2 <= max_experiments backend ->
  ((length X `mod` max_experiments backend) = 0
   \/ length X < max_experiments backend) ->
  pairwise_distances X centers backend = Ok distances ->
  batch_distances X (Rows centers) backend "angle" = Ok distances.
Proof.
  intros HX Hk Hn Hm Hdiv Hpair.
  destruct (batch_separate_even X centers (max_experiments backend) Hn) as
    (chunks & c & Hsep & Hcat & Hc & Hchunks); [lia | done |].
  assert (2 <= c) as Hc2 by lia. clear Hc.
  destruct (pairwise_measured _ _ _ _ HX Hpair) as [-> Hmeas].
  assert (chunks <> []) as Hne.
  { intros ->. simpl in Hcat. subst X. simpl in Hn. lia. }
  unfold batch_distances. rewrite Hsep, bind_Ok_l.
  pose proof (batch_distance_list X centers chunks backend c HX Hcat Hc2 Hchunks Hne)
    as Hlist.
  destruct centers as [|y0 [|y1 [|y2 centers]]]; simpl in Hk; try lia.
  - specialize (Hlist ltac:(done) Hmeas).
    apply bind_Ok in Hlist as (dl & Hdl & Hbd).
    rewrite Hdl, bind_Ok_l, Hbd, bind_Ok_l.
    cbn [fmap list_fmap shape0 length].
    rewrite bind_singleton_fmap.
    rewrite batch_collect_one.
    + change (fmap ?f chunks) with (map f chunks).
      by rewrite (concat_map_map (fun x => Some (measured backend y0 x))), Hcat.
    + change (fmap ?f chunks) with (map f chunks).
      by rewrite (concat_map_map (fun x => Some (measured backend y0 x))), Hcat,
                 length_map.
  - specialize (Hlist ltac:(done) Hmeas).
    apply bind_Ok in Hlist as (dl & Hdl & Hbd).
    rewrite Hdl, bind_Ok_l, Hbd, bind_Ok_l.
    cbn [fmap list_fmap shape0 length].
    rewrite (batch_collect_two
               (map (fun x => Some (measured backend y0 x)))
               (map (fun x => Some (measured backend y1 x)))).
    + by rewrite !concat_map_map, Hcat.
    + by rewrite concat_map_map, Hcat, length_map.
    + by rewrite concat_map_map, Hcat, length_map.
Qed.

Lemma batch_distances_round_trip_witness :
  batch_distances four_points (Rows two_centers) (simulator 2) "angle"
  = Ok [[Some 0; Some (2 # 1024); Some (4 # 1024); Some (6 # 1024)];
        [Some (4 # 1024); Some (2 # 1024); Some 0; Some (2 # 1024)]]%Q.
Proof.
  apply batch_distances_round_trip.
  - repeat constructor.
  - simpl. lia.
  - simpl. lia.
  - simpl. lia.
  - left. reflexivity.
  - vm_compute. reflexivity.
Defined.

(** ** The seeder *)

Lemma seeded_upto_insert X c centers indices (best : nat) row :
  c < length centers -> length centers = length indices ->
  X !! best = Some row ->
  seeded_upto X c centers indices ->
  seeded_upto X (S c) (<[c := row]> centers) (<[c := Z.of_nat best]> indices).
Proof.
  intros Hc Hlen Hrow Hinv j Hj.
  destruct (decide (j = c)) as [->|Hne].
  - exists best, row. rewrite !list_lookup_insert_eq by lia. done.
  - rewrite !list_lookup_insert_ne by done. apply Hinv. lia.
Qed.

Lemma seeded_upto_replace X c centers indices (best : nat) row :
  0 < length centers -> length centers = length indices ->
  X !! best = Some row ->
  seeded_upto X c centers indices ->
  seeded_upto X c (<[0 := row]> centers) (<[0 := Z.of_nat best]> indices).
Proof.
  intros Hc Hlen Hrow Hinv j Hj.
  destruct (decide (j = 0)) as [->|Hne].
  - exists best, row. rewrite !list_lookup_insert_eq by lia. done.
  - rewrite !list_lookup_insert_ne by done. by apply Hinv.
Qed.

Lemma seeding_step_seeded {St} (rng : RandomState St) X backend map_type initial_center
    batch n_local_trials c st st' :
  seeding_step rng X backend map_type initial_center batch n_local_trials c st = Ok st' ->
  c < length (st_centers st) ->
  length (st_centers st) = length (st_indices st) ->
  seeded_upto X c (st_centers st) (st_indices st) ->
  length (st_centers st') = length (st_centers st) /\
  length (st_indices st') = length (st_indices st) /\
  seeded_upto X (S c) (st_centers st') (st_indices st').
Proof.
  unfold seeding_step.
  intros ([[[best closest] pot] s] & _ & (row & Hrow%item_Ok & Hst)%bind_Ok)%bind_Ok
         Hc Hlen Hinv.
  pose proof (seeded_upto_insert X c _ _ best row Hc Hlen Hrow Hinv) as Hinv'.
  destruct (_ && _).
  - apply bind_Ok in Hst as (center1 & _ & Hst).
    apply bind_Ok in Hst as (closest' & _ & Hst).
    apply bind_Ok in Hst as (pot' & _ & Hst).
    apply bind_Ok in Hst as ([[[best0 closest0] pot0] s0] & _ & Hst).
    apply bind_Ok in Hst as (row0 & Hrow0%item_Ok & [= <-]).
    simpl. rewrite !length_insert. repeat split; try done.
    apply seeded_upto_replace; rewrite ?length_insert; try done. lia.
  - injection Hst as <-. simpl. by rewrite !length_insert.
Qed.

Lemma seeding_loop_seeded {St} (rng : RandomState St) X backend map_type initial_center
    batch n_local_trials remaining c st st' :
  seeding_loop rng X backend map_type initial_center batch n_local_trials remaining c st
  = Ok st' ->
  c + remaining = length (st_centers st) ->
  length (st_centers st) = length (st_indices st) ->
  seeded_upto X c (st_centers st) (st_indices st) ->
  length (st_centers st') = length (st_centers st) /\
  length (st_indices st') = length (st_indices st) /\
  seeded_upto X (c + remaining) (st_centers st') (st_indices st').
Proof.
  revert c st. induction remaining as [|remaining IH]; intros c st; simpl.
  - intros [= <-] _ _ Hinv. by rewrite Nat.add_0_r.
  - intros (st1 & Hstep & Hloop)%bind_Ok Hc Hlen Hinv.
    apply seeding_step_seeded in Hstep as (Hc1 & Hi1 & Hinv1); [|lia|done..].
    apply IH in Hloop as (Hc2 & Hi2 & Hinv2); [|lia..|done].
    replace (c + S remaining) with (S c + remaining) by lia.
    repeat split; [lia..|done].
Qed.

Lemma qkmeans_plusplus_seeded {St} (rng : RandomState St) X n_clusters backend
    map_type initial_center batch n_local_trials s centers indices :
  qkmeans_plusplus rng X n_clusters backend map_type initial_center batch
                   n_local_trials s = Ok (centers, indices) ->
  length centers = n_clusters /\
  length indices = n_clusters /\
  seeded_upto X n_clusters centers indices.
Proof.
  unfold qkmeans_plusplus. intros Hrun.
  apply bind_Ok in Hrun as (trials & _ & Hrun).
  destruct (length X =? 0); [done|].
  destruct (randint rng s (length X)) as [center_id s1].
  destruct (n_clusters =? 0) eqn:Hk; [done|]. apply Nat.eqb_neq in Hk.
  apply bind_Ok in Hrun as (row & Hrow%item_Ok & Hrun).
  apply bind_Ok in Hrun as (closest & _ & Hrun).
  apply bind_Ok in Hrun as (pot & _ & Hrun).
  apply bind_Ok in Hrun as (st & Hloop & [= <- <-]).
  apply seeding_loop_seeded in Hloop as (Hc & Hi & Hinv); simpl in *.
  - rewrite length_insert, length_replicate in Hc.
    rewrite length_insert, length_replicate in Hi.
    by replace (S (n_clusters - 1)) with n_clusters in Hinv by lia.
  - rewrite length_insert, length_replicate. lia.
  - by rewrite !length_insert, !length_replicate.
  - intros j Hj. assert (j = 0) as -> by lia.
    exists center_id, row.
    rewrite !list_lookup_insert_eq by (rewrite length_replicate; lia). done.
Qed.

(** C6, as the code has it: the seeder is a function of its arguments and of
    the state of the generator; when it returns, it returns [n_clusters]
    centres and [n_clusters] row indices, and every centre is the row of the
    dataset at its index.  The indices need not be distinct. *)
Theorem qkmeans_plusplus_indices {St} (rng : RandomState St) X n_clusters backend
    map_type initial_center batch n_local_trials s centers indices :
  qkmeans_plusplus rng X n_clusters backend map_type initial_center batch
                   n_local_trials s = Ok (centers, indices) ->
  (forall s', s' = s ->
     qkmeans_plusplus rng X n_clusters backend map_type initial_center batch
                      n_local_trials s' = Ok (centers, indices)) /\
  length centers = n_clusters /\
  length indices = n_clusters /\
  Forall2 (fun index center =>
             exists i : nat, index = Z.of_nat i /\ X !! i = Some center)
          indices centers.
Proof.
  intros Hrun. split; [by intros s' ->|].
  apply qkmeans_plusplus_seeded in Hrun as (Hc & Hi & Hinv).
  repeat split; [done..|].
  apply Forall2_same_length_lookup_2; [lia|].
  intros j index center Hindex Hcenter.
  destruct (Hinv j) as (i & row' & Hi' & Hc' & HX).
  { apply lookup_lt_Some in Hindex. lia. }
  exists i. split; congruence.
Qed.

Lemma qkmeans_plusplus_indices_witness :
  length [[3; 4]; [7; 8]]%Q = 2 /\
  length [1; 3]%Z = 2 /\
  Forall2 (fun index center =>
             exists i : nat, index = Z.of_nat i /\ four_points !! i = Some center)
          [1; 3]%Z [[3; 4]; [7; 8]]%Q.
Proof.
  apply (qkmeans_plusplus_indices lcg four_points 2 (simulator 2) "angle" "random"
                                  true None 42%N).
  vm_compute. reflexivity.
Defined.

(** C6, as the specification words it, fails: on three coinciding points every
    distance is 0.0, every candidate is row 0, and with a first draw of row
    0 the seeder returns the row indices 0 and 0. *)
Lemma seeds_not_distinct :
  exists centers,
    qkmeans_plusplus lcg coinciding_points 2 (simulator 3) "angle" "random"
                     true None 9%N = Ok (centers, [0; 0]%Z) /\
    ~ NoDup [0; 0]%Z.
Proof.
  eexists. split; [vm_compute; reflexivity|].
  intros H. apply NoDup_cons in H as [H _]. apply H. by left.
Qed.

(** ** [predict] *)

(** C5: with a weight vector and [batch=True] (the default) [predict]
    computes the batched distances and drops them; [distances] is unbound
    when the labels are computed, so the call raises and returns no labels. *)
Theorem predict_weighted_batch_raises (lib : Library) (self : QuantumKMeans)
    (X : list (list Q)) (sample_weight : list Q) :
  raises (predict lib self X (Some sample_weight) true) /\
  (forall X' weight_X distances,
     preprocess lib X (map_type self) (norm_relevance self) = Ok X' ->
     mapM (fun row => if length row =? length sample_weight
                      then Ok (zip_with Qmult row sample_weight)
                      else Raise ValueError) X' = Ok weight_X ->
     estimator_distances self weight_X true = Ok distances ->
     predict lib self X (Some sample_weight) true = Raise UnboundLocalError).
Proof.
  split.
  - unfold predict. apply bind_raises_all. intros X'.
    destruct (mapM _ X') as [weight_X|e]; simpl; [|by eexists].
    destruct (estimator_distances self weight_X true); simpl; by eexists.
  - intros X' weight_X distances HX Hw Hd. unfold predict.
    rewrite HX. simpl. rewrite Hw. simpl. by rewrite Hd.
Qed.

(** On four points, unit weights and an estimator holding two centres the
    batched distances are computed, and the call still ends in the unbound
    name. *)
Lemma predict_weighted_batch_raises_witness :
  (exists distances,
     estimator_distances fitted_estimator scaled_points true = Ok distances) /\
  predict rational_library fitted_estimator four_points (Some [1; 1]%Q) true
  = Raise UnboundLocalError.
Proof.
  split; [eexists; vm_compute; reflexivity|].
  eapply (proj2 (predict_weighted_batch_raises rational_library fitted_estimator
                   four_points [1; 1]%Q));
    vm_compute; reflexivity.
Defined.

(** ** The iteration counter *)

Lemma fit_iteration_n_iter lib self X batch :
  n_iter_ (fit_iteration lib self X batch).1
  = n_iter_ self + match (fit_iteration lib self X batch).2 with
                   | Ok _ => 1
                   | Raise _ => 0
                   end.
Proof.
  unfold fit_iteration.
  destruct (_ ≫= nearest) as [labels|e]; simpl; [|lia].
  destruct (new_centroids _ _ _); simpl; lia.
Qed.

Lemma fit_loop_n_iter lib remaining self X batch iteration :
  let r := fit_loop lib remaining self X batch iteration in
  n_iter_ r.1.1 + iteration = n_iter_ self + r.1.2 /\
  iteration <= r.1.2 <= iteration + remaining.
Proof.
  revert self iteration.
  induction remaining as [|remaining IH]; intros self iteration; simpl; [lia|].
  pose proof (fit_iteration_n_iter lib self X batch) as Hn.
  destruct (fit_iteration lib self X batch) as [self' [finished|e]]; simpl in *.
  - destruct finished; simpl; [lia|].
    specialize (IH self' (iteration + 1)). simpl in IH. lia.
  - lia.
Qed.

Lemma fit_init_n_iter {St} lib (rng : RandomState St) self X batch s :
  n_iter_ (fit_init lib rng self X batch s).1 = n_iter_ self /\
  max_iter (fit_init lib rng self X batch s).1 = max_iter self.
Proof.
  unfold fit_init. repeat case_decide; try done.
  - by destruct (qkmeans_plusplus _ _ _ _ _ _ _ _ _) as [[??]|].
  - case_match; [done|]. by destruct (mapM _ _).
Qed.

Lemma fit_trace_n_iter {St} lib (rng : RandomState St) self X batch s :
  let r := fit_trace lib rng self X batch s in
  n_iter_ r.1.1 = n_iter_ self + r.1.2 /\ r.1.2 <= max_iter self.
Proof.
  unfold fit_trace.
  destruct (preprocess _ _ _ _) as [X'|e]; simpl; [|lia].
  pose proof (fit_init_n_iter lib rng self X' batch s) as [Hn Hm].
  destruct (fit_init lib rng self X' batch s) as [self' [[]|e]]; simpl in *; [|lia].
  pose proof (fit_loop_n_iter lib (max_iter self') self' X' batch 0) as H.
  simpl in H. lia.
Qed.

(** C10: the constructor sets [n_iter_] to 0; a call of [fit] adds to it the
    number of iterations the call ran (the final value of its local counter
    [iteration], at most [max_iter]) and never resets it; so after any
    sequence of calls on one estimator [n_iter_] is the sum of the iterations
    of all the calls. *)
Theorem n_iter_accumulates {St} (lib : Library) (rng : RandomState St) :
  (forall backend n_clusters init tol max_iter map_type norm_relevance initial_center,
     n_iter_ (QuantumKMeans_init backend n_clusters init tol max_iter map_type
                                 norm_relevance initial_center) = 0) /\
  (forall self X batch s,
     n_iter_ (fit lib rng self X batch s).1
     = n_iter_ self + (fit_trace lib rng self X batch s).1.2 /\
     (fit_trace lib rng self X batch s).1.2 <= max_iter self) /\
  (forall self calls,
     n_iter_ (fit_calls lib rng self calls).1
     = n_iter_ self + sum_list (fit_calls lib rng self calls).2).
Proof.
  split; [done|]. split.
  - intros self X batch s.
    pose proof (fit_trace_n_iter lib rng self X batch s) as H.
    unfold fit. destruct (fit_trace lib rng self X batch s) as [[self' it] r].
    apply H.
  - intros self calls. revert self.
    induction calls as [|[[X batch] s] calls IH]; intros self; simpl; [lia|].
    pose proof (fit_trace_n_iter lib rng self X batch s) as [H _].
    destruct (fit_trace lib rng self X batch s) as [[self' it] r].
    specialize (IH self'). simpl in H.
    destruct (fit_calls lib rng self' calls) as [self'' its]. simpl in *. lia.
Qed.

(** ** Labels and centroids *)

Lemma argmin_from_lt (best_i : nat) (best : Q) (i : nat) (l : list Q) :
  best_i < i -> argmin_from best_i best i l < i + length l.
Proof.
  revert best_i best i. induction l as [|q l IH]; intros best_i best i Hi; simpl.
  - lia.
  - destruct (Qltb q best).
    + specialize (IH i q (S i)). lia.
    + specialize (IH best_i best (S i)). lia.
Qed.

Lemma argmin_floats_lt (l : list Q) (k : nat) : argmin_floats l = Ok k -> k < length l.
Proof.
  destruct l as [|q l]; simpl; [done|]. intros [= <-].
  pose proof (argmin_from_lt 0 q 1 l). lia.
Qed.

Lemma floats_length (cells : list cell) (qs : list Q) :
  floats cells = Ok qs -> length qs = length cells.
Proof. apply mapM_Ok_length. Qed.

Lemma np_argmin_lt (col : list cell) (k : nat) : np_argmin col = Ok k -> k < length col.
Proof.
  unfold np_argmin.
  destruct col as [|c [|c' col]]; [done | intros [= <-]; simpl; lia |].
  intros (qs & Hqs & Hk)%bind_Ok.
  apply floats_length in Hqs. apply argmin_floats_lt in Hk. lia.
Qed.

Lemma length_column {A} (a : list (list A)) (i : nat) : length (column a i) <= length a.
Proof.
  unfold column. induction a as [|row a IH]; [done|].
  cbn. destruct (row !! i); simpl; lia.
Qed.

Lemma nearest_lt (distances : list (list cell)) (labels : list nat) :
  nearest distances = Ok labels -> Forall (fun l => l < length distances) labels.
Proof.
  unfold nearest. destruct distances as [|row distances]; [done|].
  intros H. eapply mapM_Ok_Forall; [done|].
  intros i l Hl%np_argmin_lt.
  pose proof (length_column (row :: distances) i). lia.
Qed.

Lemma length_split_rows {A} (r c : nat) (flat : list A) : length (split_rows r c flat) = r.
Proof. revert flat. induction r as [|r IH]; intros flat; simpl; [done | by rewrite IH]. Qed.

Lemma reshape_length {A} (flat : list A) (shape : nat * nat) (rows : list (list A)) :
  reshape flat shape = Ok rows -> length rows = shape.1.
Proof.
  unfold reshape. case_match; [|done]. intros [= <-]. apply length_split_rows.
Qed.

Lemma batch_collect_length {A} (batch_d : list (list A)) (shape : nat * nat)
    (rows : list (list A)) :
  batch_collect batch_d shape = Ok rows -> length rows = shape.1.
Proof.
  unfold batch_collect. case_match; [done|].
  intros (final & _ & Hr)%bind_Ok. by apply reshape_length in Hr.
Qed.

Lemma batch_distances_length X cluster_centers backend map_type distances :
  batch_distances X cluster_centers backend map_type = Ok distances ->
  length distances = shape0 cluster_centers.
Proof.
  unfold batch_distances.
  intros (batches & _ & (dl & _ & (bd & _ & H)%bind_Ok)%bind_Ok)%bind_Ok.
  by apply batch_collect_length in H.
Qed.

Lemma batch_separate_unfitted X max_experiments :
  raises (batch_separate X Empty1D max_experiments).
Proof.
  unfold batch_separate. repeat case_match; try (by eexists).
  all: apply bind_raises_all; intros; by eexists.
Qed.

Lemma pairwise_distances_length X centers backend distances :
  pairwise_distances X centers backend = Ok distances ->
  length distances = length centers.
Proof. apply mapM_Ok_length. Qed.

Lemma estimator_distances_rows self X batch distances :
  estimator_distances self X batch = Ok distances ->
  exists old, cluster_centers_ self = Frame old /\ length distances = length old.
Proof.
  unfold estimator_distances.
  destruct (cluster_centers_ self) as [|old], batch; try done.
  - unfold batch_distances. intros H. exfalso.
    eapply raises_not_Ok; [|exact H].
    apply bind_raises, batch_separate_unfitted.
  - intros H%batch_distances_length. exists old. split; [done|].
    rewrite H. simpl. unfold to_numpy. by rewrite length_fmap.
  - intros H%pairwise_distances_length. exists old. split; [done|].
    rewrite H. unfold to_numpy. by rewrite length_fmap.
Qed.

Lemma elem_of_unique (l : nat) (labels : list nat) : l ∈ unique labels <-> l ∈ labels.
Proof.
  unfold unique. rewrite list_elem_of_filter, elem_of_seq. split; [by intros [? _]|].
  intros Hl. split; [done|]. pose proof (max_list_elem_of_le _ _ Hl). lia.
Qed.

Lemma NoDup_unique (labels : list nat) : NoDup (unique labels).
Proof. apply NoDup_filter, NoDup_seq. Qed.

Lemma unique_length_le (k : nat) (labels : list nat) :
  Forall (fun l => l < k) labels -> length (unique labels) <= k.
Proof.
  intros Hk. trans (length (seq 0 k)); [|by rewrite length_seq].
  apply submseteq_length, NoDup_submseteq; [apply NoDup_unique|].
  intros l Hl. apply (proj1 (elem_of_unique _ _)) in Hl.
  rewrite Forall_forall in Hk.
  apply elem_of_seq. specialize (Hk l Hl). lia.
Qed.

Lemma unique_length_lt (k p : nat) (labels : list nat) :
  Forall (fun l => l < k) labels -> p < k -> p ∉ labels -> length (unique labels) < k.
Proof.
  intros Hk Hp Hnot.
  assert (length (p :: unique labels) <= length (seq 0 k)) as H.
  { apply submseteq_length, NoDup_submseteq.
    - constructor; [by rewrite elem_of_unique | apply NoDup_unique].
    - rewrite Forall_forall in Hk.
      intros l [->|Hl]%elem_of_cons; apply elem_of_seq; [lia|].
      apply (proj1 (elem_of_unique _ _)) in Hl. specialize (Hk l Hl). lia. }
  rewrite length_seq in H. simpl in H. lia.
Qed.

Lemma StronglySorted_lt_seq (start len : nat) : StronglySorted lt (seq start len).
Proof.
  revert start. induction len as [|len IH]; intros start; simpl; constructor.
  - apply IH.
  - apply Forall_forall. intros x Hx%elem_of_seq. lia.
Qed.

Lemma StronglySorted_lt_filter (P : nat -> Prop) `{forall x, Decision (P x)} (l : list nat) :
  StronglySorted lt l -> StronglySorted lt (filter P l).
Proof.
  induction 1 as [|x l Hl IH Hx]; [constructor|].
  rewrite filter_cons. destruct (decide (P x)); [|done].
  constructor; [done|].
  apply Forall_forall. intros y [_ Hy]%list_elem_of_filter.
  rewrite Forall_forall in Hx. by apply Hx.
Qed.

Lemma StronglySorted_lt_NoDup (l : list nat) : StronglySorted lt l -> NoDup l.
Proof.
  induction 1 as [|x l Hl IH Hx]; constructor; [|done].
  intros Hin. rewrite Forall_forall in Hx. specialize (Hx x Hin). lia.
Qed.

Lemma groupby_mean_labels X labels df :
  groupby_mean X labels = Ok df -> df.*1 = unique labels.
Proof.
  unfold groupby_mean. case_match; [|done]. intros [= <-].
  change (map ?f ?l) with (f <$> l). rewrite <-list_fmap_compose.
  apply list_fmap_id.
Qed.

Lemma to_frame_labels (rows : list (list Q)) : (to_frame rows).*1 = seq 0 (length rows).
Proof. unfold to_frame. apply fst_zip. by rewrite length_seq. Qed.

Lemma unique_StronglySorted (labels : list nat) : StronglySorted lt (unique labels).
Proof. apply StronglySorted_lt_filter, StronglySorted_lt_seq. Qed.

Lemma group_assigned (X : list (list Q)) (labels : list nat) (l : nat) :
  (zip X labels ≫= fun p => if decide (p.2 = l) then [p.1] else [])
  = assigned X labels l.
Proof.
  unfold assigned. induction (zip X labels) as [|p ps IH]; [done|].
  rewrite filter_cons. cbn. cbn in IH. rewrite IH.
  by destruct (decide (p.2 = l)).
Qed.

Lemma assigned_elem_of (X : list (list Q)) (labels : list nat) (l : nat) (x : list Q) :
  x ∈ assigned X labels l -> x ∈ X.
Proof.
  unfold assigned.
  intros ([x' l'] & -> & [_ Hin]%list_elem_of_filter)%list_elem_of_fmap.
  by apply elem_of_zip_l in Hin.
Qed.

Lemma assigned_nonempty (X : list (list Q)) (labels : list nat) (l : nat) :
  length labels = length X -> l ∈ labels -> assigned X labels l <> [].
Proof.
  intros Hlen [i Hi]%list_elem_of_lookup_1.
  destruct (lookup_lt_is_Some_2 X i) as [x Hx].
  { rewrite <-Hlen. by eapply lookup_lt_Some. }
  assert (x ∈ assigned X labels l) as Hin; [|by intros Hnil; rewrite Hnil in Hin;
                                               apply elem_of_nil in Hin].
  unfold assigned. apply list_elem_of_fmap. exists (x, l). split; [done|].
  apply list_elem_of_filter. split; [done|].
  apply list_elem_of_lookup_2 with i. by rewrite lookup_zip_with, Hx, Hi.
Qed.

Lemma column_default (rows : list (list Q)) (j w : nat) :
  Forall (fun row => length row = w) rows -> j < w ->
  column rows j = map (fun row => default 0%Q (row !! j)) rows.
Proof.
  intros Hrows Hj. unfold column. induction Hrows as [|row rows Hrow _ IH]; [done|].
  destruct (lookup_lt_is_Some_2 row j) as [x Hx]; [lia|].
  cbn. rewrite Hx. simpl. f_equal. apply IH.
Qed.

(** [column_means] computes the means of the coordinates. *)
Lemma column_means_spec (rows : list (list Q)) (w : nat) :
  rows <> [] -> Forall (fun row => length row = w) rows ->
  length (column_means rows) = w /\
  forall j m, column_means rows !! j = Some m -> mean_of rows j m.
Proof.
  intros Hne Hrows.
  assert (shape1 rows = w) as Hw.
  { destruct rows as [|row rows]; [done|]. by apply Forall_cons in Hrows as [? _]. }
  unfold column_means. rewrite Hw. split; [by rewrite length_map, length_seq|].
  intros j m. change (map ?f ?l) with (f <$> l). rewrite list_lookup_fmap.
  destruct (seq 0 w !! j) as [j'|] eqn:Hj; [|done].
  apply lookup_seq in Hj as [-> Hj]. simpl. intros [= <-].
  unfold mean_of. rewrite (column_default rows j w) by done.
  field. destruct rows as [|row rows]; [done|].
  change 0%Q with (inject_Z 0). rewrite inject_Z_injective. simpl length. lia.
Qed.

(** [X.groupby(labels).mean()] is the frame of the per-label means. *)
Lemma groupby_mean_means X labels w df :
  Forall (fun x => length x = w) X ->
  groupby_mean X labels = Ok df -> per_label_means X labels w df.
Proof.
  intros HX Hdf. pose proof (groupby_mean_labels _ _ _ Hdf) as Hlabels.
  split; [|split].
  - rewrite Hlabels. apply unique_StronglySorted.
  - intros l. rewrite Hlabels. apply elem_of_unique.
  - unfold groupby_mean in Hdf.
    destruct (length labels =? length X) eqn:Hlen; [|done].
    apply Nat.eqb_eq in Hlen. injection Hdf as <-.
    intros l row (l' & [= <- ->] & Hl)%list_elem_of_fmap.
    apply (proj1 (elem_of_unique _ _)) in Hl.
    rewrite group_assigned.
    pose proof (assigned_nonempty X labels l Hlen Hl) as Hne.
    split; [done|]. apply column_means_spec; [done|].
    apply Forall_forall. intros x Hx%assigned_elem_of.
    rewrite Forall_forall in HX. by apply HX.
Qed.

Lemma new_centroids_means lib self X new w :
  Forall (fun x => length x = w) X ->
  new_centroids lib self X = Ok new ->
  (map_type self = "angle" -> per_label_means X (labels_ self) w new) /\
  (map_type self = "probability" ->
   exists means N,
     per_label_means X (labels_ self) w means /\
     sk_normalize lib (means.*2) = Ok N /\
     new.*2 = N /\ new.*1 = seq 0 (length N)).
Proof.
  intros HX. unfold new_centroids.
  destruct (decide (map_type self = "angle")) as [Ha|Ha].
  { intros Hnew. split; [intros _; by eapply groupby_mean_means|].
    rewrite Ha. by intros [=]. }
  destruct (decide (map_type self = "probability")) as [Hp|Hp]; [|done].
  intros (means & Hmeans & (N & HN & ->)%fmap_Ok)%bind_Ok.
  split; [done|]. intros _. exists means, N.
  split; [by eapply groupby_mean_means|].
  unfold preprocess in HN. rewrite Hp in HN. simpl in HN.
  split; [exact HN|]. split; [|apply to_frame_labels].
  unfold to_frame. apply snd_zip. by rewrite length_seq.
Qed.

Lemma groupby_mean_length X labels df :
  groupby_mean X labels = Ok df -> length df = length (unique labels).
Proof.
  unfold groupby_mean. case_match; [|done]. intros [= <-]. by rewrite length_map.
Qed.

Lemma length_to_frame (rows : list (list Q)) : length (to_frame rows) = length rows.
Proof. unfold to_frame. rewrite length_zip, length_seq. lia. Qed.

Lemma new_centroids_length lib self X new :
  normalize_keeps_rows lib ->
  new_centroids lib self X = Ok new -> length new = length (unique (labels_ self)).
Proof.
  intros Hnorm. unfold new_centroids.
  destruct (decide (map_type self = "angle")); [apply groupby_mean_length|].
  destruct (decide (map_type self = "probability")) as [Hp|]; [|done].
  intros (means & Hmeans%groupby_mean_length & (rows & Hrows & ->)%fmap_Ok)%bind_Ok.
  rewrite length_to_frame, <-Hmeans.
  unfold preprocess in Hrows. rewrite Hp in Hrows. simpl in Hrows.
  apply Hnorm in Hrows. rewrite Hrows. unfold to_numpy. by rewrite length_fmap.
Qed.

Lemma fit_iteration_Ok lib self X batch self' finished :
  fit_iteration lib self X batch = (self', Ok finished) ->
  exists distances labels new,
    estimator_distances self X batch = Ok distances /\
    nearest distances = Ok labels /\
    new_centroids lib (set_labels_ self labels) X = Ok new /\
    finished = converged (set_labels_ self labels) new /\
    self' = set_n_iter_ (set_cluster_centers_ (set_labels_ self labels) (Frame new))
                        (n_iter_ self + 1).
Proof.
  unfold fit_iteration.
  destruct (_ ≫= nearest) as [labels|e] eqn:Hl; [|done].
  apply bind_Ok in Hl as (distances & Hd & Hl).
  destruct (new_centroids _ _ _) as [new|e] eqn:Hnew; [|done].
  intros [= <- <-]. by exists distances, labels, new.
Qed.

Lemma fit_iteration_n_centers lib self X batch :
  normalize_keeps_rows lib ->
  n_centers (fit_iteration lib self X batch).1 <= n_centers self.
Proof.
  intros Hnorm.
  destruct (fit_iteration lib self X batch) as [self' [finished|e]] eqn:Hit.
  - apply fit_iteration_Ok in Hit
      as (distances & labels & new & Hd & Hl & Hnew & _ & ->).
    apply estimator_distances_rows in Hd as (old & Hold & Hrows).
    apply nearest_lt in Hl. apply new_centroids_length in Hnew; [|done].
    unfold n_centers. rewrite Hold. simpl in *.
    rewrite Hnew, <-Hrows. by apply unique_length_le.
  - unfold fit_iteration in Hit.
    destruct (_ ≫= nearest); [|by injection Hit as <-].
    destruct (new_centroids _ _ _); [done|]. by injection Hit as <-.
Qed.

Lemma fit_loop_n_centers lib remaining self X batch iteration :
  normalize_keeps_rows lib ->
  n_centers (fit_loop lib remaining self X batch iteration).1.1 <= n_centers self.
Proof.
  intros Hnorm. revert self iteration.
  induction remaining as [|remaining IH]; intros self iteration; simpl; [done|].
  pose proof (fit_iteration_n_centers lib self X batch Hnorm) as Hle.
  destruct (fit_iteration lib self X batch) as [self' [finished|e]]; simpl in *.
  - destruct finished; simpl; [done|].
    specialize (IH self' (iteration + 1)). lia.
  - done.
Qed.

Lemma fit_init_n_centers {St} lib (rng : RandomState St) self X batch s :
  init self = "qk-means++" \/ init self = "random" ->
  n_centers self <= n_clusters self ->
  n_centers (fit_init lib rng self X batch s).1 <= n_clusters self.
Proof.
  intros Hinit Hle. unfold fit_init.
  destruct (decide (init self = "qk-means++")).
  { destruct (qkmeans_plusplus _ _ _ _ _ _ _ _ _) as [[centers indices]|] eqn:Hseed;
      [|done].
    apply qkmeans_plusplus_seeded in Hseed as [Hc _].
    unfold n_centers. simpl. rewrite length_to_frame. lia. }
  destruct (decide (init self = "random")); [|by destruct Hinit].
  case_match; [done|].
  destruct (mapM _ _) as [rows|] eqn:Hrows; [|done].
  apply mapM_Ok_length in Hrows. unfold n_centers. simpl.
  rewrite length_to_frame, Hrows. unfold choice.
  destruct (permutation rng s (length X)) as [p s']. simpl.
  rewrite length_take. lia.
Qed.

(** C9: a pass of the loop stores the per-label means of the labels it
    assigned, one row per distinct label in ascending order of the labels,
    each coordinate of a row the mean of that coordinate over the points that
    carry the label (under 'probability' the rows of these means are
    normalized again and relabelled from 0);
    every label is below the number of centroids the pass started with, so a
    centroid that received no point makes the stored centroids fewer, and no
    later pass of the loop, however it ends, makes them more again.  A fit
    that seeds its centres starts from at most [n_clusters] of them and ends
    with at most as many. *)
Theorem centroids_follow_assignment {St} (lib : Library) (rng : RandomState St) :
  normalize_keeps_rows lib ->
  (forall self X batch self' finished,
     fit_iteration lib self X batch = (self', Ok finished) ->
     exists old new,
       cluster_centers_ self = Frame old /\
       cluster_centers_ self' = Frame new /\
       new_centroids lib self' X = Ok new /\
       length new = length (unique (labels_ self')) /\
       Forall (fun l => l < length old) (labels_ self') /\
       length new <= length old /\
       (forall p, p < length old -> p ∉ labels_ self' -> length new < length old) /\
       (forall w,
          Forall (fun x => length x = w) X ->
          (map_type self = "angle" -> per_label_means X (labels_ self') w new) /\
          (map_type self = "probability" ->
           exists means N,
             per_label_means X (labels_ self') w means /\
             sk_normalize lib (means.*2) = Ok N /\
             new.*2 = N /\ new.*1 = seq 0 (length N)))) /\
  (forall remaining self X batch iteration,
     n_centers (fit_loop lib remaining self X batch iteration).1.1 <= n_centers self) /\
  (forall self X batch s,
     init self = "qk-means++" \/ init self = "random" ->
     n_centers self <= n_clusters self ->
     n_centers (fit lib rng self X batch s).1 <= n_clusters self).
Proof.
  intros Hnorm. split; [|split].
  - intros self X batch self' finished Hit.
    apply fit_iteration_Ok in Hit
      as (distances & labels & new & Hd & Hl & Hnew & _ & ->).
    apply estimator_distances_rows in Hd as (old & Hold & Hrows).
    apply nearest_lt in Hl. rewrite Hrows in Hl.
    pose proof (new_centroids_length _ _ _ _ Hnorm Hnew) as Hlen. simpl in Hlen.
    exists old, new. simpl.
    split; [done|]. split; [done|]. split; [done|]. split; [done|].
    split; [done|]. split; [|split].
    + rewrite Hlen. by apply unique_length_le.
    + intros p Hp Hnot. rewrite Hlen. by eapply unique_length_lt.
    + intros w HX. apply (new_centroids_means _ _ _ _ _ HX Hnew).
  - intros remaining self X batch iteration. by apply fit_loop_n_centers.
  - intros self X batch s Hinit Hle. unfold fit, fit_trace.
    destruct (preprocess _ _ _ _) as [X'|e]; [|done].
    pose proof (fit_init_n_centers lib rng self X' batch s Hinit Hle) as Hi.
    destruct (fit_init lib rng self X' batch s) as [self' [[]|e]]; simpl in *; [|done].
    pose proof (fit_loop_n_centers lib (max_iter self') self' X' batch 0 Hnorm) as Hl.
    destruct (fit_loop _ _ _ _ _ _) as [[self'' it] r]. simpl in *.
    by etrans.
Qed.

Lemma q_normalize_keeps_rows : normalize_keeps_rows rational_library.
Proof.
  intros M M'. simpl. unfold q_normalize. case_match; [done|].
  intros [= <-]. by rewrite length_map.
Qed.

Lemma centroids_follow_assignment_witness :
  (exists old new,
     cluster_centers_ scaled_estimator = Frame old /\
     cluster_centers_ (fit_iteration rational_library scaled_estimator
                                     scaled_points true).1 = Frame new /\
     length old = 2 /\ length new = 1 /\
     labels_ (fit_iteration rational_library scaled_estimator
                            scaled_points true).1 = [0; 0; 0; 0] /\
     per_label_means scaled_points [0; 0; 0; 0] 2 new) /\
  n_centers (fit_loop rational_library 300 scaled_estimator scaled_points true 0).1.1
  <= n_centers scaled_estimator /\
  n_centers (fit rational_library lcg angle_estimator four_points true 42%N).1
  <= n_clusters angle_estimator.
Proof.
  pose proof (centroids_follow_assignment rational_library lcg q_normalize_keeps_rows)
    as (Hstep & Hloop & Hfit).
  split; [|split; [apply Hloop | apply Hfit; [by left | vm_compute; lia]]].
  destruct (Hstep scaled_estimator scaled_points true
              (fit_iteration rational_library scaled_estimator scaled_points true).1
              false)
    as (old & new & Hold & Hnew & _ & Hlen & _ & _ & _ & Hmeans).
  { apply injective_projections; [reflexivity | vm_compute; reflexivity]. }
  exists old, new. split; [exact Hold|]. split; [exact Hnew|].
  split; [|split; [|split]].
  - injection Hold as <-. reflexivity.
  - rewrite Hlen. vm_compute. reflexivity.
  - vm_compute. reflexivity.
  - apply (Hmeans 2); [repeat constructor | reflexivity].
Defined.

(** ** The convergence test *)

Lemma Qltb_lt (a b : Q) : Qltb a b = true <-> (a < b)%Q.
Proof.
  unfold Qltb. rewrite negb_true_iff, <-not_true_iff_false, Qle_bool_iff.
  split; [apply Qnot_le_lt | apply Qlt_not_le].
Qed.

Lemma Qsum_app (l k : list Q) : (Qsum (l ++ k) == Qsum l + Qsum k)%Q.
Proof.
  induction l as [|q l IH]; simpl.
  - by rewrite Qplus_0_l.
  - rewrite IH. apply Qplus_assoc.
Qed.

Lemma Qsum_map_ext {A} (f g : A -> Q) (l : list A) :
  (forall x, f x == g x)%Q -> (Qsum (map f l) == Qsum (map g l))%Q.
Proof.
  intros H. induction l as [|x l IH]; simpl; [done|]. by rewrite H, IH.
Qed.

Lemma Qsum_map_plus {A} (f g : A -> Q) (l : list A) :
  (Qsum (map (fun x => f x + g x) l) == Qsum (map f l) + Qsum (map g l))%Q.
Proof.
  induction l as [|x l IH]; simpl; [done|]. rewrite IH. ring.
Qed.

Lemma Qsum_map_zero {A} (l : list A) : (Qsum (map (fun _ => 0) l) == 0)%Q.
Proof. induction l as [|x l IH]; simpl; [done|]. rewrite IH. ring. Qed.

Lemma Qsum_row (row : list (option Q)) :
  (Qsum (map (cell_value row) (seq 0 (length row))) == Qsum (omap id row))%Q.
Proof.
  induction row as [|c row IH]; [done|].
  simpl length. rewrite <-cons_seq, <-fmap_S_seq. simpl map.
  change (map (cell_value (c :: row)) (S <$> seq 0 (length row)))
    with (cell_value (c :: row) <$> (S <$> seq 0 (length row))).
  rewrite <-list_fmap_compose.
  change (cell_value (c :: row) ∘ S) with (cell_value row).
  simpl Qsum. rewrite IH. unfold cell_value. simpl.
  destruct c as [q|]; simpl; [reflexivity | apply Qplus_0_l].
Qed.

Lemma Qsum_column (d : list (nat * list (option Q))) (j : nat) (row : nat * list (option Q)) :
  (Qsum (omap (fun row => mjoin (row.2 !! j)) (row :: d))
   == cell_value row.2 j + Qsum (omap (fun row => mjoin (row.2 !! j)) d))%Q.
Proof.
  unfold cell_value. cbn.
  destruct (mjoin (row.2 !! j)); simpl; [reflexivity | symmetry; apply Qplus_0_l].
Qed.

(** Summing the columns first and the column sums next is summing all the
    cells; every row of a frame has as many cells as the frame has columns. *)
Lemma Qsum_columns_rows (d : list (nat * list (option Q))) (width : nat) :
  Forall (fun row => length row.2 = width) d ->
  (Qsum (map (fun j => Qsum (omap (fun row => mjoin (row.2 !! j)) d)) (seq 0 width))
   == Qsum (d ≫= fun row => omap id row.2))%Q.
Proof.
  induction 1 as [|row d Hrow Hd IH].
  - apply Qsum_map_zero.
  - rewrite (Qsum_map_ext _ _ _ (fun j => Qsum_column d j row)).
    rewrite Qsum_map_plus, IH. cbn.
    rewrite Qsum_app, <-Hrow. by rewrite Qsum_row.
Qed.

Lemma frame_sub_widths (a b : DataFrame) :
  Forall (fun row => length row.2 = shape1 (a.*2) `max` shape1 (b.*2)) (frame_sub a b).
Proof.
  unfold frame_sub. apply Forall_fmap, Forall_true. intros l. simpl.
  destruct (loc a l), (loc b l);
    by rewrite ?length_map, ?length_seq, ?length_replicate.
Qed.

Lemma centroid_shift_elementwise (new old : DataFrame) :
  (centroid_shift new old == Qabs (Qsum (elementwise_differences new old)))%Q.
Proof.
  unfold centroid_shift, elementwise_differences, sum_axis0.
  apply Qabs_wd.
  pose proof (frame_sub_widths new old) as Hw.
  destruct (frame_sub new old) as [|row d] eqn:Hd; [done|].
  apply Qsum_columns_rows.
  apply Forall_cons in Hw as [Hrow Hw]. simpl shape1 at 1.
  constructor; [done|]. by rewrite Hrow.
Qed.

(** The sorted distinct labels of two frames with the same ascending labels
    are those labels. *)
Lemma unique_sorted (labels : list nat) :
  StronglySorted lt labels -> unique (labels ++ labels) = labels.
Proof.
  intros Hsorted. apply (StronglySorted_unique_strong lt).
  - intros x1 x2 _ _ ??. lia.
  - apply StronglySorted_lt_filter, StronglySorted_lt_seq.
  - done.
  - apply NoDup_Permutation;
      [apply NoDup_unique | by apply StronglySorted_lt_NoDup |].
    intros x. rewrite elem_of_unique, elem_of_app. tauto.
Qed.

Lemma loc_lookup (df : DataFrame) (i l : nat) (row : list Q) :
  NoDup (df.*1) -> df !! i = Some (l, row) -> loc df l = Some row.
Proof.
  intros Hnd Hi. unfold loc.
  destruct (list_find (fun p => p.1 = l) df) as [[j p]|] eqn:Hfind.
  - apply list_find_Some in Hfind as (Hj & Hp & _).
    assert (i = j) as <-.
    { apply (NoDup_lookup (df.*1) i j l Hnd); rewrite list_lookup_fmap.
      - by rewrite Hi.
      - rewrite Hj. simpl. by rewrite Hp. }
    rewrite Hi in Hj. by injection Hj as <-.
  - exfalso. apply list_find_None in Hfind.
    rewrite Forall_forall in Hfind.
    apply (Hfind (l, row)); [by eapply list_elem_of_lookup_2 | done].
Qed.

Lemma difference_row (ra rb : list Q) (w : nat) :
  length ra = w -> length rb = w ->
  map (fun j => match ra !! j, rb !! j with
                | Some x, Some y => Some (x - y)%Q
                | _, _ => None
                end) (seq 0 w)
  = map Some (zip_with Qminus ra rb).
Proof.
  revert rb w. induction ra as [|x ra IH]; intros [|y rb] [|w] Ha Hb;
    simplify_eq/=; [done|].
  f_equal. rewrite <-fmap_S_seq.
  change (map ?f (S <$> ?l)) with (f <$> (S <$> l)).
  rewrite <-list_fmap_compose. by apply IH.
Qed.

Lemma omap_id_Some {A} (l : list A) : omap id (map Some l) = l.
Proof. induction l as [|x l IH]; [done|]. cbn. by rewrite IH. Qed.



















(** ** Frames with the same row labels *)

(** When no centroid is lost, so that the new and the old centroids carry
    the same ascending labels and have rows of the same width, the difference
    frame has no NaN and its cells are the differences of all the
    coordinates, row by row. *)
Theorem elementwise_differences_aligned (new old : DataFrame) (w : nat) :
  new.*1 = old.*1 ->
  StronglySorted lt (new.*1) ->
  Forall (fun row => length row.2 = w) new ->
  Forall (fun row => length row.2 = w) old ->
  elementwise_differences new old
  = concat (zip_with (fun a b => zip_with Qminus a.2 b.2) new old).
Proof.
  intros Hlabels Hsorted Hnew Hold.
  assert (frame_sub new old
          = zip_with (fun a b => (a.1, map Some (zip_with Qminus a.2 b.2))) new old)
    as Hsub.
  { unfold frame_sub. rewrite <-Hlabels, unique_sorted by done.
    assert (NoDup (new.*1)) as Hnd by (by apply StronglySorted_lt_NoDup).
    apply list_eq. intros i.
    change (map ?f (new.*1)) with (f <$> new.*1).
    rewrite list_lookup_fmap, list_lookup_fmap, lookup_zip_with.
    destruct (new !! i) as [[l ra]|] eqn:Hi; [|done]. simpl.
    assert (exists rb, old !! i = Some (l, rb)) as [rb Hi'].
    { assert ((old.*1) !! i = Some l) as Hl.
      { rewrite <-Hlabels, list_lookup_fmap, Hi. done. }
      rewrite list_lookup_fmap in Hl.
      destruct (old !! i) as [[l' rb]|]; [|done]. simplify_eq/=. by exists rb. }
    rewrite Hi'. simpl.
    rewrite (loc_lookup new i l ra), (loc_lookup old i l rb);
      [|by rewrite <-Hlabels|done..].
    do 2 f_equal.
    assert (length ra = w) as Hra.
    { rewrite Forall_forall in Hnew.
      by apply (Hnew (l, ra)), list_elem_of_lookup_2 with i. }
    assert (length rb = w) as Hrb.
    { rewrite Forall_forall in Hold.
      by apply (Hold (l, rb)), list_elem_of_lookup_2 with i. }
    assert (shape1 (new.*2) = w) as ->.
    { destruct new as [|a new]; [done|]. apply Forall_cons in Hnew as [? _]. done. }
    assert (shape1 (old.*2) = w) as ->.
    { destruct old as [|a old]; [done|]. apply Forall_cons in Hold as [? _]. done. }
    rewrite Nat.max_id. by apply difference_row. }
  unfold elementwise_differences. rewrite Hsub.
  clear. revert old. induction new as [|a new IH]; intros [|b old]; try done.
  cbn. rewrite omap_id_Some. f_equal. apply IH.
Qed.

Lemma elementwise_differences_aligned_witness :
  elementwise_differences half_means (to_frame two_centers)
  = concat (zip_with (fun a b => zip_with Qminus a.2 b.2)
                     half_means (to_frame two_centers)).
Proof.
  apply (elementwise_differences_aligned _ _ 2).
  - reflexivity.
  - repeat constructor.
  - repeat constructor.
  - repeat constructor.
Defined.

(** ** Estimators that hold no centres *)

Lemma estimator_distances_unfitted self X batch :
  cluster_centers_ self = Unfitted -> raises (estimator_distances self X batch).
Proof.
  intros Hc. unfold estimator_distances. rewrite Hc. destruct batch.
  - unfold batch_distances. apply bind_raises, batch_separate_unfitted.
  - by eexists.
Qed.

(** Before any fit [cluster_centers_] is [np.empty(0)], and [predict] never
    returns labels from it: the batcher fails on the 1-D array, and the
    unbatched branch fails with AttributeError, an array having no
    [iterrows]. *)
Theorem predict_unfitted_raises lib self X sample_weight batch :
  cluster_centers_ self = Unfitted ->
  raises (predict lib self X sample_weight batch) /\
  (forall X', preprocess lib X (map_type self) (norm_relevance self) = Ok X' ->
              predict lib self X None false = Raise AttributeError).
Proof.
  intros Hc. split.
  - unfold predict. apply bind_raises_all. intros X'.
    apply bind_raises. destruct sample_weight as [w|].
    + apply bind_raises_all. intros weight_X.
      pose proof (estimator_distances_unfitted self weight_X batch Hc) as [e He].
      destruct batch; rewrite He; by eexists.
    + destruct (estimator_distances_unfitted self X' batch Hc) as [e ->]. by eexists.
  - intros X' HX. unfold predict. rewrite HX. simpl.
    unfold estimator_distances. by rewrite Hc.
Qed.

Lemma predict_unfitted_raises_witness :
  raises (predict rational_library angle_estimator four_points None true) /\
  predict rational_library angle_estimator four_points None false = Raise AttributeError.
Proof.
  destruct (predict_unfitted_raises rational_library angle_estimator four_points None true)
    as [H1 H2]; [reflexivity|].
  split; [exact H1|]. eapply H2. reflexivity.
Defined.

Lemma fit_loop_unfitted lib remaining self X batch iteration :
  cluster_centers_ self = Unfitted ->
  (fit_loop lib remaining self X batch iteration).1.1 = self /\
  (0 < remaining -> raises (fit_loop lib remaining self X batch iteration).2).
Proof.
  intros Hc. destruct remaining as [|remaining]; simpl; [split; [done|lia]|].
  unfold fit_iteration.
  destruct (estimator_distances_unfitted self X batch Hc) as [e ->]. simpl.
  split; [done|]. intros _. by eexists.
Qed.

(** [fit] has cases for the two strings 'qk-means++' and 'random' only.  With
    any other [init] a fresh estimator keeps its empty centres: the fit
    changes nothing on the estimator, it raises in its first iteration, and
    it returns normally only when [max_iter] is 0. *)
Theorem fit_unknown_init {St} lib (rng : RandomState St) self X batch s :
  init self <> "qk-means++" -> init self <> "random" ->
  cluster_centers_ self = Unfitted ->
  (fit lib rng self X batch s).1 = self /\
  (0 < max_iter self -> raises (fit lib rng self X batch s).2) /\
  (max_iter self = 0 ->
   forall X', preprocess lib X (map_type self) (norm_relevance self) = Ok X' ->
              (fit lib rng self X batch s).2 = Ok ()).
Proof.
  intros H1 H2 Hc. unfold fit, fit_trace, fit_init.
  destruct (preprocess _ _ _ _) as [X'|e]; simpl.
  - destruct (decide (init self = "qk-means++")); [done|].
    destruct (decide (init self = "random")); [done|].
    pose proof (fit_loop_unfitted lib (max_iter self) self X' batch 0 Hc) as [Hs Hr].
    destruct (fit_loop _ _ _ _ _ _) as [[self' it] r] eqn:Hloop. simpl in *.
    repeat split; [done..|].
    intros Hm X0 [= <-]. rewrite Hm in Hloop. simpl in Hloop. by injection Hloop as <- <- <-.
  - repeat split; [by eexists | done].
Qed.

Lemma fit_unknown_init_witness :
  (fit rational_library lcg unseeded_estimator four_points true 42%N).1
  = unseeded_estimator /\
  raises (fit rational_library lcg unseeded_estimator four_points true 42%N).2.
Proof.
  destruct (fit_unknown_init rational_library lcg unseeded_estimator four_points true 42%N)
    as (Hself & Hraises & _); [discriminate | discriminate | reflexivity |].
  split; [exact Hself|]. apply Hraises. simpl. lia.
Defined.

(** ** Encodings [preprocess] does not know *)

(** With a [map_type] other than 'angle' and 'probability', [preprocess]
    returns a name it never assigned: [fit] and [predict] raise
    UnboundLocalError before they measure anything, and [fit] leaves the
    estimator as it was. *)
Theorem unknown_map_type_raises {St} lib (rng : RandomState St) self X sample_weight batch s :
  map_type self <> "angle" -> map_type self <> "probability" ->
  fit lib rng self X batch s = (self, Raise UnboundLocalError) /\
  predict lib self X sample_weight batch = Raise UnboundLocalError.
Proof.
  intros H1 H2.
  assert (preprocess lib X (map_type self) (norm_relevance self)
          = Raise UnboundLocalError) as HX.
  { unfold preprocess. by repeat case_decide. }
  unfold fit, fit_trace, predict. by rewrite HX.
Qed.

Lemma unknown_map_type_raises_witness :
  fit rational_library lcg amplitude_estimator four_points true 42%N
  = (amplitude_estimator, Raise UnboundLocalError) /\
  predict rational_library amplitude_estimator four_points None true
  = Raise UnboundLocalError.
Proof.
  apply unknown_map_type_raises; discriminate.
Defined.

(** ** The precondition of the batcher *)

Lemma batch_separate_not_implemented X clusters m :
  batch_separate X clusters m = Raise NotImplementedError <->
  length X <= shape0 clusters.
Proof.
  unfold batch_separate.
  destruct (shape0 clusters <? length X) eqn:Hlt.
  - apply Nat.ltb_lt in Hlt. split; [|lia].
    destruct (m =? 0); [done|].
    unfold np_asarray. destruct (same_length _); simpl; [|done].
    by destruct clusters.
  - apply Nat.ltb_ge in Hlt. done.
Qed.

(** The batcher raises NotImplementedError exactly when the data have no more
    rows than there are centres; so do [batch_distances], a batched [predict]
    and a batched pass of [fit] on such data, e.g. on a single point. *)
Theorem batcher_needs_more_points_than_centers :
  (forall X clusters m,
     batch_separate X clusters m = Raise NotImplementedError <->
     length X <= shape0 clusters) /\
  (forall X clusters backend map_type,
     length X <= shape0 clusters ->
     batch_distances X clusters backend map_type = Raise NotImplementedError) /\
  (forall lib self X X' old,
     cluster_centers_ self = Frame old ->
     preprocess lib X (map_type self) (norm_relevance self) = Ok X' ->
     length X' <= length old ->
     predict lib self X None true = Raise NotImplementedError /\
     (fit_iteration lib self X' true) = (self, Raise NotImplementedError)).
Proof.
  split; [apply batch_separate_not_implemented|].
  assert (forall X clusters backend map_type,
            length X <= shape0 clusters ->
            batch_distances X clusters backend map_type = Raise NotImplementedError)
    as Hbd.
  { intros X clusters backend map_type Hle. unfold batch_distances.
    by rewrite (proj2 (batch_separate_not_implemented X clusters _) Hle). }
  split; [exact Hbd|].
  intros lib self X X' old Hc HX Hle.
  assert (estimator_distances self X' true = Raise NotImplementedError) as Hd.
  { unfold estimator_distances. rewrite Hc. apply Hbd. simpl.
    unfold to_numpy. by rewrite length_fmap. }
  split.
  - unfold predict. rewrite HX. simpl. by rewrite Hd.
  - unfold fit_iteration. by rewrite Hd.
Qed.

Lemma batcher_needs_more_points_than_centers_witness :
  predict rational_library fitted_estimator [[1; 2]; [5; 6]]%Q None true
  = Raise NotImplementedError.
Proof.
  eapply (proj2 (proj2 batcher_needs_more_points_than_centers)
            rational_library fitted_estimator).
  - reflexivity.
  - vm_compute. reflexivity.
  - simpl. lia.
Defined.

(** ** The batches of a dataset *)

(** When the batch size divides the number of rows or exceeds it,
    [batch_separate] cuts the data into consecutive chunks of
    [min(max_experiments, n)] rows and pairs every chunk with every centre,
    chunk by chunk: the chunks, concatenated, are the data. *)
Theorem batch_separate_pairs X centers m :
  length centers < length X ->
  m <> 0 -> ((length X `mod` m) = 0 \/ length X < m) ->
  exists chunks,
    batch_separate X (Rows centers) m
    = Ok (chunks ≫= fun chunk => (fun y => (chunk, y)) <$> centers) /\
    concat chunks = X /\
    Forall (fun chunk => length chunk = m `min` length X) chunks.
Proof.
  intros Hk Hm Hdiv. unfold batch_separate. simpl.
  assert ((length centers <? length X) = true) as -> by (apply Nat.ltb_lt; lia).
  assert ((m =? 0) = false) as -> by (by apply Nat.eqb_neq).
  destruct (length X `mod` m =? 0) eqn:Hmod.
  - apply Nat.eqb_eq in Hmod.
    pose proof (Nat.div_mod_eq (length X) m) as Hdm. rewrite Hmod in Hdm.
    destruct (length X `div` m) as [|q] eqn:Hq; [lia|]. simpl.
    rewrite Nat.sub_0_r.
    destruct (np_split_from_even X m 0 q) as [Hall Hcat]; [lia|].
    simpl in Hall, Hcat. unfold np_split.
    exists (np_split_from 0 X (map (fun i => i * m) (seq 1 q))).
    unfold np_asarray. rewrite (same_length_Forall _ m Hall). simpl.
    repeat split; [|done|].
    + f_equal. rewrite <-zip_repeat_tile. do 2 f_equal.
      by rewrite length_np_split_from, length_map, length_seq.
    + replace (m `min` length X) with m by nia. done.
  - apply Nat.eqb_neq in Hmod. destruct Hdiv as [Hdiv|Hlt]; [done|].
    rewrite Nat.div_small by done. simpl.
    exists [X]. simpl. rewrite !app_nil_r.
    repeat split.
    + f_equal. apply (zip_replicate_l X centers).
    + repeat constructor. lia.
Qed.

Lemma batch_separate_pairs_witness :
  exists chunks,
    batch_separate four_points (Rows two_centers) 2
    = Ok (chunks ≫= fun chunk => (fun y => (chunk, y)) <$> two_centers) /\
    concat chunks = four_points /\
    Forall (fun chunk => length chunk = 2 `min` length four_points) chunks.
Proof.
  apply batch_separate_pairs; [simpl; lia | lia | left; reflexivity].
Defined.

(** ** Batched fits with three or more clusters *)

(** The batched pipeline on three or more centres, whatever the rest. *)
Lemma batch_distances_third_row X centers backend map_type :
  3 <= length centers ->
  raises (batch_distances X (Rows centers) backend map_type).
Proof.
  intros Hk. unfold batch_distances.
  destruct (batch_separate _ _ _) as [batches|e] eqn:Hb; simpl; [|by eexists].
  apply batch_separate_length in Hb as (n_chunks & Hn & Hlen).
  destruct (mapM _ batches) as [distance_list|e] eqn:Hd; simpl; [|by eexists].
  apply mapM_Ok_length in Hd.
  destruct (distance_array _) as [batch_d|e] eqn:Ha; simpl; [|by eexists].
  apply length_distance_array in Ha.
  rewrite (batch_collect_raises batch_d (length centers) (length X) n_chunks);
    [by eexists | done | done | congruence].
Qed.

Lemma best_candidate_batched_raises {St} (rng : RandomState St) X backend map_type
    n_local_trials closest pot s :
  (forall s n, length (random_sample rng s n).1 = n) ->
  3 <= n_local_trials ->
  raises (best_candidate rng X backend map_type true n_local_trials closest pot s).
Proof.
  intros Hrng Ht. unfold best_candidate.
  specialize (Hrng s n_local_trials).
  destruct (random_sample rng s n_local_trials) as [samples s']. simpl in Hrng.
  apply bind_raises_all. intros p.
  apply bind_raises_all. intros cum.
  destruct (mapM _ _) as [candidates|e] eqn:Hc; simpl; [|by eexists].
  apply mapM_Ok_length in Hc. rewrite !length_map in Hc.
  apply bind_raises. unfold seeding_distances.
  apply batch_distances_third_row. lia.
Qed.

Lemma int_log_three (n l : nat) : 3 <= n -> int_log n = Ok l -> 1 <= l.
Proof.
  intros Hn. unfold int_log.
  destruct (n =? 0); [done|]. intros [= <-].
  rewrite filter_cons_True by lia. simpl. lia.
Qed.

Lemma qkmeans_plusplus_batched_raises {St} (rng : RandomState St) X n_clusters backend
    map_type initial_center s :
  (forall s n, length (random_sample rng s n).1 = n) ->
  3 <= n_clusters ->
  raises (qkmeans_plusplus rng X n_clusters backend map_type initial_center true None s).
Proof.
  intros Hrng Hk. unfold qkmeans_plusplus.
  destruct (int_log n_clusters) as [l|e] eqn:Hl; simpl; [|by eexists].
  apply int_log_three in Hl; [|done].
  destruct (length X =? 0); [by eexists|].
  destruct (randint rng s (length X)) as [center_id s1].
  destruct (n_clusters =? 0); [by eexists|].
  apply bind_raises_all. intros row.
  apply bind_raises_all. intros closest.
  apply bind_raises_all. intros pot.
  apply bind_raises.
  destruct (n_clusters - 1) as [|remaining] eqn:Hr; [lia|]. simpl.
  apply bind_raises. unfold seeding_step. apply bind_raises.
  apply best_candidate_batched_raises; [done | lia].
Qed.

(** A batched [fit] ([batch=True] is the default) with three or more clusters
    never succeeds.  Seeded by 'qk-means++' it draws [2 + int(log(n_clusters))],
    that is three or more, candidates and measures them with the batcher, which
    fails from three centres on: [fit] raises and the estimator is left as it
    was.  Seeded by 'random' it raises in its first iteration. *)
Theorem batched_fit_three_clusters {St} lib (rng : RandomState St) self X s :
  (forall s n, length (random_sample rng s n).1 = n) ->
  (forall s n, length (permutation rng s n).1 = n) ->
  3 <= n_clusters self ->
  (init self = "qk-means++" ->
   raises (fit lib rng self X true s).2 /\ (fit lib rng self X true s).1 = self) /\
  (init self = "random" -> 0 < max_iter self ->
   raises (fit lib rng self X true s).2 /\
   n_iter_ (fit lib rng self X true s).1 = n_iter_ self).
Proof.
  intros Hsample Hperm Hk. split.
  - intros Hinit. unfold fit, fit_trace.
    destruct (preprocess _ _ _ _) as [X'|e]; simpl; [|split; [by eexists | done]].
    unfold fit_init. rewrite Hinit. simpl.
    destruct (qkmeans_plusplus_batched_raises rng X' (n_clusters self) (backend self)
                (map_type self) (initial_center self) s Hsample Hk) as [e ->].
    simpl. split; [by eexists | done].
  - intros Hinit Hmax. unfold fit, fit_trace.
    destruct (preprocess _ _ _ _) as [X'|e]; simpl; [|split; [by eexists | done]].
    unfold fit_init. rewrite Hinit. simpl.
    destruct (length X' <? n_clusters self) eqn:Hn; simpl; [split; [by eexists | done]|].
    apply Nat.ltb_ge in Hn.
    destruct (mapM _ _) as [rows|e] eqn:Hrows; simpl; [|split; [by eexists | done]].
    apply mapM_Ok_length in Hrows. unfold choice in Hrows.
    specialize (Hperm s (length X')).
    destruct (permutation rng s (length X')) as [p s']. simpl in Hperm, Hrows.
    rewrite length_take in Hrows.
    destruct (max_iter self) as [|remaining]; [lia|]. simpl.
    unfold fit_iteration, estimator_distances. simpl.
    destruct (batch_distances_third_row X' (to_numpy (to_frame rows)) (backend self)
                (map_type self)) as [e ->].
    { unfold to_numpy. rewrite length_fmap, length_to_frame. lia. }
    simpl. split; [by eexists | done].
Qed.

Lemma lcg_samples_length (s : N) (n : nat) : length (lcg_samples s n).1 = n.
Proof.
  revert s. induction n as [|n IH]; intros s; simpl; [done|].
  specialize (IH (lcg_next s)). destruct (lcg_samples (lcg_next s) n) as [rest s'].
  simpl in *. by rewrite IH.
Qed.

Lemma lcg_permutation_length (s : N) (n : nat) : length (permutation lcg s n).1 = n.
Proof.
  simpl. rewrite length_app, length_drop, length_take, length_seq. lia.
Qed.

Lemma batched_fit_three_clusters_witness :
  raises (fit rational_library lcg three_cluster_estimator four_points true 42%N).2 /\
  (fit rational_library lcg three_cluster_estimator four_points true 42%N).1
  = three_cluster_estimator.
Proof.
  apply (proj1 (batched_fit_three_clusters rational_library lcg three_cluster_estimator
                  four_points 42%N lcg_samples_length lcg_permutation_length
                  (le_n 3))).
  reflexivity.
Defined.

(** ** The potential of the seeder *)

Lemma floats_Ok (cells : list cell) (qs : list Q) :
  floats cells = Ok qs <-> cells = Some <$> qs.
Proof.
  unfold floats. rewrite mapM_Ok_Forall2. split.
  - induction 1 as [|c q cells qs Hc _ IH]; [done|].
    destruct c as [q'|]; [|done]. injection Hc as ->. simpl. by rewrite IH.
  - intros ->. induction qs as [|q qs IH]; simpl; by constructor.
Qed.

Lemma Qmin_rows_le (a b : list Q) :
  length b = length a -> Forall2 Qle (zip_with Qmin a b) a.
Proof.
  revert b. induction a as [|x a IH]; intros [|y b] Hlen; simpl in *; try done.
  constructor; [apply Q.le_min_l | apply IH; lia].
Qed.

Lemma Qsum_le (a b : list Q) : Forall2 Qle a b -> (Qsum a <= Qsum b)%Q.
Proof.
  induction 1 as [|x y a b Hxy _ IH]; simpl; [apply Qle_refl|].
  by apply Qplus_le_compat.
Qed.

(** What a draw of candidates (lines 506-521) returns: a row index of the
    data, closest distances that are the old ones or smaller, and their sum
    as the potential. *)
Lemma best_candidate_Ok {St} (rng : RandomState St) X backend map_type batch
    n_local_trials closest pot s best closest' pot' s' :
  best_candidate rng X backend map_type batch n_local_trials closest pot s
  = Ok (best, closest', pot', s') ->
  best < length X /\
  exists cs cs',
    closest = Some <$> cs /\ closest' = Some <$> cs' /\
    Forall2 Qle cs' cs /\ pot' = Some (Qsum cs').
Proof.
  unfold best_candidate.
  destruct (random_sample rng s n_local_trials) as [samples s1].
  intros (p & _ & H)%bind_Ok.
  apply bind_Ok in H as (cum & Hcum & H).
  apply bind_Ok in H as (candidates & Hcand & H).
  apply bind_Ok in H as (D & _ & H).
  apply bind_Ok in H as (D' & HD' & H).
  apply bind_Ok in H as (k & Hk & H).
  apply bind_Ok in H as (current_pot & Hpot%item_Ok & H).
  apply bind_Ok in H as (row & Hrow%item_Ok & H).
  apply bind_Ok in H as (best' & Hbest%item_Ok & [= <- <- <- <-]).
  split.
  - rewrite mapM_Ok_Forall2 in Hcand.
    destruct (Forall2_lookup_l _ _ _ _ _ Hcand Hbest) as (x & _ & Hx%item_Ok).
    by apply lookup_lt_Some in Hx.
  - unfold stable_cumsum in Hcum.
    apply bind_Ok in Hcum as (cs & Hcs & _).
    exists cs, row. split; [by apply floats_Ok|]. split; [done|].
    rewrite list_lookup_fmap, Hrow in Hpot. injection Hpot as <-.
    split; [|done].
    unfold np_minimum in HD'. destruct D as [|d D]; [done|].
    rewrite mapM_Ok_Forall2 in HD'.
    destruct (Forall2_lookup_r _ _ _ _ _ HD' Hrow) as (r & _ & Hr).
    destruct (length r =? length closest) eqn:Hlen; [|done].
    apply Nat.eqb_eq in Hlen.
    apply bind_Ok in Hr as (a & Ha & (b & Hb & [= <-])%bind_Ok).
    rewrite Hcs in Ha. injection Ha as <-.
    apply Qmin_rows_le.
    apply floats_length in Hb. apply floats_length in Hcs. lia.
Qed.

Lemma Forall2_Qle_trans (a b c : list Q) :
  Forall2 Qle a b -> Forall2 Qle b c -> Forall2 Qle a c.
Proof.
  intros Hab. revert c. induction Hab as [|x y a b Hxy _ IH]; intros c Hbc.
  - by inversion Hbc.
  - inversion Hbc as [|? z ? c' Hyz Hbc']; subst. constructor; [|by apply IH].
    by eapply Qle_trans.
Qed.

Lemma Forall2_Qle_refl (a : list Q) : Forall2 Qle a a.
Proof. induction a; constructor; [apply Qle_refl | done]. Qed.

Lemma seeding_step_closest {St} (rng : RandomState St) X backend map_type
    initial_center batch n_local_trials c st st' :
  seeding_step rng X backend map_type initial_center batch n_local_trials c st = Ok st' ->
  c <> 1 \/ initial_center <> "far" ->
  exists cs cs',
    st_closest_distances st = Some <$> cs /\
    st_closest_distances st' = Some <$> cs' /\
    Forall2 Qle cs' cs /\
    st_current_pot st' = Some (Qsum cs').
Proof.
  unfold seeding_step.
  intros ([[[best closest] pot] s] & Hbest & (row & _ & Hst)%bind_Ok)%bind_Ok Hfar.
  apply best_candidate_Ok in Hbest as (_ & cs & cs' & Hcs & -> & Hle & ->).
  assert (bool_decide (c = 1) && bool_decide (initial_center = "far") = false) as Hb.
  { apply andb_false_iff. destruct Hfar; [left|right]; by apply bool_decide_eq_false. }
  rewrite Hb in Hst. injection Hst as <-. simpl.
  by exists cs, cs'.
Qed.

(** Without the 'far' re-seeding (which starts from the distances to the
    second centre alone), no step of the seeder makes any point's closest
    distance larger: over the whole loop the closest distances decrease
    pointwise, so does their sum, and [current_pot] is that sum. *)
Theorem seeding_potential_decreases {St} (rng : RandomState St) X backend map_type
    initial_center batch n_local_trials remaining c st st' cs :
  seeding_loop rng X backend map_type initial_center batch n_local_trials remaining c st
  = Ok st' ->
  1 < c \/ initial_center <> "far" ->
  st_closest_distances st = Some <$> cs ->
  exists cs',
    st_closest_distances st' = Some <$> cs' /\
    Forall2 Qle cs' cs /\
    (Qsum cs' <= Qsum cs)%Q /\
    (0 < remaining -> st_current_pot st' = Some (Qsum cs')).
Proof.
  revert c st cs. induction remaining as [|remaining IH]; intros c st cs; simpl.
  - intros [= <-] _ Hcs. exists cs.
    split; [done|]. split; [apply Forall2_Qle_refl|]. split; [apply Qle_refl | lia].
  - intros (st1 & Hstep & Hloop)%bind_Ok Hfar Hcs.
    apply seeding_step_closest in Hstep as (cs0 & cs1 & Hcs0 & Hcs1 & Hle & Hpot);
      [|destruct Hfar; [left; lia | by right]].
    rewrite Hcs in Hcs0. apply (inj (fmap Some)) in Hcs0 as <-.
    destruct (IH (S c) st1 cs1 Hloop) as (cs' & Hcs' & Hle' & _ & Hpot');
      [destruct Hfar; [left; lia | by right] | done |].
    exists cs'. split; [done|].
    assert (Forall2 Qle cs' cs) as Hall by by eapply Forall2_Qle_trans.
    split; [done|]. split; [by apply Qsum_le|]. intros _.
    destruct remaining as [|remaining]; [|apply Hpot'; lia].
    simpl in Hloop. injection Hloop as <-.
    rewrite Hcs1 in Hcs'. apply (inj (fmap Some)) in Hcs' as <-. done.
Qed.

Lemma seeding_potential_decreases_witness :
  exists st' cs',
    seeding_loop lcg four_points (simulator 2) "angle" "random" true 2 1 1 seeded_first
    = Ok st' /\
    st_closest_distances st' = Some <$> cs' /\
    Forall2 Qle cs' [0; 2 # 1024; 4 # 1024; 6 # 1024]%Q /\
    (Qsum cs' <= Qsum [0; 2 # 1024; 4 # 1024; 6 # 1024])%Q /\
    (0 < 1 -> st_current_pot st' = Some (Qsum cs')).
Proof.
  assert (exists st',
            seeding_loop lcg four_points (simulator 2) "angle" "random" true 2 1 1
                         seeded_first = Ok st') as [st' Hloop]
    by (eexists; vm_compute; reflexivity).
  destruct (seeding_potential_decreases _ _ _ _ _ _ _ _ _ _ _
              [0; 2 # 1024; 4 # 1024; 6 # 1024]%Q Hloop) as (cs' & Hcs');
    [right; discriminate | reflexivity |].
  exists st', cs'. exact (conj Hloop Hcs').
Defined.

(** ** Seeds that are kept *)

Lemma seeding_step_keeps {St} (rng : RandomState St) X backend map_type initial_center
    batch n_local_trials c st st' :
  seeding_step rng X backend map_type initial_center batch n_local_trials c st = Ok st' ->
  c <> 1 \/ initial_center <> "far" ->
  forall j, j <> c ->
    st_centers st' !! j = st_centers st !! j /\
    st_indices st' !! j = st_indices st !! j.
Proof.
  unfold seeding_step.
  intros ([[[best closest] pot] s] & _ & (row & _ & Hst)%bind_Ok)%bind_Ok Hfar j Hj.
  assert (bool_decide (c = 1) && bool_decide (initial_center = "far") = false) as Hb.
  { apply andb_false_iff. destruct Hfar; [left|right]; by apply bool_decide_eq_false. }
  rewrite Hb in Hst. injection Hst as <-. simpl.
  by rewrite !list_lookup_insert_ne.
Qed.

Lemma seeding_loop_keeps {St} (rng : RandomState St) X backend map_type initial_center
    batch n_local_trials remaining c st st' :
  seeding_loop rng X backend map_type initial_center batch n_local_trials remaining c st
  = Ok st' ->
  1 < c \/ initial_center <> "far" ->
  forall j, j < c ->
    st_centers st' !! j = st_centers st !! j /\
    st_indices st' !! j = st_indices st !! j.
Proof.
  revert c st. induction remaining as [|remaining IH]; intros c st; simpl.
  - by intros [= <-].
  - intros (st1 & Hstep & Hloop)%bind_Ok Hfar j Hj.
    destruct (seeding_step_keeps _ _ _ _ _ _ _ _ _ _ Hstep) with (j := j) as [Hc Hi];
      [destruct Hfar; [left; lia | by right] | lia |].
    destruct (IH _ _ Hloop) with (j := j) as [Hc' Hi'];
      [destruct Hfar; [left; lia | by right] | lia |].
    split; congruence.
Qed.

(** Without 'far' the seeder only appends: a step writes the centre and the
    index of its own position, so the first centre returned is the row that
    [randint] drew. *)
Theorem first_seed_is_the_draw {St} (rng : RandomState St) X n_clusters backend
    map_type initial_center batch n_local_trials s centers indices :
  qkmeans_plusplus rng X n_clusters backend map_type initial_center batch
                   n_local_trials s = Ok (centers, indices) ->
  initial_center <> "far" ->
  indices !! 0 = Some (Z.of_nat (randint rng s (length X)).1) /\
  centers !! 0 = X !! (randint rng s (length X)).1.
Proof.
  unfold qkmeans_plusplus. intros Hrun Hfar.
  apply bind_Ok in Hrun as (trials & _ & Hrun).
  destruct (length X =? 0); [done|].
  destruct (randint rng s (length X)) as [center_id s1]. simpl.
  destruct (n_clusters =? 0) eqn:Hk; [done|]. apply Nat.eqb_neq in Hk.
  apply bind_Ok in Hrun as (row & Hrow%item_Ok & Hrun).
  apply bind_Ok in Hrun as (closest & _ & Hrun).
  apply bind_Ok in Hrun as (pot & _ & Hrun).
  apply bind_Ok in Hrun as (st & Hloop & [= <- <-]).
  destruct (seeding_loop_keeps _ _ _ _ _ _ _ _ _ _ _ Hloop) with (j := 0) as [Hc Hi];
    [by right | lia |].
  simpl in Hc, Hi. rewrite Hc, Hi, Hrow.
  rewrite !list_lookup_insert_eq by (rewrite length_replicate; lia). done.
Qed.

Lemma first_seed_is_the_draw_witness :
  exists centers indices,
    qkmeans_plusplus lcg four_points 2 (simulator 2) "angle" "random" true None 42%N
    = Ok (centers, indices) /\
    indices !! 0 = Some (Z.of_nat (randint lcg 42%N (length four_points)).1) /\
    centers !! 0 = four_points !! (randint lcg 42%N (length four_points)).1.
Proof.
  assert (exists centers indices,
            qkmeans_plusplus lcg four_points 2 (simulator 2) "angle" "random" true None
                             42%N = Ok (centers, indices)) as (centers & indices & Hrun)
    by (do 2 eexists; vm_compute; reflexivity).
  exists centers, indices. split; [exact Hrun|].
  eapply first_seed_is_the_draw; [exact Hrun | discriminate].
Defined.

(** ** The assignment step *)

Lemma split_rows_widths {A} (r c : nat) (flat : list A) :
  length flat = r * c -> Forall (fun row => length row = c) (split_rows r c flat).
Proof.
  revert flat. induction r as [|r IH]; intros flat Hlen; simpl; [constructor|].
  constructor.
  - rewrite length_take. lia.
  - apply IH. rewrite length_drop. lia.
Qed.

Lemma batch_collect_widths {A} (batch_d : list (list A)) (shape : nat * nat)
    (rows : list (list A)) :
  batch_collect batch_d shape = Ok rows -> Forall (fun row => length row = shape.2) rows.
Proof.
  unfold batch_collect. case_match; [done|].
  intros (final & _ & Hr)%bind_Ok. unfold reshape in Hr.
  destruct (length (concat final) =? shape.1 * shape.2) eqn:Hlen; [|done].
  apply Nat.eqb_eq in Hlen. injection Hr as <-. by apply split_rows_widths.
Qed.

Lemma estimator_distances_widths self X batch distances :
  estimator_distances self X batch = Ok distances ->
  Forall (fun row => length row = length X) distances.
Proof.
  unfold estimator_distances.
  assert (forall centers,
            batch_distances X centers (backend self) (map_type self) = Ok distances ->
            Forall (fun row => length row = length X) distances) as Hbatch.
  { intros centers. unfold batch_distances.
    intros (batches & _ & (dl & _ & (bd & _ & H)%bind_Ok)%bind_Ok)%bind_Ok.
    by apply batch_collect_widths in H. }
  destruct (cluster_centers_ self) as [|old], batch; try done; [by apply Hbatch..|].
  unfold pairwise_distances. intros H.
  eapply mapM_Ok_Forall; [exact H|].
  intros centroid row Hrow. by apply mapM_Ok_length in Hrow.
Qed.

Lemma nearest_length (distances : list (list cell)) (labels : list nat) (n : nat) :
  Forall (fun row => length row = n) distances ->
  nearest distances = Ok labels -> length labels = n.
Proof.
  unfold nearest. destruct distances as [|row distances]; [done|].
  intros [Hrow _]%Forall_cons Hl%mapM_Ok_length.
  rewrite length_seq in Hl. lia.
Qed.

Lemma column_lookup (distances : list (list cell)) (n i j : nat) :
  Forall (fun row => length row = n) distances -> i < n ->
  column distances i !! j = cell_at distances j i.
Proof.
  intros Hrect Hi. unfold column, cell_at. revert j.
  induction Hrect as [|row distances Hrow _ IH]; intros j; [done|].
  destruct (lookup_lt_is_Some_2 row i) as [c Hc]; [lia|].
  cbn. rewrite Hc. simpl. destruct j as [|j]; simpl; [done | apply IH].
Qed.

(** [argmin_from] keeps the first least element of what it has seen. *)
Lemma argmin_from_least (pre l : list Q) (best_i : nat) (best : Q) :
  pre !! best_i = Some best ->
  (forall j dj, pre !! j = Some dj -> (best <= dj)%Q /\ (j < best_i -> (best < dj)%Q)) ->
  exists d,
    (pre ++ l) !! argmin_from best_i best (length pre) l = Some d /\
    forall j dj, (pre ++ l) !! j = Some dj ->
                 (d <= dj)%Q /\ (j < argmin_from best_i best (length pre) l -> (d < dj)%Q).
Proof.
  revert pre best_i best. induction l as [|q l IH]; intros pre best_i best Hbest Hleast.
  - simpl. rewrite app_nil_r. eauto.
  - simpl. replace (pre ++ q :: l) with ((pre ++ [q]) ++ l) by by rewrite <-app_assoc.
    replace (S (length pre)) with (length (pre ++ [q]))
      by (rewrite length_app; simpl; lia).
    destruct (Qltb q best) eqn:Hlt.
    + apply Qltb_lt in Hlt. apply IH.
      * by rewrite lookup_app_r, Nat.sub_diag.
      * intros j dj Hj.
        apply lookup_app_Some in Hj as [Hj|[Hge Hj]].
        -- destruct (Hleast j dj Hj) as [Hle _]. split.
           ++ apply Qlt_le_weak. by eapply Qlt_le_trans.
           ++ intros _. by eapply Qlt_le_trans.
        -- apply list_lookup_singleton_Some in Hj as [Hj <-].
           split; [apply Qle_refl | lia].
    + assert (best <= q)%Q as Hle.
      { apply Qnot_lt_le. intros H%Qltb_lt. congruence. }
      apply IH.
      * by apply lookup_app_l_Some.
      * intros j dj Hj.
        apply lookup_app_Some in Hj as [Hj|[Hge Hj]]; [by apply Hleast|].
        apply list_lookup_singleton_Some in Hj as [Hj <-].
        split; [done|]. apply lookup_lt_Some in Hbest. lia.
Qed.

Lemma argmin_floats_least (l : list Q) (k : nat) :
  argmin_floats l = Ok k ->
  exists d, l !! k = Some d /\
            forall j dj, l !! j = Some dj -> (d <= dj)%Q /\ (j < k -> (d < dj)%Q).
Proof.
  destruct l as [|q l]; [done|]. simpl. intros [= <-].
  apply (argmin_from_least [q] l 0 q); [done|].
  intros j dj Hj. apply list_lookup_singleton_Some in Hj as [-> <-].
  split; [apply Qle_refl | lia].
Qed.

Lemma np_argmin_least (col : list cell) (k : nat) :
  np_argmin col = Ok k ->
  forall d, col !! k = Some (Some d) ->
  forall j dj, col !! j = Some (Some dj) -> (d <= dj)%Q /\ (j < k -> (d < dj)%Q).
Proof.
  unfold np_argmin. destruct col as [|c [|c' col]]; [done| |].
  - intros [= <-] d Hd j dj Hj.
    destruct j as [|j]; [|done]. simpl in *. simplify_eq.
    split; [apply Qle_refl | lia].
  - intros (qs & Hqs%floats_Ok & Hk%argmin_floats_least)%bind_Ok d Hd j dj Hj.
    destruct Hk as (d' & Hd' & Hleast).
    rewrite Hqs, list_lookup_fmap in Hd, Hj.
    rewrite Hd' in Hd. injection Hd as <-.
    destruct (qs !! j) as [dj'|] eqn:Hj'; [|done]. injection Hj as <-.
    by apply Hleast.
Qed.

Lemma nearest_least (distances : list (list cell)) (labels : list nat) (n : nat) :
  Forall (fun row => length row = n) distances ->
  nearest distances = Ok labels ->
  forall i l, labels !! i = Some l ->
  forall d, cell_at distances l i = Some (Some d) ->
  forall j dj, cell_at distances j i = Some (Some dj) ->
               (d <= dj)%Q /\ (j < l -> (d < dj)%Q).
Proof.
  intros Hrect Hn i l Hl d Hd j dj Hj.
  unfold nearest in Hn. destruct distances as [|row distances]; [done|].
  rewrite mapM_Ok_Forall2 in Hn.
  destruct (Forall2_lookup_r _ _ _ _ _ Hn Hl) as (i' & Hi' & Hmin).
  apply lookup_seq in Hi' as [-> Hi']. simpl in Hi'.
  assert (i < n) as Hi.
  { apply Forall_cons in Hrect as [<- _]. done. }
  rewrite <-(column_lookup _ n) in Hd, Hj by done.
  by eapply np_argmin_least.
Qed.

(** The assignment step of [fit] (line 621): a pass that succeeds stores one
    label per point; the label of a point is the index of a centroid row of
    the distance matrix, no centroid is measured closer to the point, and
    every centroid before it is measured strictly farther. *)
Theorem labels_are_nearest_centroids lib self X batch self' finished :
  fit_iteration lib self X batch = (self', Ok finished) ->
  exists distances,
    estimator_distances self X batch = Ok distances /\
    length (labels_ self') = length X /\
    forall i l, labels_ self' !! i = Some l ->
      l < length distances /\
      forall d, cell_at distances l i = Some (Some d) ->
      forall j dj, cell_at distances j i = Some (Some dj) ->
                   (d <= dj)%Q /\ (j < l -> (d < dj)%Q).
Proof.
  intros (distances & labels & new & Hd & Hl & _ & _ & ->)%fit_iteration_Ok.
  exists distances. simpl. split; [done|].
  pose proof (estimator_distances_widths _ _ _ _ Hd) as Hrect.
  split; [by eapply nearest_length|].
  intros i l Hi. split.
  - apply nearest_lt in Hl. rewrite Forall_forall in Hl.
    apply Hl. by eapply list_elem_of_lookup_2.
  - by eapply nearest_least.
Qed.

(** [predict], when it returns: one label per preprocessed point, each the
    index of a stored centroid, and (without weights) of the first centroid
    at the least measured distance. *)
Theorem predict_labels lib self X sample_weight batch labels :
  predict lib self X sample_weight batch = Ok labels ->
  exists X' old,
    preprocess lib X (map_type self) (norm_relevance self) = Ok X' /\
    cluster_centers_ self = Frame old /\
    length labels = length X' /\
    Forall (fun l => l < length old) labels /\
    (sample_weight = None ->
     exists distances,
       estimator_distances self X' batch = Ok distances /\
       forall i l, labels !! i = Some l ->
       forall d, cell_at distances l i = Some (Some d) ->
       forall j dj, cell_at distances j i = Some (Some dj) ->
                    (d <= dj)%Q /\ (j < l -> (d < dj)%Q)).
Proof.
  unfold predict. intros (X' & HX & H)%bind_Ok.
  apply bind_Ok in H as ([distances|] & Hd & Hl); [|done].
  assert (exists Y, length Y = length X' /\ estimator_distances self Y batch = Ok distances
                    /\ (sample_weight = None -> Y = X')) as (Y & HY & Hest & HYX).
  { destruct sample_weight as [w|].
    - apply bind_Ok in Hd as (weight_X & Hw%mapM_Ok_length & Hd).
      exists weight_X. split; [done|]. split; [|done].
      destruct batch.
      + by apply bind_Ok in Hd as (? & _ & [=]).
      + by apply fmap_Ok in Hd as (? & -> & [= ->]).
    - exists X'. split; [done|]. split; [|done].
      by apply fmap_Ok in Hd as (? & -> & [= ->]). }
  pose proof (estimator_distances_widths _ _ _ _ Hest) as Hrect.
  destruct (estimator_distances_rows _ _ _ _ Hest) as (old & Hold & Hrows).
  exists X', old. repeat split; try done.
  - rewrite <-HY. by eapply nearest_length.
  - rewrite <-Hrows. by apply nearest_lt.
  - intros Hw. rewrite (HYX Hw) in Hest, Hrect. exists distances. split; [done|].
    by eapply nearest_least.
Qed.

Lemma labels_are_nearest_centroids_witness :
  exists distances,
    estimator_distances fitted_estimator four_points true = Ok distances /\
    length (labels_ (fit_iteration rational_library fitted_estimator four_points true).1)
    = length four_points /\
    forall i l,
      labels_ (fit_iteration rational_library fitted_estimator four_points true).1 !! i
      = Some l ->
      l < length distances /\
      forall d, cell_at distances l i = Some (Some d) ->
      forall j dj, cell_at distances j i = Some (Some dj) ->
                   (d <= dj)%Q /\ (j < l -> (d < dj)%Q).
Proof.
  apply (labels_are_nearest_centroids rational_library fitted_estimator four_points true
           _ false).
  apply injective_projections; [reflexivity | vm_compute; reflexivity].
Defined.

Lemma predict_labels_witness :
  exists labels X' old,
    predict rational_library fitted_estimator four_points None true = Ok labels /\
    preprocess rational_library four_points "angle" false = Ok X' /\
    cluster_centers_ fitted_estimator = Frame old /\
    length labels = length X' /\
    Forall (fun l => l < length old) labels.
Proof.
  assert (exists labels,
            predict rational_library fitted_estimator four_points None true = Ok labels)
    as (labels & Hl) by (eexists; vm_compute; reflexivity).
  destruct (predict_labels _ _ _ _ _ _ Hl) as (X' & old & HX & Hold & Hlen & Hlt & _).
  exists labels, X', old. exact (conj Hl (conj HX (conj Hold (conj Hlen Hlt)))).
Defined.

(** ** The magnitude column of [preprocess] *)

Lemma foldl_Qmax_le (q : Q) (l : list Q) :
  (q <= foldl Qmax q l)%Q /\ Forall (fun x => (x <= foldl Qmax q l)%Q) l.
Proof.
  revert q. induction l as [|x l IH]; intros q; simpl.
  - split; [apply Qle_refl | constructor].
  - destruct (IH (Qmax q x)) as [Hq Hl]. split; [|constructor; [|done]].
    + eapply Qle_trans; [apply Q.le_max_l | exact Hq].
    + eapply Qle_trans; [apply Q.le_max_r | exact Hq].
Qed.

Lemma foldl_Qmax_elem (q : Q) (l : list Q) :
  Exists (fun x => x == foldl Qmax q l)%Q (q :: l).
Proof.
  revert q. induction l as [|x l IH]; intros q; simpl.
  - by left.
  - specialize (IH (Qmax q x)). apply Exists_cons in IH as [IH|IH].
    + destruct (Q.max_dec q x) as [H|H].
      * left. by rewrite <-IH, H.
      * right. left. by rewrite <-IH, H.
    + by do 2 right.
Qed.

Lemma np_max_spec (l : list Q) (m : Q) :
  np_max l = Ok m ->
  Forall (fun x => (x <= m)%Q) l /\ Exists (fun x => (x == m)%Q) l.
Proof.
  destruct l as [|q l]; [done|]. simpl. intros [= <-]. split.
  - destruct (foldl_Qmax_le q l). by constructor.
  - apply foldl_Qmax_elem.
Qed.

Lemma preprocess_norm_Ok lib points P :
  preprocess lib points "angle" true = Ok P ->
  exists S norms max_norm,
    sk_scale lib points = Ok S /\
    mapM (row_norm lib) S = Ok norms /\
    np_max norms = Ok max_norm /\
    P = zip_with (fun row v => row ++ [v]) S (map (fun v => v / max_norm)%Q norms).
Proof.
  unfold preprocess. simpl.
  intros (S & HS & (norms & Hn & (max_norm & Hm & [= <-])%bind_Ok)%bind_Ok)%bind_Ok.
  by exists S, norms, max_norm.
Qed.

(** Under 'angle' with [norm_relevance], [preprocess] returns the scaled
    rows, each with one more entry.  With a square root that is never
    negative and some row of positive norm, the added entries lie between 0
    and 1, and a row of the largest norm gets 1. *)
Theorem preprocess_norm_column lib points P :
  preprocess lib points "angle" true = Ok P ->
  exists S,
    sk_scale lib points = Ok S /\
    Forall2 (fun s p => 2 <= length s /\ exists v, p = s ++ [v]) S P /\
    ((forall q, 0 <= np_sqrt lib q)%Q ->
     Exists (fun s => exists n, row_norm lib s = Ok n /\ (0 < n)%Q) S ->
     Forall (fun p => exists v, last p = Some v /\ (0 <= v)%Q /\ (v <= 1)%Q) P /\
     Exists (fun p => exists v, last p = Some v /\ (v == 1)%Q) P).
Proof.
  intros (S & norms & max_norm & HS & Hn & Hm & ->)%preprocess_norm_Ok.
  exists S. split; [done|]. clear HS.
  apply np_max_spec in Hm as [Hle Hex].
  rewrite mapM_Ok_Forall2 in Hn.
  split.
  - clear Hle Hex. induction Hn as [|s n S norms Hs _ IH]; simpl; [constructor|].
    constructor; [|done]. split; [|eauto]. unfold row_norm in Hs.
    apply bind_Ok in Hs as (a & Ha%item_Ok & (b & Hb%item_Ok & _)%bind_Ok).
    apply lookup_lt_Some in Hb. lia.
  - intros Hsqrt Hpos.
    assert (0 < max_norm)%Q as Hmax.
    { apply Exists_exists in Hpos as (s & Hs & n & Hsn & Hn0).
      apply list_elem_of_lookup in Hs as [i Hi].
      destruct (Forall2_lookup_l _ _ _ _ _ Hn Hi) as (n' & Hn' & Hsn').
      rewrite Hsn in Hsn'. injection Hsn' as <-.
      rewrite Forall_forall in Hle.
      eapply Qlt_le_trans; [exact Hn0|]. apply Hle. by eapply list_elem_of_lookup_2. }
    assert (Forall (fun n => 0 <= n)%Q norms) as Hnonneg.
    { clear Hle Hex Hpos. induction Hn as [|s n S norms Hs _ IH]; [constructor|].
      constructor; [|done]. unfold row_norm in Hs.
      apply bind_Ok in Hs as (a & _ & (b & _ & [= <-])%bind_Ok). apply Hsqrt. }
    split.
    + clear Hex Hpos.
      induction Hn as [|s n S norms Hs _ IH]; simpl; [constructor|]. constructor.
      * apply Forall_cons in Hle as [Hle _]. apply Forall_cons in Hnonneg as [Hn0 _].
        exists (n / max_norm)%Q. rewrite last_snoc. split; [done|]. split.
        -- apply Qle_shift_div_l; [done|]. by rewrite Qmult_0_l.
        -- apply Qle_shift_div_r; [done|]. by rewrite Qmult_1_l.
      * apply Forall_cons in Hle as [_ Hle]. apply Forall_cons in Hnonneg as [_ Hn0].
        by apply IH.
    + clear Hle Hpos Hnonneg.
      induction Hn as [|s n S norms Hs _ IH]; simpl; [by apply Exists_nil in Hex|].
      apply Exists_cons in Hex as [Hex|Hex].
      * left. exists (n / max_norm)%Q. rewrite last_snoc. split; [done|].
        rewrite Hex. field. intros H0. rewrite H0 in Hmax. by apply Qlt_irrefl in Hmax.
      * right. by apply IH.
Qed.

(** The norm takes columns 0 and 1: on scaled data with fewer than two
    columns [preprocess] with [norm_relevance] raises IndexError. *)
Theorem preprocess_norm_one_feature lib points S :
  sk_scale lib points = Ok S ->
  Exists (fun s => length s < 2) S ->
  preprocess lib points "angle" true = Raise IndexError.
Proof.
  intros HS Hshort.
  assert (mapM (fun row => a ← item row 0; b ← item row 1;
                           Ok (np_sqrt lib (a * a + b * b)%Q)) S = Raise IndexError)
    as Hnorms.
  { clear HS. induction S as [|s S IH]; [by apply Exists_nil in Hshort|].
    rewrite mapM_cons.
    apply Exists_cons in Hshort as [Hs|Hs].
    - destruct s as [|a [|b s]]; [done..|]. simpl in Hs. lia.
    - rewrite (IH Hs). by destruct s as [|a [|b s]]. }
  unfold preprocess. case_decide; [|done].
  rewrite HS, bind_Ok_l. cbv beta iota. by rewrite Hnorms.
Qed.

Lemma q_sqrt_nonneg (q : Q) : (0 <= q_sqrt q)%Q.
Proof.
  unfold q_sqrt, Qle. simpl. pose proof (Z.sqrt_nonneg (Qnum q)). lia.
Qed.

Lemma preprocess_norm_column_witness :
  exists P,
    preprocess rational_library four_points "angle" true = Ok P /\
    Forall (fun p => exists v, last p = Some v /\ (0 <= v)%Q /\ (v <= 1)%Q) P /\
    Exists (fun p => exists v, last p = Some v /\ (v == 1)%Q) P.
Proof.
  assert (exists P, preprocess rational_library four_points "angle" true = Ok P)
    as (P & HP) by (eexists; vm_compute; reflexivity).
  destruct (preprocess_norm_column _ _ _ HP) as (S & HS & _ & Hcol).
  exists P. split; [exact HP|]. apply Hcol; [exact q_sqrt_nonneg|].
  vm_compute in HS. injection HS as <-.
  left. eexists. split; [vm_compute; reflexivity | reflexivity].
Defined.

Lemma preprocess_norm_one_feature_witness :
  preprocess rational_library [[1]; [2]]%Q "angle" true = Raise IndexError.
Proof.
  eapply preprocess_norm_one_feature; [vm_compute; reflexivity|].
  left. simpl. lia.
Defined.

(** ** The unbatched estimator on other than two features *)

Lemma distance_default_none x y backend :
  length x <> 2 -> distance x y backend "angle" false = Ok None.
Proof.
  intros Hx. unfold distance, distance_circuit.
  case_decide; [|done]. case_decide; [done|].
  by rewrite andb_false_r.
Qed.

Lemma mapM_const_Ok {A B} (f : A -> result B) (b : B) (l : list A) :
  Forall (fun x => f x = Ok b) l -> mapM f l = Ok (replicate (length l) b).
Proof.
  induction 1 as [|x l Hx _ IH]; [done|].
  rewrite mapM_cons, Hx, bind_Ok_l, IH. done.
Qed.

Lemma pairwise_distances_none X centers backend :
  Forall (fun x => length x <> 2) X ->
  pairwise_distances X centers backend
  = Ok (replicate (length centers) (replicate (length X) None)).
Proof.
  intros HX. unfold pairwise_distances.
  apply mapM_const_Ok, Forall_true. intros centroid.
  apply mapM_const_Ok. eapply Forall_impl; [exact HX|].
  intros x Hx. by apply distance_default_none.
Qed.

Lemma nearest_none (k n : nat) :
  2 <= k -> 0 < n ->
  nearest (replicate k (replicate n (@None Q))) = Raise TypeError.
Proof.
  intros Hk Hn. unfold nearest.
  destruct k as [|[|k]]; [lia..|]. destruct n as [|n]; [lia|].
  cbn [replicate]. rewrite length_cons, length_replicate.
  cbn [seq]. by rewrite mapM_cons.
Qed.

Lemma nearest_single_row (row : list cell) :
  nearest [row] = Ok (replicate (length row) 0).
Proof.
  unfold nearest.
  rewrite (mapM_const_Ok _ 0); [by rewrite length_seq|].
  apply Forall_forall. intros i Hi%elem_of_seq.
  unfold column. cbn. destruct (lookup_lt_is_Some_2 row i) as [c ->]; [lia|]. done.
Qed.

(** The unbatched estimator calls [distance] with its defaults ('angle', no
    [norm_relevance]), which measures two-feature operands only.  On
    preprocessed data of any other width (as [norm_relevance] produces) every
    cell of the matrix is [None] and nothing is executed; with two or more
    centroids [predict] and a pass of [fit] then raise TypeError, with one
    centroid every label is 0. *)
Theorem unbatched_needs_two_features lib self X X' old :
  cluster_centers_ self = Frame old ->
  preprocess lib X (map_type self) (norm_relevance self) = Ok X' ->
  Forall (fun x => length x <> 2) X' ->
  estimator_distances self X' false
  = Ok (replicate (length old) (replicate (length X') None)) /\
  (2 <= length old -> X' <> [] ->
   predict lib self X None false = Raise TypeError /\
   fit_iteration lib self X' false = (self, Raise TypeError)) /\
  (length old = 1 ->
   predict lib self X None false = Ok (replicate (length X') 0)).
Proof.
  intros Hc HX Hf.
  assert (estimator_distances self X' false
          = Ok (replicate (length old) (replicate (length X') None))) as Hd.
  { unfold estimator_distances. rewrite Hc, pairwise_distances_none by done.
    unfold to_numpy. by rewrite length_fmap. }
  split; [done|]. split.
  - intros Hk Hne.
    assert (nearest (replicate (length old) (replicate (length X') (@None Q)))
            = Raise TypeError) as Hn.
    { apply nearest_none; [done|]. destruct X'; [done | simpl; lia]. }
    split.
    + unfold predict. rewrite HX, bind_Ok_l, Hd. simpl. exact Hn.
    + unfold fit_iteration. rewrite Hd. simpl. by rewrite Hn.
  - intros Hk. unfold predict. rewrite HX, bind_Ok_l, Hd, Hk.
    change (replicate 1 ?x) with [x].
    change (Some <$> Ok ?d) with (Ok (Some d)). rewrite bind_Ok_l.
    rewrite nearest_single_row. by rewrite length_replicate.
Qed.

Lemma unbatched_needs_two_features_witness :
  predict rational_library norm_estimator four_points None false = Raise TypeError.
Proof.
  assert (exists X', preprocess rational_library four_points "angle" true = Ok X')
    as (X' & HX) by (eexists; vm_compute; reflexivity).
  destruct (unbatched_needs_two_features rational_library norm_estimator four_points X'
              (to_frame [[1; 2; 1]; [5; 6; 1]]%Q) eq_refl HX) as (_ & Hraise & _).
  - vm_compute in HX. injection HX as <-. repeat constructor; simpl; lia.
  - apply Hraise; [simpl; lia|].
    vm_compute in HX. injection HX as <-. discriminate.
Defined.

(** ** Random initial centres *)

Lemma lcg_permutes : permutes lcg.
Proof.
  intros s n. simpl.
  rewrite (comm (++)). by rewrite take_drop.
Qed.

(** With [init='random'] the first centres are [n_clusters] rows of the data
    at pairwise distinct positions, the first entries of a permutation; more
    clusters than rows are refused with ValueError. *)
Theorem random_init_distinct_rows {St} lib (rng : RandomState St) self X batch s :
  permutes rng ->
  init self = "random" ->
  (length X < n_clusters self ->
   fit_init lib rng self X batch s = (self, Raise ValueError)) /\
  (n_clusters self <= length X ->
   exists positions rows,
     fit_init lib rng self X batch s
     = (set_cluster_centers_ self (Frame (to_frame rows)), Ok ()) /\
     NoDup positions /\
     length positions = n_clusters self /\
     Forall2 (fun i row => X !! i = Some row) positions rows).
Proof.
  intros Hperm Hinit. unfold fit_init. rewrite Hinit. simpl.
  split.
  - intros Hlt. by rewrite (proj2 (Nat.ltb_lt _ _) Hlt).
  - intros Hle. rewrite (proj2 (Nat.ltb_ge _ _) Hle).
    unfold choice. specialize (Hperm s (length X)).
    destruct (permutation rng s (length X)) as [p s']. simpl in *.
    assert (forall i, i ∈ take (n_clusters self) p -> i < length X) as Hin.
    { intros i Hi. apply (subseteq_take (n_clusters self) p) in Hi.
      rewrite Hperm in Hi. apply elem_of_seq in Hi. lia. }
    assert (exists rows, mapM (item X) (take (n_clusters self) p) = Ok rows)
      as [rows Hrows].
    { revert Hin. generalize (take (n_clusters self) p). intros l Hl.
      induction l as [|i l IH]; [by eexists|].
      destruct IH as [rows Hrows]; [intros j Hj; apply Hl; by right|].
      destruct (lookup_lt_is_Some_2 X i) as [row Hrow]; [apply Hl; by left|].
      exists (row :: rows). rewrite mapM_cons, Hrows.
      by rewrite (proj2 (item_Ok X i row) Hrow). }
    rewrite Hrows. exists (take (n_clusters self) p), rows.
    split; [done|]. split; [|split].
    + eapply sublist_NoDup; [|apply sublist_take].
      rewrite Hperm. apply NoDup_seq.
    + rewrite length_take, Hperm, length_seq. lia.
    + rewrite mapM_Ok_Forall2 in Hrows.
      eapply Forall2_impl; [exact Hrows|]. intros i row. apply item_Ok.
Qed.

Lemma random_init_distinct_rows_witness :
  exists positions rows,
    fit_init rational_library lcg
      (QuantumKMeans_init (simulator 2) 2 "random" (1 # 10000) 300 "angle" false "random")
      four_points true 42%N
    = (set_cluster_centers_
         (QuantumKMeans_init (simulator 2) 2 "random" (1 # 10000) 300 "angle" false "random")
         (Frame (to_frame rows)), Ok ()) /\
    NoDup positions /\
    length positions = 2 /\
    Forall2 (fun i row => four_points !! i = Some row) positions rows.
Proof.
  apply (proj2 (random_init_distinct_rows rational_library lcg
                  (QuantumKMeans_init (simulator 2) 2 "random" (1 # 10000) 300
                                      "angle" false "random")
                  four_points true 42%N lcg_permutes eq_refl)).
  simpl. lia.
Defined.

(** ** Distances are frequencies *)

Lemma foldr_add_le (c : N) (l : list N) : c ∈ l -> (c <= foldr N.add 0 l)%N.
Proof.
  induction l as [|x l IH]; [by intros ?%elem_of_nil|].
  intros [->|Hc]%elem_of_cons; simpl; [lia|]. specialize (IH Hc). lia.
Qed.

Lemma count_le_total (counts : gmap string N) (key : string) (c : N) :
  counts !! key = Some c -> (c <= total_counts counts)%N.
Proof.
  intros Hc. apply foldr_add_le.
  apply list_elem_of_fmap. exists (key, c). split; [done|].
  by apply elem_of_map_to_list.
Qed.

Lemma frequency_unit (c : N) : (c <= shots)%N -> unit_interval (Z.of_N c # 1024).
Proof.
  unfold shots, unit_interval, Qle. simpl. lia.
Qed.

Lemma decode_unit (rule : decoding) (counts : gmap string N) (d : Q) :
  total_counts counts = shots -> decode rule counts = Ok d -> unit_interval d.
Proof.
  intros Htotal. destruct rule as [|key]; simpl.
  - unfold counts_to_distance. case_decide; [by intros [= <-]|].
    destruct (counts !! "001") as [c|] eqn:Hc; [|done]. intros [= <-].
    apply frequency_unit. rewrite <-Htotal. by eapply count_le_total.
  - unfold contained_to_distance.
    destruct (counts !! key) as [c|] eqn:Hc; intros [= <-]; [|done].
    apply frequency_unit. rewrite <-Htotal. by eapply count_le_total.
Qed.

Lemma distance_unit backend x y map_type norm_relevance d :
  conserves_shots backend ->
  distance x y backend map_type norm_relevance = Ok (Some d) -> unit_interval d.
Proof.
  intros Hb. unfold distance.
  intros ([qc|] & _ & Hd)%bind_Ok; [|done].
  apply fmap_Ok in Hd as (d' & Hd & [= ->]).
  by apply (decode_unit by_outcome_count (get_counts backend qc shots)).
Qed.

Lemma batch_distance_unit backend B map_type ds :
  conserves_shots backend ->
  batch_distance B backend map_type = Ok (Some ds) -> Forall unit_interval ds.
Proof.
  intros Hb. unfold batch_distance.
  intros ([[qcs rule]|] & _ & Hd)%bind_Ok; [|done].
  assert (forall ds', mapM (fun qc => decode rule (get_counts backend qc shots)) qcs = Ok ds' ->
                      Forall unit_interval ds') as Hlist.
  { intros ds' Hds. eapply mapM_Ok_Forall; [exact Hds|].
    intros qc d. by apply decode_unit. }
  destruct qcs as [|qc [|qc' qcs]].
  - apply fmap_Ok in Hd as (ds' & Hd & [= ->]). by apply Hlist.
  - apply fmap_Ok in Hd as (ds' & Hd & [= ->]).
    assert (Forall unit_interval
              (replicate (length (map_to_list (get_counts backend qc shots)).*1) 0%Q)).
    { by apply Forall_replicate. }
    unfold decode_single in Hd.
    by repeat case_match; simplify_eq.
  - apply fmap_Ok in Hd as (ds' & Hd & [= ->]). by apply Hlist.
Qed.

Lemma py_item_elem_of {A} (a : list A) (i : Z) (x : A) : py_item a i = Ok x -> x ∈ a.
Proof.
  unfold py_item. repeat case_match; try done.
  all: intros Hx%item_Ok; by eapply list_elem_of_lookup_2.
Qed.

Lemma split_rows_Forall {A} (P : A -> Prop) (r c : nat) (flat : list A) :
  Forall P flat -> Forall (Forall P) (split_rows r c flat).
Proof.
  revert flat. induction r as [|r IH]; intros flat Hflat; simpl; constructor.
  - by apply Forall_take.
  - apply IH. by apply Forall_drop.
Qed.

Lemma batch_collect_Forall {A} (P : A -> Prop) (batch_d : list (list A))
    (shape : nat * nat) (rows : list (list A)) :
  Forall (Forall P) batch_d ->
  batch_collect batch_d shape = Ok rows -> Forall (Forall P) rows.
Proof.
  intros HP. unfold batch_collect. case_match; [done|].
  intros (final & Hfinal & Hr)%bind_Ok. unfold reshape in Hr.
  case_match; [|done]. injection Hr as <-.
  apply split_rows_Forall, Forall_concat.
  eapply mapM_Ok_Forall; [exact Hfinal|].
  intros i row Hrow. rewrite Forall_forall in HP. apply HP.
  simpl in Hrow. destruct (i <? _) in Hrow; by eapply py_item_elem_of.
Qed.

Lemma distance_array_Forall (P : Q -> Prop) distance_list batch_d :
  Forall (fun ds => forall l, ds = Some l -> Forall P l) distance_list ->
  distance_array distance_list = Ok batch_d ->
  Forall (Forall (fun c : cell => forall d, c = Some d -> P d)) batch_d.
Proof.
  intros HP. unfold distance_array. case_match.
  - intros [= <-]. apply Forall_fmap, Forall_true. intros ds. by repeat constructor.
  - intros (rows & Hrows & Ha)%bind_Ok.
    unfold np_asarray in Ha. case_match; [|done]. injection Ha as <-.
    rewrite mapM_Ok_Forall2 in Hrows. clear -HP Hrows.
    induction Hrows as [|ds row distance_list rows Hrow _ IH]; [constructor|].
    apply Forall_cons in HP as [Hds HP]. constructor; [|by apply IH].
    destruct ds as [l|]; [|done]. injection Hrow as <-.
    apply Forall_fmap. eapply Forall_impl; [by apply Hds|].
    intros d Hd d' [= <-]. exact Hd.
Qed.

(** On a backend whose histograms account for all 1024 shots, every distance
    the estimator of [fit] and [predict] returns, batched or not, lies between
    0 and 1. *)
Theorem distances_are_frequencies self X batch distances :
  conserves_shots (backend self) ->
  estimator_distances self X batch = Ok distances ->
  Forall (Forall unit_cell) distances.
Proof.
  intros Hb. unfold estimator_distances.
  assert (forall centers,
            batch_distances X centers (backend self) (map_type self) = Ok distances ->
            Forall (Forall unit_cell) distances) as Hbatch.
  { intros centers. unfold batch_distances.
    intros (batches & _ & (dl & Hdl & (bd & Hbd & H)%bind_Ok)%bind_Ok)%bind_Ok.
    eapply batch_collect_Forall; [|exact H].
    eapply (distance_array_Forall unit_interval); [|exact Hbd].
    eapply mapM_Ok_Forall; [exact Hdl|].
    intros B ds HB l ->. by eapply batch_distance_unit. }
  destruct (cluster_centers_ self) as [|old], batch; try done; [by apply Hbatch..|].
  unfold pairwise_distances. intros H.
  eapply mapM_Ok_Forall; [exact H|].
  intros centroid row Hrow. eapply mapM_Ok_Forall; [exact Hrow|].
  intros point c Hc d ->. by eapply distance_unit.
Qed.

(** ** The simulator conserves the shots *)

Lemma foldr_add_Permutation (l k : list N) :
  l ≡ₚ k -> foldr N.add 0%N l = foldr N.add 0%N k.
Proof. induction 1; simpl; lia. Qed.

Lemma total_counts_singleton (key : string) (c : N) : total_counts {[ key := c ]} = c.
Proof. unfold total_counts. rewrite map_to_list_singleton. simpl. lia. Qed.

Lemma total_counts_insert (counts : gmap string N) (key : string) (c : N) :
  counts !! key = None ->
  total_counts (<[key := c]> counts) = (c + total_counts counts)%N.
Proof.
  intros Hkey. unfold total_counts.
  rewrite (foldr_add_Permutation _ (((key, c) :: map_to_list counts).*2)); [done|].
  apply fmap_Permutation. by apply map_to_list_insert.
Qed.

Lemma zeros_not_divergent (n : nat) : zeros_string n +:+ "1" <> "0" +:+ zeros_string n.
Proof.
  induction n as [|n IH]; simpl; [done|]. intros [= H]. by apply IH.
Qed.

Lemma divergent_bitstring_not_zeros (n : nat) : divergent_bitstring n <> zeros_string n.
Proof.
  unfold divergent_bitstring. destruct n as [|n]; simpl; [done|].
  rewrite Nat.sub_0_r. apply zeros_not_divergent.
Qed.

Lemma simulator_conserves_shots m : conserves_shots (simulator m).
Proof.
  intros qc. simpl. unfold simulated_counts.
  set (ones := match encoded_operands qc with
               | [(a, b); (c, d)] =>
                   Z.to_N (Z.abs (Qnum (Qred (a * d - b * c))) mod 513)
               | _ => 0%N
               end).
  assert (ones <= 512)%N as Hones.
  { unfold ones. destruct (encoded_operands qc) as [|[a b] [|[c d] [|]]]; try lia.
    pose proof (Z.mod_pos_bound (Z.abs (Qnum (Qred (a * d - b * c)))) 513). lia. }
  destruct (ones =? 0)%N; [apply total_counts_singleton|].
  rewrite total_counts_insert.
  - rewrite total_counts_singleton. unfold shots. lia.
  - apply lookup_singleton_ne. intros H. symmetry in H.
    by apply divergent_bitstring_not_zeros in H.
Qed.

Lemma distances_are_frequencies_witness :
  exists distances,
    estimator_distances fitted_estimator scaled_points true = Ok distances /\
    Forall (Forall unit_cell) distances.
Proof.
  assert (exists distances,
            estimator_distances fitted_estimator scaled_points true = Ok distances)
    as [distances Hd] by (eexists; vm_compute; reflexivity).
  exists distances. split; [exact Hd|].
  exact (distances_are_frequencies fitted_estimator scaled_points true distances
           (simulator_conserves_shots 2) Hd).
Defined.

(** ** Stopping *)

Lemma Qsum_zero (l : list Q) : Forall (fun q => q == 0)%Q l -> (Qsum l == 0)%Q.
Proof.
  induction 1 as [|q l Hq _ IH]; simpl; [done|]. rewrite Hq, IH. ring.
Qed.

Lemma loc_same_frame (a b : DataFrame) (l : nat) :
  same_frame a b ->
  match loc a l, loc b l with
  | Some ra, Some rb => Forall2 Qeq ra rb
  | None, None => True
  | _, _ => False
  end.
Proof.
  unfold loc. induction 1 as [|[l1 r1] [l2 r2] a b [Hl Hr] _ IH]; [done|].
  simpl in *. subst l2.
  destruct (decide (l1 = l)); [done|].
  destruct (list_find _ a) as [[i p]|], (list_find _ b) as [[j q]|]; done.
Qed.

Lemma elementwise_differences_same (a b : DataFrame) :
  same_frame a b -> Forall (fun q => q == 0)%Q (elementwise_differences a b).
Proof.
  intros Hab. unfold elementwise_differences, frame_sub.
  apply Forall_forall. intros q Hq.
  apply list_elem_of_bind in Hq as (row & Hq & Hrow).
  apply list_elem_of_fmap in Hrow as (l & -> & _). simpl in Hq.
  apply list_elem_of_omap in Hq as (c & Hc & Hq). simpl in Hq. subst c.
  pose proof (loc_same_frame a b l Hab) as Hloc.
  destruct (loc a l) as [ra|], (loc b l) as [rb|]; try done.
  - apply list_elem_of_fmap in Hc as (j & Hj & _).
    destruct (ra !! j) as [x|] eqn:Hx; [|done].
    destruct (rb !! j) as [y|] eqn:Hy; [|done]. injection Hj as ->.
    destruct (Forall2_lookup_l _ _ _ _ _ Hloc Hx) as (y' & Hy' & Hxy).
    rewrite Hy in Hy'. injection Hy' as <-. rewrite Hxy. ring.
  - apply elem_of_replicate in Hc as [[=] _].
Qed.

Lemma centroid_shift_same (a b : DataFrame) :
  same_frame a b -> (centroid_shift a b == 0)%Q.
Proof.
  intros Hab. rewrite centroid_shift_elementwise.
  rewrite (Qsum_zero _ (elementwise_differences_same a b Hab)). reflexivity.
Qed.

Lemma fit_iteration_tol lib self X batch :
  tol (fit_iteration lib self X batch).1 = tol self.
Proof.
  unfold fit_iteration.
  destruct (_ ≫= nearest); [|done]. by destruct (new_centroids _ _ _).
Qed.

Lemma fit_iteration_finished lib self X batch self' finished :
  fit_iteration lib self X batch = (self', Ok finished) ->
  exists old new,
    cluster_centers_ self = Frame old /\ cluster_centers_ self' = Frame new /\
    finished = Qltb (centroid_shift new old) (tol self).
Proof.
  intros (distances & labels & new & Hd & _ & _ & -> & ->)%fit_iteration_Ok.
  apply estimator_distances_rows in Hd as (old & Hold & _).
  exists old, new. unfold converged. simpl. by rewrite Hold.
Qed.

Lemma no_tolerance_not_finished (new old : DataFrame) (t : Q) :
  (t <= 0)%Q -> Qltb (centroid_shift new old) t = false.
Proof.
  intros Htol. destruct (Qltb _ _) eqn:Hlt; [|done].
  apply Qltb_lt in Hlt. exfalso.
  apply (Qlt_irrefl 0). eapply Qle_lt_trans; [apply Qabs_nonneg|].
  eapply Qlt_le_trans; [exact Hlt | exact Htol].
Qed.

Lemma fit_loop_no_tolerance lib remaining self X batch iteration :
  (tol self <= 0)%Q ->
  (fit_loop lib remaining self X batch iteration).2 = Ok () ->
  (fit_loop lib remaining self X batch iteration).1.2 = iteration + remaining.
Proof.
  revert self iteration.
  induction remaining as [|remaining IH]; intros self iteration Htol; simpl; [lia|].
  pose proof (fit_iteration_tol lib self X batch) as Ht.
  destruct (fit_iteration lib self X batch) as [self' [finished|e]] eqn:Hit; [|done].
  apply fit_iteration_finished in Hit as (old & new & _ & _ & ->).
  rewrite no_tolerance_not_finished by done.
  simpl in Ht. intros Hr. rewrite IH; [lia | by rewrite Ht | done].
Qed.

(** The convergence test against [tol]: with [tol <= 0] no iteration sets
    [finished], so a fit that does not raise runs all [max_iter] iterations;
    with [tol > 0] an iteration that leaves every centroid where it was sets
    it. *)
Theorem stopping_rule lib :
  (forall self X batch self' finished old new,
     fit_iteration lib self X batch = (self', Ok finished) ->
     cluster_centers_ self = Frame old ->
     cluster_centers_ self' = Frame new ->
     ((tol self <= 0)%Q -> finished = false) /\
     (same_frame new old -> (0 < tol self)%Q -> finished = true)) /\
  (forall remaining self X batch iteration,
     (tol self <= 0)%Q ->
     (fit_loop lib remaining self X batch iteration).2 = Ok () ->
     (fit_loop lib remaining self X batch iteration).1.2 = iteration + remaining).
Proof.
  split; [|apply fit_loop_no_tolerance].
  intros self X batch self' finished old new Hit Hold Hnew.
  apply fit_iteration_finished in Hit as (old' & new' & Hold' & Hnew' & ->).
  rewrite Hold in Hold'. injection Hold' as <-.
  rewrite Hnew in Hnew'. injection Hnew' as <-.
  split.
  - apply no_tolerance_not_finished.
  - intros Hsame Htol. apply Qltb_lt. by rewrite centroid_shift_same.
Qed.

Lemma stopping_rule_witness :
  (fit_iteration rational_library merged_estimator scaled_points true).2 = Ok true.
Proof.
  assert (exists finished,
            (fit_iteration rational_library merged_estimator scaled_points true).2
            = Ok finished) as [finished Hfinished]
    by (eexists; vm_compute; reflexivity).
  assert (exists new,
            cluster_centers_
              (fit_iteration rational_library merged_estimator scaled_points true).1
            = Frame new /\ same_frame new [(0, [0; 0]%Q)]) as (new & Hnew & Hsame).
  { eexists. split; [vm_compute; reflexivity|].
    constructor; [|constructor]. split; [reflexivity|].
    constructor; [reflexivity|]. constructor; [reflexivity|]. constructor. }
  assert (fit_iteration rational_library merged_estimator scaled_points true
          = ((fit_iteration rational_library merged_estimator scaled_points true).1,
             Ok finished)) as Hit
    by (apply injective_projections; [reflexivity | exact Hfinished]).
  rewrite Hfinished. f_equal.
  eapply (proj2 (proj1 (stopping_rule rational_library) merged_estimator scaled_points
                   true _ finished _ new Hit eq_refl Hnew));
    [exact Hsame | reflexivity].
Defined.

(** ** Weights *)

Lemma Qmult_one (x : Q) : (x * 1)%Q = x.
Proof.
  destruct x as [n d]. unfold Qmult. simpl.
  by rewrite Z.mul_1_r, Pos.mul_1_r.
Qed.

Lemma unit_weights (row : list Q) :
  zip_with Qmult row (replicate (length row) 1%Q) = row.
Proof.
  induction row as [|x row IH]; simpl; [done|]. by rewrite Qmult_one, IH.
Qed.

(** [X * sample_weight] multiplies column by column: the weights are one per
    feature.  A weight vector of any other length makes [predict] raise
    ValueError; unbatched, the labels are those of the data with every column
    multiplied by its weight, and weights that are all 1 give the labels of
    the call without weights. *)
Theorem predict_weights_per_feature lib self X X' w :
  preprocess lib X (map_type self) (norm_relevance self) = Ok X' ->
  (Exists (fun row => length row <> length w) X' ->
   forall batch, predict lib self X (Some w) batch = Raise ValueError) /\
  (Forall (fun row => length row = length w) X' ->
   predict lib self X (Some w) false
   = estimator_distances self (map (fun row => zip_with Qmult row w) X') false
       ≫= nearest) /\
  (Forall (fun row => length row = length w) X' ->
   Forall (fun q => q = 1%Q) w ->
   predict lib self X (Some w) false = predict lib self X None false).
Proof.
  intros HX.
  assert (Forall (fun row => length row = length w) X' ->
          mapM (fun row => if length row =? length w
                           then Ok (zip_with Qmult row w)
                           else Raise ValueError) X'
          = Ok (map (fun row => zip_with Qmult row w) X')) as Hweights.
  { intros Hlen. apply mapM_total. intros row Hrow.
    rewrite Forall_forall in Hlen. by rewrite (Hlen row Hrow), Nat.eqb_refl. }
  assert (Forall (fun row => length row = length w) X' ->
          predict lib self X (Some w) false
          = estimator_distances self (map (fun row => zip_with Qmult row w) X') false
              ≫= nearest) as Hpredict.
  { intros Hlen. unfold predict. rewrite HX, bind_Ok_l, (Hweights Hlen), bind_Ok_l.
    by destruct (estimator_distances _ _ _). }
  split; [|split; [done|]].
  - intros Hex batch. unfold predict. rewrite HX, bind_Ok_l.
    assert (mapM (fun row => if length row =? length w
                             then Ok (zip_with Qmult row w)
                             else Raise ValueError) X' = Raise ValueError) as ->; [|done].
    clear HX Hweights Hpredict.
    induction X' as [|row X' IH]; [by apply Exists_nil in Hex|].
    rewrite mapM_cons. destruct (length row =? length w) eqn:Hlen.
    + apply Exists_cons in Hex as [Hex|Hex]; [by apply Nat.eqb_eq in Hlen|].
      by rewrite bind_Ok_l, (IH Hex).
    + done.
  - intros Hlen Hone. rewrite (Hpredict Hlen).
    assert (map (fun row => zip_with Qmult row w) X' = X') as ->.
    { rewrite <-(map_id X') at 2. apply map_ext_Forall.
      eapply Forall_impl; [exact Hlen|]. intros row Hrow. simpl.
      assert (w = replicate (length row) 1%Q) as ->; [|apply unit_weights].
      rewrite Hrow. clear -Hone.
      induction w as [|q w IH]; [done|]. apply Forall_cons in Hone as [-> Hone].
      simpl. f_equal. by apply IH. }
    unfold predict. rewrite HX, bind_Ok_l.
    destruct (estimator_distances self X' false); reflexivity.
Qed.

Lemma predict_weights_per_feature_witness :
  predict rational_library fitted_estimator four_points (Some [1; 1]%Q) false
  = predict rational_library fitted_estimator four_points None false.
Proof.
  assert (exists X', preprocess rational_library four_points "angle" false = Ok X')
    as (X' & HX) by (eexists; vm_compute; reflexivity).
  destruct (predict_weights_per_feature rational_library fitted_estimator four_points X'
              [1; 1]%Q HX) as (_ & _ & Hunit).
  apply Hunit; [|by repeat constructor].
  vm_compute in HX. injection HX as <-. by repeat constructor.
Defined.

(** ** Parameters by name *)

Lemma set_params_other {V} (self : gmap string V) params name :
  name ∉ params.*1 -> set_params self params !! name = self !! name.
Proof.
  unfold set_params. revert self.
  induction params as [|[k v] params IH]; intros self Hname; simpl; [done|].
  apply not_elem_of_cons in Hname as [Hk Hname].
  rewrite IH by done. by rewrite lookup_insert_ne.
Qed.

Lemma set_params_set {V} (self : gmap string V) params name value :
  NoDup params.*1 -> (name, value) ∈ params ->
  set_params self params !! name = Some value.
Proof.
  unfold set_params. revert self.
  induction params as [|[k v] params IH]; intros self Hnodup Hin; simpl.
  - by apply elem_of_nil in Hin.
  - apply NoDup_cons in Hnodup as [Hk Hnodup].
    apply elem_of_cons in Hin as [[= -> ->]|Hin].
    + fold (set_params (<[k:=v]> self) params).
      rewrite set_params_other by done. apply lookup_insert_eq.
    + by apply IH.
Qed.

Lemma getattr_items {V} (self : gmap string V) (names : list string) :
  (forall name, name ∈ names -> is_Some (self !! name)) ->
  exists items,
    mapM (fun name => value ← getattr self name; Ok (name, value)) names = Ok items /\
    forall name,
      (list_to_map items : gmap string V) !! name
      = if decide (name ∈ names) then self !! name else None.
Proof.
  induction names as [|k names IH]; intros Hall.
  - exists []. split; [done|]. intros name.
    destruct (decide (name ∈ [])) as [H|H]; [by apply elem_of_nil in H|].
    apply lookup_empty.
  - destruct IH as (items & Hitems & Hlookup).
    { intros name Hname. apply Hall. by right. }
    destruct (Hall k) as [v Hv]; [by left|].
    exists ((k, v) :: items). split.
    + rewrite mapM_cons. cbv beta. unfold getattr in Hitems |- *. rewrite Hv.
      cbv beta iota. rewrite !bind_Ok_l, Hitems. done.
    + intros name. cbn [list_to_map foldr fst snd uncurry]. 
      destruct (decide (name = k)) as [->|Hne].
      * rewrite lookup_insert_eq.
        destruct (decide (k ∈ k :: names)) as [H|H]; [done|].
        exfalso. apply H. by left.
      * rewrite lookup_insert_ne by done. rewrite Hlookup.
        destruct (decide (name ∈ names)) as [Hin|Hin],
                 (decide (name ∈ k :: names)) as [Hin'|Hin']; try done.
        -- exfalso. apply Hin'. by right.
        -- by apply elem_of_cons in Hin' as [?|?].
Qed.

Lemma init_has_parameters {V} (empty zero backend n_clusters init tol max_iter verbose
    map_type norm_relevance initial_center : V) :
  has_parameters (init_attributes empty zero backend n_clusters init tol max_iter
                                  verbose map_type norm_relevance initial_center).
Proof.
  intros name Hname. unfold parameter_names in Hname.
  repeat (apply elem_of_cons in Hname as [->|Hname]; [vm_compute; eauto|]).
  by apply elem_of_nil in Hname.
Qed.

(** [set_params] followed by [get_params], on an instance that has its nine
    parameters (as [__init__] leaves it) and distinct keyword names:
    [get_params] returns exactly the nine parameters, those named in the call
    with their new value and the others unchanged.  [set_params] checks no
    name: any name becomes an attribute. *)
Theorem get_params_after_set_params {V} (self : gmap string V) params :
  has_parameters self ->
  NoDup params.*1 ->
  has_parameters (set_params self params) /\
  exists m,
    get_params (set_params self params) = Ok m /\
    dom m = (list_to_set parameter_names : gset string) /\
    (forall name value,
       (name, value) ∈ params -> name ∈ parameter_names -> m !! name = Some value) /\
    (forall name,
       name ∈ parameter_names -> name ∉ params.*1 -> m !! name = self !! name) /\
    (forall name value,
       (name, value) ∈ params -> set_params self params !! name = Some value).
Proof.
  intros Hself Hnodup.
  assert (has_parameters (set_params self params)) as Hset.
  { intros name Hname. destruct (decide (name ∈ params.*1)) as [Hin|Hin].
    - apply list_elem_of_fmap in Hin as ([k v] & -> & Hin).
      exists v. by apply set_params_set.
    - rewrite set_params_other by done. by apply Hself. }
  split; [done|].
  destruct (getattr_items (set_params self params) parameter_names Hset)
    as (items & Hitems & Hlookup).
  exists (list_to_map items). unfold get_params. rewrite Hitems, bind_Ok_l.
  split; [done|]. split; [|split; [|split]].
  - apply set_eq. intros name. rewrite elem_of_dom, Hlookup.
    rewrite (elem_of_list_to_set (C:=gset string)).
    destruct (decide (name ∈ parameter_names)) as [Hin|Hin].
    + split; [done|]. intros _. by apply Hset.
    + split; [by intros [? ?]|done].
  - intros name value Hin Hname. rewrite Hlookup, decide_True by done.
    by apply set_params_set.
  - intros name Hname Hnot. rewrite Hlookup, decide_True by done.
    by apply set_params_other.
  - intros name value Hin. by apply set_params_set.
Qed.

Lemma get_params_after_set_params_witness :
  exists m,
    get_params (set_params (init_attributes "empty" "0" "simulator" "2" "qk-means++"
                              "0.0001" "300" "False" "probability" "False" "random")
                           [("n_clusters", "3"); ("colour", "red")])
    = Ok m /\
    m !! "n_clusters" = Some "3" /\ m !! "tol" = Some "0.0001" /\ m !! "colour" = None.
Proof.
  destruct (get_params_after_set_params
              (init_attributes "empty" "0" "simulator" "2" "qk-means++"
                 "0.0001" "300" "False" "probability" "False" "random")
              [("n_clusters", "3"); ("colour", "red")])
    as (_ & m & Hm & Hdom & Hset & Hkeep & _).
  - apply init_has_parameters.
  - apply (bool_decide_unpack _). by vm_compute.
  - exists m. split; [exact Hm|]. split; [|split].
    + apply Hset; [by left | by left].
    + rewrite Hkeep; [by vm_compute | by do 2 right; left |].
      apply (bool_decide_unpack _). by vm_compute.
    + apply not_elem_of_dom. rewrite Hdom.
      apply (bool_decide_unpack _). by vm_compute.
Defined.

(** ** Jobs of a single circuit and short operands *)

Lemma prefix_refl (s : string) : String.prefix s s = true.
Proof.
  induction s as [|a s IH]; [done|]. simpl.
  by destruct (Ascii.ascii_dec a a).
Qed.

Lemma prefix_same_length (s t : string) :
  String.length s = String.length t -> String.prefix s t = true -> s = t.
Proof.
  revert t. induction s as [|a s IH]; intros [|b t]; simpl; try done.
  intros [= Hl]. destruct (Ascii.ascii_dec a b) as [->|]; [|done].
  intros H. by rewrite (IH t Hl H).
Qed.

Lemma is_substring_longer (key outcome : string) :
  String.length outcome < String.length key -> is_substring key outcome = false.
Proof.
  revert key. induction outcome as [|b t IH]; intros key Hl.
  - destruct key; [simpl in Hl; lia | done].
  - cbn [is_substring]. rewrite (IH key) by (simpl in Hl; lia).
    rewrite orb_false_r.
    destruct (String.prefix key (String b t)) eqn:Hp; [|done].
    apply String.prefix_correct in Hp.
    assert (String.length (String.substring 0 (String.length key) (String b t))
            <= String.length (String b t)) as Hs.
    { generalize (String.length key), (String b t), 0. clear.
      intros n s. revert n. induction s as [|a s IH]; intros n m.
      - by destruct m, n.
      - destruct m as [|m]; simpl.
        + destruct n as [|n]; simpl; [lia|]. specialize (IH n 0). lia.
        + specialize (IH n m). lia. }
    rewrite Hp in Hs. lia.
Qed.

Lemma is_substring_same_length (key outcome : string) :
  String.length key = String.length outcome -> key <> "" ->
  is_substring key outcome = true <-> key = outcome.
Proof.
  intros Hl Hne. destruct outcome as [|b t].
  { by destruct key. }
  cbn [is_substring]. rewrite (is_substring_longer key t) by (simpl in Hl; lia).
  rewrite orb_false_r. split.
  - by apply prefix_same_length.
  - intros ->. apply prefix_refl.
Qed.

Lemma length_string_app (s t : string) :
  String.length (s +:+ t) = String.length s + String.length t.
Proof.
  induction s as [|a s IH]; [done|].
  change (String a s +:+ t) with (String a (s +:+ t)).
  cbn [String.length]. by rewrite IH.
Qed.

Lemma length_zeros_string (n : nat) : String.length (zeros_string n) = n.
Proof.
  induction n as [|n IH]; [done|]. cbn [zeros_string].
  rewrite length_string_app, IH. done.
Qed.

Lemma length_divergent_key (qubits : nat) :
  String.length (divergent_key qubits) = qubits * 2 + 1.
Proof.
  unfold divergent_key. rewrite !length_string_app, !length_zeros_string. simpl. lia.
Qed.

Lemma batch_circuits_angle_clbits B qcs rule :
  batch_circuits B "angle" = Ok (Some (qcs, rule)) ->
  Forall (fun qc => num_clbits qc = 3) qcs.
Proof.
  assert (forall x y qc, batch_angle_circuit x y = Ok qc -> num_clbits qc = 3) as H2.
  { intros x y qc. unfold batch_angle_circuit.
    intros (? & _ & (? & _ & H)%bind_Ok)%bind_Ok.
    by apply bind_Ok in H as (? & _ & (? & _ & [= <-])%bind_Ok). }
  assert (forall x y qc, batch_angle3_circuit x y = Ok qc -> num_clbits qc = 3) as H3.
  { intros x y qc. unfold batch_angle3_circuit.
    intros (? & _ & (? & _ & H)%bind_Ok)%bind_Ok.
    apply bind_Ok in H as (? & _ & (? & _ & H)%bind_Ok).
    by apply bind_Ok in H as (? & _ & (? & _ & [= <-])%bind_Ok). }
  unfold batch_circuits. simpl.
  repeat (case_decide || case_match);
    intros (l & Hl & [= <- _])%bind_Ok;
    (eapply mapM_Ok_Forall; [exact Hl|]); intros x qc; simpl; eauto.
Qed.

Lemma decode_single_angle (counts : gmap string N) :
  counts <> ∅ ->
  (forall outcome c, counts !! outcome = Some c -> String.length outcome <> 1) ->
  decode_single by_outcome_count counts = Raise TypeError.
Proof.
  intros Hne Hlen. unfold decode_single.
  destruct (map_to_list counts) as [|[outcome c] l] eqn:Hl.
  { by apply map_to_list_empty_iff in Hl. }
  assert (counts !! outcome = Some c) as Hc.
  { apply elem_of_map_to_list. rewrite Hl. by left. }
  cbn [fmap list_fmap fst forallb].
  by rewrite (proj2 (Nat.eqb_neq _ _) (Hlen _ _ Hc)).
Qed.

Lemma decode_single_membership (key : string) (counts : gmap string N) :
  key <> "" ->
  (forall outcome c, counts !! outcome = Some c -> String.length outcome = String.length key) ->
  decode_single (by_membership key) counts
  = match counts !! key with
    | Some _ => Raise KeyError
    | None => Ok (replicate (size counts) 0%Q)
    end.
Proof.
  intros Hne Hlen. unfold decode_single.
  destruct (existsb (is_substring key) (map_to_list counts).*1) eqn:Hex.
  - apply existsb_exists in Hex as (outcome & Hin & Hsub).
    apply list_elem_of_In, list_elem_of_fmap in Hin as ([o c] & -> & Hoc).
    apply elem_of_map_to_list in Hoc. simpl in Hsub.
    apply is_substring_same_length in Hsub as ->; [|by rewrite (Hlen _ _ Hoc)|done].
    by rewrite Hoc.
  - destruct (counts !! key) as [c|] eqn:Hc.
    + assert (existsb (is_substring key) (map_to_list counts).*1 = true) as Hex'; [|congruence].
      apply existsb_exists. exists key. split.
      * apply list_elem_of_In, list_elem_of_fmap. exists (key, c).
        split; [done | by apply elem_of_map_to_list].
      * by apply is_substring_same_length.
    + by rewrite length_fmap, length_map_to_list.
Qed.

(** The job of a batch that holds one point holds one circuit, and qiskit
    hands out its histogram where the decoding expects a list of histograms.
    On a backend whose outcomes are bitstrings, the 'angle' branches then
    raise TypeError; the 'probability' branches raise KeyError when the
    divergent bitstring is among the outcomes and return one 0.0 per outcome
    otherwise.  So with a batch size of 1 the batched pipeline raises
    TypeError on two-feature data. *)
Theorem single_circuit_job backend :
  bitstring_outcomes backend ->
  (forall B qc rule,
     batch_circuits B "angle" = Ok (Some ([qc], rule)) ->
     batch_distance B backend "angle" = Raise TypeError) /\
  (forall B qc rule,
     batch_circuits B "probability" = Ok (Some ([qc], rule)) ->
     (is_Some (get_counts backend qc shots !! divergent_bitstring (num_clbits qc)) ->
      batch_distance B backend "probability" = Raise KeyError) /\
     (get_counts backend qc shots !! divergent_bitstring (num_clbits qc) = None ->
      batch_distance B backend "probability"
      = Ok (Some (replicate (size (get_counts backend qc shots)) 0%Q)))) /\
  (forall X centers,
     max_experiments backend = 1 ->
     centers <> [] -> length centers < length X ->
     Forall (fun x => length x = 2) X ->
     Forall (fun y => 2 <= length y) centers ->
     batch_distances X (Rows centers) backend "angle" = Raise TypeError).
Proof.
  intros Hbits.
  assert (forall B qc rule,
            batch_circuits B "angle" = Ok (Some ([qc], rule)) ->
            batch_distance B backend "angle" = Raise TypeError) as Hangle.
  { intros B qc rule Hqcs. rewrite (batch_distance_single _ _ _ _ _ Hqcs).
    pose proof (batch_circuits_angle_clbits _ _ _ Hqcs) as [Hqc _]%Forall_cons.
    apply batch_circuits_angle_rule in Hqcs as ->.
    destruct (Hbits qc) as [Hne Hlen]; [lia|].
    rewrite decode_single_angle; [done..|].
    intros outcome c Hc. rewrite (Hlen _ _ Hc), Hqc. lia. }
  split; [exact Hangle|split].
  - intros B qc rule Hqcs. rewrite (batch_distance_single _ _ _ _ _ Hqcs).
    apply batch_circuits_probability_rule in Hqcs as (qubits & -> & [Hqc _]%Forall_cons).
    destruct (Hbits qc) as [_ Hlen]; [lia|].
    rewrite decode_single_membership.
    + rewrite Hqc, <-divergent_key_bitstring.
      split; [by intros [c ->] | by intros ->].
    + intros Hk. pose proof (length_divergent_key qubits) as Hl.
      rewrite Hk in Hl. simpl in Hl. lia.
    + intros outcome c Hc. by rewrite (Hlen _ _ Hc), Hqc, length_divergent_key.
  - intros X centers Hm Hcne Hn HX Hy.
    destruct (batch_separate_even X centers 1 Hn) as
      (chunks & c & Hsep & Hcat & Hc & Hchunks); [lia | by left |].
    unfold batch_distances. rewrite Hm, Hsep, bind_Ok_l.
    destruct chunks as [|chunk chunks].
    { simpl in Hcat. subst X. simpl in Hn. lia. }
    destruct centers as [|y centers]; [done|].
    apply Forall_cons in Hchunks as [Hchunk _].
    assert (c = 1) as -> by lia. clear Hc.
    destruct chunk as [|x [|x' chunk]]; [done| |done].
    assert (length x = 2) as Hx.
    { rewrite <-Hcat in HX. by apply Forall_cons in HX as [Hx _]. }
    apply Forall_cons in Hy as [Hy _].
    assert (batch_distance ([x], y) backend "angle" = Raise TypeError) as Hraise.
    { destruct x as [|x0 [|x1 [|x2 x]]]; try done.
      destruct y as [|y0 [|y1 y]]; [simpl in Hy; lia..|].
      by apply (Hangle _ (angle_circuit (A_phase x0 x1) (A_phase y0 y1))
                       by_outcome_count). }
    assert (exists rest,
              ([x] :: chunks) ≫= (fun chunk => (fun y' => (chunk, y')) <$> (y :: centers))
              = ([x], y) :: rest) as [rest ->] by (eexists; reflexivity).
    by rewrite mapM_cons, Hraise.
Qed.

Lemma simulator_bitstring_outcomes m : bitstring_outcomes (simulator m).
Proof.
  intros qc Hbits. simpl. unfold simulated_counts.
  assert (String.length (divergent_bitstring (num_clbits qc)) = num_clbits qc) as Hd.
  { unfold divergent_bitstring. rewrite length_string_app, length_zeros_string.
    simpl. lia. }
  destruct (_ =? _)%N; split.
  - apply map_non_empty_singleton.
  - intros outcome c [<- _]%lookup_singleton_Some. apply length_zeros_string.
  - apply insert_non_empty.
  - intros outcome c [[<- _]|[_ [<- _]%lookup_singleton_Some]]%lookup_insert_Some.
    + exact Hd.
    + apply length_zeros_string.
Qed.

Lemma single_circuit_job_witness :
  batch_distance ([[1; 2]]%Q, [3; 4]%Q) (simulator 1) "angle" = Raise TypeError /\
  batch_distance ([[3 # 5; 4 # 5]]%Q, [1; 0]%Q) (simulator 1) "probability"
  = Raise KeyError /\
  batch_distance ([[1; 0]]%Q, [1; 0]%Q) (simulator 1) "probability" = Ok (Some [0%Q]) /\
  batch_distances four_points (Rows two_centers) (simulator 1) "angle"
  = Raise TypeError.
Proof.
  pose proof (single_circuit_job (simulator 1) (simulator_bitstring_outcomes 1))
    as (Hangle & Hprob & Hbatch).
  refine (conj _ (conj _ (conj _ _))).
  - eapply Hangle. reflexivity.
  - eapply Hprob; [reflexivity|]. eexists. reflexivity.
  - edestruct (Hprob ([[1; 0]]%Q, [1; 0]%Q)) as [_ Hzero]; [reflexivity|].
    exact (Hzero eq_refl).
  - apply Hbatch; [reflexivity | done | simpl; lia | repeat constructor |].
    repeat constructor.
Defined.

(** The 'angle' branches of [batch_distance] read features 0 and 1 of every
    point and of the centre: a batch whose points or whose centre have fewer
    than two features raises IndexError, whatever the feature count. *)
Theorem batch_angle_short_operands point chunk y backend :
  length point < 2 \/ length y < 2 ->
  batch_distance (point :: chunk, y) backend "angle" = Raise IndexError.
Proof.
  intros Hshort.
  assert (batch_angle_circuit point y = Raise IndexError) as H2.
  { unfold batch_angle_circuit.
    destruct Hshort as [Hp|Hy].
    - by destruct point as [|? [|? ?]]; [..|simpl in Hp; lia].
    - destruct point as [|x0 [|x1 point]]; [done..|].
      by destruct y as [|? [|? ?]]; [..|simpl in Hy; lia]. }
  assert (batch_angle3_circuit point y = Raise IndexError) as H3.
  { unfold batch_angle3_circuit.
    destruct Hshort as [Hp|Hy].
    - by destruct point as [|? [|? ?]]; [..|simpl in Hp; lia].
    - destruct point as [|x0 [|x1 point]]; [done..|].
      by destruct y as [|? [|? ?]]; [..|simpl in Hy; lia]. }
  unfold batch_distance, batch_circuits.
  cbn [fst snd shape1]. rewrite !mapM_cons, H2, H3.
  by repeat (case_decide || case_match).
Qed.

Lemma batch_angle_short_operands_witness :
  batch_distance ([[1]; [2]]%Q, [1; 2]%Q) (simulator 2) "angle" = Raise IndexError.
Proof.
  apply batch_angle_short_operands. left. simpl. lia.
Defined.
